(** * Light-probe tetrahedral mesh: construction and sampling

    A shallow embedding of the Delaunay mesh builder
    ([AddTetrahedralMeshVertices], [TetrahedralMesh::Define],
    [TetrahedralMesh::GetTetrahedronCircumsphere],
    [TetrahedralMesh::InitializeSuperMesh]) and of the light-probe sampler
    ([GlobalIllumination::SampleLightProbeMesh],
    [GlobalIllumination::SampleAmbientSH]).

    Conventions of the embedding:
    - [float] is idealised as an exact rational ([Q]); the square root used
      by [Vector3::Length] is a parameter of the geometric part;
    - [unsigned] is an [N] below [2^32], with [M_MAX_UNSIGNED] the null
      sentinel and wrap-around written out where the code subtracts;
    - [ea::vector] is a [list], indexed through [get]/[set]; an index past the
      end is undefined behaviour in the source and the fault [OutOfBounds]
      here;
    - [assert] depends on the build: with assertions compiled in a failed
      [assert] aborts with a diagnostic ([AssertionFailed]), with [NDEBUG]
      it is skipped. *)

From Stdlib Require Import List NArith ZArith QArith Qminmax Lia Lqa Bool.
From Stdlib Require Import Morphisms Setoid.
Import ListNotations.

Set Implicit Arguments.

(* ================================================================== *)
(** ** Faults and the outcome monad *)

(** Which array an out-of-range access hit. *)
Inductive ArrayName :=
| Arr_tetrahedrons | Arr_vertices | Arr_neighbors | Arr_indices
| Arr_circumspheres | Arr_badFlags | Arr_badCells | Arr_searchQueue
| Arr_faces | Arr_newIndices | Arr_lightProbes.

(** Which [assert] fired. *)
Inductive Diagnostic :=
| DegenerateCircumsphere   (* assert(Abs(den) > M_EPSILON) *)
| NoContainingCell         (* assert(0) after the scan for the first bad cell *)
| HoleNotClosed            (* assert(0) after IsClosedSurface *)
| NeighborCulled           (* assert(newIndex != M_MAX_UNSIGNED) *)
| BasisRoundTrip           (* the four asserts on GetInnerBarycentricCoords *)
| AdjacencyInvalid.        (* assert(IsTetrahedralMeshAdjacencyValid(mesh)) *)

(** [DivisionByZero]: a [float] division by zero, whose infinite or NaN
    result the rational idealisation does not represent.
    [FuelExhausted]: the bound this embedding puts on the breadth-first
    [while] loop was reached; [breadth_search_fuel] shows that it is not. *)
Inductive Fault :=
| AssertionFailed (d : Diagnostic)
| OutOfBounds (a : ArrayName) (i : N)
| DivisionByZero
| FuelExhausted.

Inductive Outcome (A : Type) :=
| Done (a : A)
| Fail (f : Fault).
Arguments Done {A} a.
Arguments Fail {A} f.

Definition bind {A B} (m : Outcome A) (k : A -> Outcome B) : Outcome B :=
  match m with
  | Done a => k a
  | Fail f => Fail f
  end.

Notation "x <- m ;; k" := (bind m (fun x => k))
  (at level 61, m at next level, right associativity).
Notation "' p <- m ;; k" := (bind m (fun x => match x with p => k end))
  (at level 61, p pattern, m at next level, right associativity).

(** [assert(c)]: aborts when assertions are compiled in and [c] is false. *)
Definition assert (asserts : bool) (d : Diagnostic) (c : bool) : Outcome unit :=
  if asserts then (if c then Done tt else Fail (AssertionFailed d)) else Done tt.

(* ================================================================== *)
(** ** Unsigned indices and arrays *)

Definition M_MAX_UNSIGNED : N := 4294967295.

(** [ea::vector::operator[]]. *)
Fixpoint get {A} (l : list A) (i : N) : option A :=
  match l with
  | [] => None
  | x :: t => if (i =? 0)%N then Some x else get t (N.pred i)
  end.

(** Assignment through [operator[]]; [None] past the end. *)
Fixpoint set {A} (l : list A) (i : N) (v : A) : option (list A) :=
  match l with
  | [] => None
  | x :: t =>
      if (i =? 0)%N then Some (v :: t)
      else match set t (N.pred i) v with
           | Some t' => Some (x :: t')
           | None => None
           end
  end.

Definition size {A} (l : list A) : N := N.of_nat (length l).

Definition at_ {A} (a : ArrayName) (l : list A) (i : N) : Outcome A :=
  match get l i with
  | Some x => Done x
  | None => Fail (OutOfBounds a i)
  end.

Definition put {A} (a : ArrayName) (l : list A) (i : N) (v : A)
  : Outcome (list A) :=
  match set l i v with
  | Some l' => Done l'
  | None => Fail (OutOfBounds a i)
  end.

(** A C array of four elements, [T x[4]]. *)
Inductive Quad (A : Type) := quad (a0 a1 a2 a3 : A).

Definition qget {A} (q : Quad A) (i : N) : option A :=
  let '(quad a0 a1 a2 a3) := q in
  match i with
  | 0%N => Some a0 | 1%N => Some a1 | 2%N => Some a2 | 3%N => Some a3
  | _ => None
  end.

Definition qset {A} (q : Quad A) (i : N) (v : A) : option (Quad A) :=
  let '(quad a0 a1 a2 a3) := q in
  match i with
  | 0%N => Some (quad v a1 a2 a3) | 1%N => Some (quad a0 v a2 a3)
  | 2%N => Some (quad a0 a1 v a3) | 3%N => Some (quad a0 a1 a2 v)
  | _ => None
  end.

Definition qlist {A} (q : Quad A) : list A :=
  let '(quad a0 a1 a2 a3) := q in [a0; a1; a2; a3].

Definition qmap {A B} (f : A -> B) (q : Quad A) : Quad B :=
  let '(quad a0 a1 a2 a3) := q in quad (f a0) (f a1) (f a2) (f a3).

Definition qat {A} (a : ArrayName) (q : Quad A) (i : N) : Outcome A :=
  match qget q i with
  | Some x => Done x
  | None => Fail (OutOfBounds a i)
  end.

Definition qput {A} (a : ArrayName) (q : Quad A) (i : N) (v : A)
  : Outcome (Quad A) :=
  match qset q i v with
  | Some q' => Done q'
  | None => Fail (OutOfBounds a i)
  end.

(* ================================================================== *)
(** ** Vectors and matrices *)

Record Vector3 := vec3 { x_ : Q; y_ : Q; z_ : Q }.
Record Vector4 := vec4 { wx : Q; wy : Q; wz : Q; ww : Q }.

(** Row-major 3x3 matrix, as [Matrix3(m00, m01, m02, m10, ...)]. *)
Record Matrix3 := mat3 {
  m00 : Q; m01 : Q; m02 : Q;
  m10 : Q; m11 : Q; m12 : Q;
  m20 : Q; m21 : Q; m22 : Q }.

Definition v3_add (a b : Vector3) : Vector3 :=
  vec3 (x_ a + x_ b) (y_ a + y_ b) (z_ a + z_ b).
Definition v3_sub (a b : Vector3) : Vector3 :=
  vec3 (x_ a - x_ b) (y_ a - y_ b) (z_ a - z_ b).
Definition v3_scale (k : Q) (a : Vector3) : Vector3 :=
  vec3 (k * x_ a) (k * y_ a) (k * z_ a).
Definition v3_div (a : Vector3) (k : Q) : Vector3 :=
  vec3 (x_ a / k) (y_ a / k) (z_ a / k).
(** Component-wise product, [Vector3::operator*(const Vector3&)]. *)
Definition v3_mul (a b : Vector3) : Vector3 :=
  vec3 (x_ a * x_ b) (y_ a * y_ b) (z_ a * z_ b).
Definition DotProduct (a b : Vector3) : Q :=
  x_ a * x_ b + y_ a * y_ b + z_ a * z_ b.
Definition CrossProduct (a b : Vector3) : Vector3 :=
  vec3 (y_ a * z_ b - z_ a * y_ b)
       (z_ a * x_ b - x_ a * z_ b)
       (x_ a * y_ b - y_ a * x_ b).
Definition LengthSquared (a : Vector3) : Q := DotProduct a a.
Definition v3_ONE : Vector3 := vec3 1 1 1.
Definition v3_ZERO : Vector3 := vec3 0 0 0.

Definition mat_mul_vec (m : Matrix3) (v : Vector3) : Vector3 :=
  vec3 (m00 m * x_ v + m01 m * y_ v + m02 m * z_ v)
       (m10 m * x_ v + m11 m * y_ v + m12 m * z_ v)
       (m20 m * x_ v + m21 m * y_ v + m22 m * z_ v).

Definition mat_ZERO : Matrix3 := mat3 0 0 0 0 0 0 0 0 0.

(** Equality of vectors up to equality of rationals. *)
Definition v3_eq (a b : Vector3) : Prop :=
  x_ a == x_ b /\ y_ a == y_ b /\ z_ a == z_ b.
Definition v4_eq (a b : Vector4) : Prop :=
  wx a == wx b /\ wy a == wy b /\ wz a == wz b /\ ww a == ww b.

Definition Qltb (a b : Q) : bool := negb (Qle_bool b a).
Definition Qgeb (a b : Q) : bool := Qle_bool b a.

(* ================================================================== *)
(** ** Data model *)

Record Tetrahedron := mkTet {
  indices_ : Quad N;
  neighbors_ : Quad N;
  matrix_ : Matrix3 }.

Record TetrahedralMesh := mkMesh {
  vertices_ : list Vector3;
  tetrahedrons_ : list Tetrahedron;
  hullNormals_ : list Vector3 }.

(** Default-constructed cell: zero indices, no neighbours. *)
Definition Tetrahedron_default : Tetrahedron :=
  mkTet (quad 0 0 0 0)%N
        (quad M_MAX_UNSIGNED M_MAX_UNSIGNED M_MAX_UNSIGNED M_MAX_UNSIGNED)
        mat_ZERO.

(** Modelled from the spec: [TetrahedralMesh::GetInnerBarycentricCoords] is
    declared in a header that is not part of the sources; the spec gives
    [w123 = invMatrix * (position - vertex0)], [w0 = 1 - w1 - w2 - w3]. *)
Definition GetInnerBarycentricCoords (mesh : TetrahedralMesh) (tetIndex : N)
  (position : Vector3) : Outcome Vector4 :=
  tetrahedron <- at_ Arr_tetrahedrons (tetrahedrons_ mesh) tetIndex ;;
  let '(quad i0 _ _ _) := indices_ tetrahedron in
  basePosition <- at_ Arr_vertices (vertices_ mesh) i0 ;;
  let coords := mat_mul_vec (matrix_ tetrahedron) (v3_sub position basePosition) in
  Done (vec4 (1 - x_ coords - y_ coords - z_ coords)
             (x_ coords) (y_ coords) (z_ coords)).

(* ================================================================== *)
(** ** The sampler *)

(** What the sampler blends: [SphericalHarmonicsDot9] in the source, with its
    default (zero) value, [operator+=] and [operator*(float)]. *)
Class Payload (T : Type) := {
  pl_zero : T;
  pl_add : T -> T -> T;
  pl_scale : T -> Q -> T }.

#[export] Instance Payload_Q : Payload Q :=
  {| pl_zero := 0; pl_add := Qplus; pl_scale := Qmult |}.

(** The light-probe collection, one baked payload per probe. *)
Record LightProbeCollection (T : Type) := mkCollection {
  lightProbes_ : list T }.

Record GlobalIllumination (T : Type) := mkGI {
  lightProbesCollection_ : LightProbeCollection T;
  lightProbesMesh_ : TetrahedralMesh }.

(** [weights.x_ >= 0.0f && weights.y_ >= 0.0f && ...] *)
Definition all_nonnegative (w : Vector4) : bool :=
  Qgeb (wx w) 0 && Qgeb (wy w) 0 && Qgeb (wz w) 0 && Qgeb (ww w) 0.

(** The chain of comparisons that selects the face to step through. *)
Definition step_face (w : Vector4) : N :=
  if Qltb (wx w) (wy w) && Qltb (wx w) (wz w) && Qltb (wx w) (ww w) then 0%N
  else if Qltb (wy w) (wz w) && Qltb (wy w) (ww w) then 1%N
  else if Qltb (wz w) (ww w) then 2%N
  else 3%N.

(** How the walk left its loop; the source does not return this, the
    sampler below forgets it. *)
Inductive WalkExit := Located | OffHull | CapReached.

Section Walk.
Variable mesh : TetrahedralMesh.
Variable position : Vector3.

(** The body of [for (unsigned i = 0; i < maxIters; ++i)], with [n] the
    iterations left. *)
Fixpoint walk (n : nat) (weights : Vector4) (hint : N)
  : Outcome (WalkExit * Vector4 * N) :=
  match n with
  | O => Done (CapReached, weights, hint)
  | S n' =>
      weights <- GetInnerBarycentricCoords mesh hint position ;;
      if all_nonnegative weights then Done (Located, weights, hint)
      else
        cell <- at_ Arr_tetrahedrons (tetrahedrons_ mesh) hint ;;
        hint <- qat Arr_neighbors (neighbors_ cell) (step_face weights) ;;
        if (hint =? M_MAX_UNSIGNED)%N then Done (OffHull, weights, hint)
        else walk n' weights hint
  end.
End Walk.

Section Sampler.
Context {T : Type} `{Payload T}.
Variable gi : GlobalIllumination T.
(** The value of a default-constructed [Vector4] ([Vector4 weights;]). *)
Variable weights0 : Vector4.

Definition probeCount : N := size (lightProbes_ (lightProbesCollection_ gi)).

(** [if (hint >= maxIters) hint = 0;] *)
Definition reset_hint (hint : N) : N :=
  if (probeCount <=? hint)%N then 0%N else hint.

Definition locate (position : Vector3) (hint : N)
  : Outcome (WalkExit * Vector4 * N) :=
  let maxIters := probeCount in
  walk (lightProbesMesh_ gi) position (N.to_nat maxIters) weights0
       (reset_hint hint).

(** Returns the weights and the updated [hint] (an in/out reference). *)
Definition SampleLightProbeMesh (position : Vector3) (hint : N)
  : Outcome (Vector4 * N) :=
  '(_, weights, hint) <- locate position hint ;;
  Done (weights, hint).

Definition w_at (w : Vector4) (i : N) : Q :=
  match i with
  | 0%N => wx w | 1%N => wy w | 2%N => wz w | _ => ww w
  end.

(** [for (i < 4) sh += lightProbes_[indices_[i]].bakedLight_ * weights[i]] *)
Fixpoint blend (idx : list N) (i : N) (weights : Vector4) (sh : T)
  : Outcome T :=
  match idx with
  | [] => Done sh
  | v :: rest =>
      probe <- at_ Arr_lightProbes (lightProbes_ (lightProbesCollection_ gi)) v ;;
      blend rest (i + 1)%N weights (pl_add sh (pl_scale probe (w_at weights i)))
  end.

Definition SampleAmbientSH (position : Vector3) (hint : N)
  : Outcome (T * N) :=
  '(weights, hint) <- SampleLightProbeMesh position hint ;;
  if (size (tetrahedrons_ (lightProbesMesh_ gi)) <=? hint)%N
  then Done (pl_zero, hint)
  else
    tetrahedron <- at_ Arr_tetrahedrons (tetrahedrons_ (lightProbesMesh_ gi)) hint ;;
    sh <- blend (qlist (indices_ tetrahedron)) 0 weights pl_zero ;;
    Done (sh, hint).
End Sampler.

Section AverageAmbient.
Context {T : Type} `{Payload T}.
Variable gi : GlobalIllumination T.
(** The values of a default-constructed [Vector4] and [Vector3]. *)
Variable weights0 : Vector4.
Variable ambient0 : Vector3.
(** [SphericalHarmonicsDot9::EvaluateAverage] and [Pow] are not part of the
    sources; they are left open. *)
Variable EvaluateAverage : T -> Vector3.
Variable Pow : Q -> Q -> Q.


End AverageAmbient.

(* ================================================================== *)
(** ** Loops *)

(** [for (unsigned i = from; i < from + n; ++i) body], without [break]. *)
Fixpoint for_loop {S} (n : nat) (i : N) (body : N -> S -> Outcome S) (s : S)
  : Outcome S :=
  match n with
  | O => Done s
  | S n' => s' <- body i s ;; for_loop n' (i + 1)%N body s'
  end.

(** What the body of a loop inside a [void] function does next: go on with
    the next iteration, or [return] from the function. *)
Inductive Flow (S : Type) :=
| Next (s : S)
| Return (s : S).
Arguments Next {S} s.
Arguments Return {S} s.

(** Range-based [for] whose body may [return]. *)
Fixpoint for_each {A S} (l : list A) (body : A -> S -> Outcome (Flow S)) (s : S)
  : Outcome (Flow S) :=
  match l with
  | [] => Done (Next s)
  | a :: rest =>
      r <- body a s ;;
      match r with
      | Next s' => for_each rest body s'
      | Return s' => Done (Return s')
      end
  end.

(* ================================================================== *)
(** ** Faces of the retriangulation hole *)

(** A C array of three elements. *)
Inductive Triple (A : Type) := triple (a0 a1 a2 : A).

Definition tnth {A} (t : Triple A) (i : N) : A :=
  let '(triple a0 a1 a2) := t in
  match i with 0%N => a0 | 1%N => a1 | _ => a2 end.

Definition tupd {A} (t : Triple A) (i : N) (v : A) : Triple A :=
  let '(triple a0 a1 a2) := t in
  match i with
  | 0%N => triple v a1 a2 | 1%N => triple a0 v a2 | _ => triple a0 a1 v
  end.

Definition tlist {A} (t : Triple A) : list A :=
  let '(triple a0 a1 a2) := t in [a0; a1; a2].

(** Modelled from the spec: [TetrahedralMeshSurfaceTriangle] is declared in a
    header that is not part of the sources. A hole face has three vertices,
    three links to the hole faces it shares an edge with, and the tag of the
    outer cell it borders ([tetIndex_], none on the hull) with the face of
    that cell it lies on ([tetFace_]). *)
Record TetrahedralMeshSurfaceTriangle := mkTri {
  tri_indices_ : Triple N;
  tri_neighbors_ : Triple N;
  tetIndex_ : N;
  tetFace_ : N }.

Record TetrahedralMeshSurface := mkSurface {
  faces_ : list TetrahedralMeshSurfaceTriangle }.

Definition Surface_Clear : TetrahedralMeshSurface := mkSurface [].
Definition Surface_Size (s : TetrahedralMeshSurface) : N := size (faces_ s).

(** Modelled from the spec: [Tetrahedron::GetTriangleFace] is not part of
    the sources. The neighbour at position [i] of a cell shares the face
    opposite vertex [i]: face [faceIndex] is made of the three other
    vertices, in their order in the cell, with no links yet. *)
Definition GetTriangleFace (t : Tetrahedron) (faceIndex tetIndex tetFace : N)
  : Outcome TetrahedralMeshSurfaceTriangle :=
  let '(quad i0 i1 i2 i3) := indices_ t in
  let none := triple M_MAX_UNSIGNED M_MAX_UNSIGNED M_MAX_UNSIGNED in
  match faceIndex with
  | 0%N => Done (mkTri (triple i1 i2 i3) none tetIndex tetFace)
  | 1%N => Done (mkTri (triple i0 i2 i3) none tetIndex tetFace)
  | 2%N => Done (mkTri (triple i0 i1 i3) none tetIndex tetFace)
  | 3%N => Done (mkTri (triple i0 i1 i2) none tetIndex tetFace)
  | _ => Fail (OutOfBounds Arr_indices faceIndex)
  end.

(** Edge [e] of a face, from vertex [e] to vertex [e+1], end points sorted. *)
Definition GetEdge (f : TetrahedralMeshSurfaceTriangle) (e : N) : N * N :=
  let a := tnth (tri_indices_ f) e in
  let b := tnth (tri_indices_ f) ((e + 1) mod 3)%N in
  if (b <? a)%N then (b, a) else (a, b).

Definition edge_eqb (e1 e2 : N * N) : bool :=
  (fst e1 =? fst e2)%N && (snd e1 =? snd e2)%N.

(** Links [oldFace] (at [oldFaceIndex]) and [newFace] (to be stored at
    [newFaceIndex]) across every edge they share. The link across an edge is
    stored at the slot of the vertex opposite the edge, so that in the cell
    built on a face, neighbour [j] lies across the face opposite vertex [j]. *)
Definition link_faces (oldFaceIndex newFaceIndex : N)
  (faces : TetrahedralMeshSurfaceTriangle * TetrahedralMeshSurfaceTriangle)
  (edges : N * N)
  : TetrahedralMeshSurfaceTriangle * TetrahedralMeshSurfaceTriangle :=
  let '(oldFace, newFace) := faces in
  let '(oldEdgeIndex, newEdgeIndex) := edges in
  if edge_eqb (GetEdge oldFace oldEdgeIndex) (GetEdge newFace newEdgeIndex)
  then
    let oldOpposite := ((oldEdgeIndex + 2) mod 3)%N in
    let newOpposite := ((newEdgeIndex + 2) mod 3)%N in
    (mkTri (tri_indices_ oldFace)
           (tupd (tri_neighbors_ oldFace) oldOpposite newFaceIndex)
           (tetIndex_ oldFace) (tetFace_ oldFace),
     mkTri (tri_indices_ newFace)
           (tupd (tri_neighbors_ newFace) newOpposite oldFaceIndex)
           (tetIndex_ newFace) (tetFace_ newFace))
  else faces.

Definition edge_pairs : list (N * N) :=
  [(0,0); (0,1); (0,2); (1,0); (1,1); (1,2); (2,0); (2,1); (2,2)]%N.

Fixpoint link_all (oldFaceIndex newFaceIndex : N)
  (olds : list TetrahedralMeshSurfaceTriangle)
  (newFace : TetrahedralMeshSurfaceTriangle)
  : list TetrahedralMeshSurfaceTriangle * TetrahedralMeshSurfaceTriangle :=
  match olds with
  | [] => ([], newFace)
  | oldFace :: rest =>
      let '(oldFace', newFace') :=
        fold_left (link_faces oldFaceIndex newFaceIndex) edge_pairs
                  (oldFace, newFace) in
      let '(rest', newFace'') :=
        link_all (oldFaceIndex + 1)%N newFaceIndex rest newFace' in
      (oldFace' :: rest', newFace'')
  end.

(** Modelled from the spec: [TetrahedralMeshSurface::AddFace] is not part of
    the sources. The face is recorded after the faces already there and
    linked to each of them it shares an edge with. *)
Definition AddFace (s : TetrahedralMeshSurface)
  (newFace : TetrahedralMeshSurfaceTriangle) : TetrahedralMeshSurface :=
  let '(olds, newFace') := link_all 0 (Surface_Size s) (faces_ s) newFace in
  mkSurface (olds ++ [newFace']).

(** Number of faces of the surface that have the (sorted) edge [e]. *)
Definition edge_count (s : TetrahedralMeshSurface) (e : N * N) : nat :=
  length (filter (fun ef => edge_eqb (fst ef) e)
            (flat_map (fun f => [(GetEdge f 0, f); (GetEdge f 1, f); (GetEdge f 2, f)])
                      (faces_ s))).

(** Modelled from the spec: [TetrahedralMeshSurface::IsClosedSurface] is not
    part of the sources. The hole boundary is a closed 2-manifold surface
    when every edge is shared by exactly two boundary triangles. *)
Definition IsClosedSurface (s : TetrahedralMeshSurface) : bool :=
  forallb (fun f =>
             Nat.eqb (edge_count s (GetEdge f 0)) 2 &&
             Nat.eqb (edge_count s (GetEdge f 1)) 2 &&
             Nat.eqb (edge_count s (GetEdge f 2)) 2)
          (faces_ s).

(* ================================================================== *)
(** ** Spheres, boxes and the inverse basis *)

Record Sphere := mkSphere { center_ : Vector3; radius_ : Q }.

(** A default-constructed sphere; the builder overwrites it before any read. *)
Definition Sphere_default : Sphere := mkSphere v3_ZERO 0.

Inductive Intersection := OUTSIDE | INTERSECTS | INSIDE.

Definition Intersection_eqb (a b : Intersection) : bool :=
  match a, b with
  | OUTSIDE, OUTSIDE | INTERSECTS, INTERSECTS | INSIDE, INSIDE => true
  | _, _ => false
  end.

(** Modelled from the spec: [Sphere::IsInside] is not part of the sources.
    A point is inside, on the boundary or outside of the sphere, tested
    against the (inflated) radius. *)
Definition IsInside (s : Sphere) (point : Vector3) : Intersection :=
  let distSquared := LengthSquared (v3_sub point (center_ s)) in
  let r2 := radius_ s * radius_ s in
  if Qltb distSquared r2 then INSIDE
  else if Qle_bool distSquared r2 then INTERSECTS
  else OUTSIDE.

(** [circumsphere.IsInside(position) != OUTSIDE] *)
Definition contains (s : Sphere) (point : Vector3) : bool :=
  negb (Intersection_eqb (IsInside s point) OUTSIDE).

Record BoundingBox := mkBox { min_ : Vector3; max_ : Vector3 }.

Definition v3_min (a b : Vector3) : Vector3 :=
  vec3 (Qmin (x_ a) (x_ b)) (Qmin (y_ a) (y_ b)) (Qmin (z_ a) (z_ b)).
Definition v3_max (a b : Vector3) : Vector3 :=
  vec3 (Qmax (x_ a) (x_ b)) (Qmax (y_ a) (y_ b)) (Qmax (z_ a) (z_ b)).

Definition Merge (b : BoundingBox) (p : Vector3) : BoundingBox :=
  mkBox (v3_min (min_ b) p) (v3_max (max_ b) p).

(** Modelled from the spec: the [BoundingBox(const Vector3*, unsigned)]
    constructor is not part of the sources; it is the axis-aligned bounding
    box of all points. The box of no point at all (infinite in the source)
    is not representable and is given as the zero box. *)
Definition BoundingBox_of (positions : list Vector3) : BoundingBox :=
  match positions with
  | [] => mkBox v3_ZERO v3_ZERO
  | p :: rest => fold_left Merge rest (mkBox p p)
  end.

Definition Box_Size (b : BoundingBox) : Vector3 := v3_sub (max_ b) (min_ b).

Definition determinant (m : Matrix3) : Q :=
  m00 m * m11 m * m22 m + m10 m * m21 m * m02 m + m20 m * m01 m * m12 m
  - m20 m * m11 m * m02 m - m10 m * m01 m * m22 m - m00 m * m21 m * m12 m.

(** Modelled from the spec: [Matrix3::Inverse] is not part of the sources;
    it is the inverse of the matrix, here the adjugate over the
    determinant. *)
Definition Inverse (m : Matrix3) : Outcome Matrix3 :=
  let det := determinant m in
  if Qeq_bool det 0 then Fail DivisionByZero
  else
    let invDet := 1 / det in
    Done (mat3
      ((m11 m * m22 m - m21 m * m12 m) * invDet)
      (- (m01 m * m22 m - m21 m * m02 m) * invDet)
      ((m01 m * m12 m - m11 m * m02 m) * invDet)
      (- (m10 m * m22 m - m20 m * m12 m) * invDet)
      ((m00 m * m22 m - m20 m * m02 m) * invDet)
      (- (m00 m * m12 m - m10 m * m02 m) * invDet)
      ((m10 m * m21 m - m20 m * m11 m) * invDet)
      (- (m00 m * m21 m - m20 m * m01 m) * invDet)
      ((m00 m * m11 m - m10 m * m01 m) * invDet)).

(** Modelled from the spec: [Vector4::Equals] is not part of the sources;
    it compares component-wise within a tolerance. *)
Definition Equals (tolerance : Q) (a b : Vector4) : bool :=
  let close u v := Qle_bool v (u + tolerance) && Qle_bool (u - tolerance) v in
  close (wx a) (wx b) && close (wy a) (wy b)
  && close (wz a) (wz b) && close (ww a) (ww b).

Definition Qabs_ (a : Q) : Q := if Qltb a 0 then - a else a.

(* ================================================================== *)
(** ** The super-mesh *)

Definition numVertices : N := 8.

Definition offsets : list Vector3 :=
  [ vec3 0 0 0; vec3 1 0 0; vec3 0 1 0; vec3 1 1 0;
    vec3 0 0 1; vec3 1 0 1; vec3 0 1 1; vec3 1 1 1 ].

Definition super_indices : list (Quad N) :=
  [ quad 0 1 2 4; quad 3 1 2 7; quad 5 1 4 7; quad 6 2 4 7; quad 1 2 4 7 ]%N.

Definition super_neighbors : list (Quad N) :=
  [ quad 4%N M_MAX_UNSIGNED M_MAX_UNSIGNED M_MAX_UNSIGNED;
    quad 4%N M_MAX_UNSIGNED M_MAX_UNSIGNED M_MAX_UNSIGNED;
    quad 4%N M_MAX_UNSIGNED M_MAX_UNSIGNED M_MAX_UNSIGNED;
    quad 4%N M_MAX_UNSIGNED M_MAX_UNSIGNED M_MAX_UNSIGNED;
    quad 3 2 1 0 ]%N.

(** [TetrahedralMesh::InitializeSuperMesh]: the mesh's vertices and cells
    are replaced, its hull normals are left as they are. *)
Definition InitializeSuperMesh (mesh : TetrahedralMesh) (boundingBox : BoundingBox)
  : TetrahedralMesh :=
  mkMesh
    (map (fun o => v3_add (min_ boundingBox) (v3_mul (Box_Size boundingBox) o))
         offsets)
    (map (fun c => mkTet (fst c) (snd c) mat_ZERO)
         (combine super_indices super_neighbors))
    (hullNormals_ mesh).

(* ================================================================== *)
(** ** The builder *)

(** The state of [AddTetrahedralMeshVertices] between two insertions: the
    mesh and the two local arrays that run parallel to its cells. *)
Record Build := mkBuild {
  b_mesh : TetrahedralMesh;
  circumspheres : list Sphere;
  badFlags : list bool }.

(** The locals of one insertion. *)
Record Search := mkSearch {
  s_badFlags : list bool;
  badCells : list N;
  searchQueue : list N;
  holeSurface : TetrahedralMeshSurface }.

Definition set_tetrahedrons (mesh : TetrahedralMesh) (cells : list Tetrahedron)
  : TetrahedralMesh :=
  mkMesh (vertices_ mesh) cells (hullNormals_ mesh).

(** [ea::find(begin(a), end(a), v) - begin(a)]: 4 when [v] is absent. *)
Definition find4 (q : Quad N) (v : N) : N :=
  let '(quad a0 a1 a2 a3) := q in
  if (a0 =? v)%N then 0%N else if (a1 =? v)%N then 1%N
  else if (a2 =? v)%N then 2%N else if (a3 =? v)%N then 3%N else 4%N.

(** [ea::count(begin(a), end(a), v)] *)
Definition count4 (q : Quad N) (v : N) : nat :=
  length (filter (fun a => (a =? v)%N) (qlist q)).

(** [ea::replace(begin(a), end(a), from, to)] *)
Definition replace4 (q : Quad N) (from to : N) : Quad N :=
  qmap (fun a => if (a =? from)%N then to else a) q.

(** [IsTetrahedralMeshAdjacencyValid]: the inner loop over the four faces
    of cell [cellIndex]. *)
Definition cell_adjacency_valid (cells : list Tetrahedron) (cellIndex : N)
  (cell : Tetrahedron) : Outcome bool :=
  fold_left
    (fun (acc : Outcome bool) (neighborIndex : N) =>
       ok <- acc ;;
       if negb ok then Done false
       else if (neighborIndex =? M_MAX_UNSIGNED)%N then Done true
       else
         neighborCell <- at_ Arr_tetrahedrons cells neighborIndex ;;
         Done (negb (Nat.eqb (count4 (neighbors_ neighborCell) cellIndex) 0)))
    (qlist (neighbors_ cell)) (Done true).

Fixpoint adjacency_valid_from (cells : list Tetrahedron) (cellIndex : N)
  (rest : list Tetrahedron) : Outcome bool :=
  match rest with
  | [] => Done true
  | cell :: rest' =>
      ok <- cell_adjacency_valid cells cellIndex cell ;;
      if ok then adjacency_valid_from cells (cellIndex + 1)%N rest'
      else Done false
  end.

Definition IsTetrahedralMeshAdjacencyValid (mesh : TetrahedralMesh)
  : Outcome bool :=
  adjacency_valid_from (tetrahedrons_ mesh) 0 (tetrahedrons_ mesh).

Section Builder.
(** Whether assertions are compiled in ([NDEBUG] not defined). *)
Variable asserts : bool.
(** The square root behind [Vector3::Length]. *)
Variable sqrtQ : Q -> Q.
(** Constants of the engine's math header, which is not part of the
    sources. *)
Variable M_EPSILON : Q.
Variable M_LARGE_EPSILON : Q.
(** Tolerance of [Vector4::Equals]. *)
Variable tolerance : Q.

Definition Length (v : Vector3) : Q := sqrtQ (LengthSquared v).

(** [TetrahedralMesh::GetTetrahedronCircumsphere], once the four vertices
    of the cell are read. *)
Definition circumsphere_of_points (p0 p1 p2 p3 : Vector3) : Outcome Sphere :=
  let u1 := v3_sub p1 p0 in
  let u2 := v3_sub p2 p0 in
  let u3 := v3_sub p3 p0 in
  let d01 := LengthSquared u1 in
  let d02 := LengthSquared u2 in
  let d03 := LengthSquared u3 in
  let num := v3_add (v3_add (v3_scale d01 (CrossProduct u2 u3))
                            (v3_scale d02 (CrossProduct u3 u1)))
                    (v3_scale d03 (CrossProduct u1 u2)) in
  let den := 2 * DotProduct u1 (CrossProduct u2 u3) in
  _ <- assert asserts DegenerateCircumsphere (Qltb M_EPSILON (Qabs_ den)) ;;
  if Qeq_bool den 0 then Fail DivisionByZero
  else
    let r0 := v3_div num den in
    let center := v3_add p0 r0 in
    let eps := M_LARGE_EPSILON in
    let radius :=
      Qmax (Qmax (Qmax (Length r0) (Length (v3_sub p1 center)))
                 (Length (v3_sub p2 center)))
           (Length (v3_sub p3 center)) in
    Done (mkSphere center (radius + eps)).

(** [TetrahedralMesh::GetTetrahedronCircumsphere] *)
Definition GetTetrahedronCircumsphere (mesh : TetrahedralMesh) (tetIndex : N)
  : Outcome Sphere :=
  tetrahedron <- at_ Arr_tetrahedrons (tetrahedrons_ mesh) tetIndex ;;
  let '(quad i0 i1 i2 i3) := indices_ tetrahedron in
  p0 <- at_ Arr_vertices (vertices_ mesh) i0 ;;
  p1 <- at_ Arr_vertices (vertices_ mesh) i1 ;;
  p2 <- at_ Arr_vertices (vertices_ mesh) i2 ;;
  p3 <- at_ Arr_vertices (vertices_ mesh) i3 ;;
  circumsphere_of_points p0 p1 p2 p3.

(** Lines 163-169: the circumsphere of every cell, and no cell bad. *)
Definition init_build (mesh : TetrahedralMesh) : Outcome Build :=
  '(spheres, flags) <-
    for_loop (length (tetrahedrons_ mesh)) 0
      (fun i '(spheres, flags) =>
         s <- GetTetrahedronCircumsphere mesh i ;;
         Done (spheres ++ [s], flags ++ [false]))
      ([], []) ;;
  Done (mkBuild mesh spheres flags).

(** Lines 185-194: the scan for the first bad cell; [n] cells are left to
    look at, from [cellIndex] on. *)
Fixpoint find_first_bad (b : Build) (position : Vector3)
  (n : nat) (cellIndex : N) : Outcome (option N) :=
  match n with
  | O => Done None
  | S n' =>
      flag <- at_ Arr_badFlags (badFlags b) cellIndex ;;
      if flag then find_first_bad b position n' (cellIndex + 1)%N
      else
        sphere <- at_ Arr_circumspheres (circumspheres b) cellIndex ;;
        if contains sphere position then Done (Some cellIndex)
        else find_first_bad b position n' (cellIndex + 1)%N
  end.

(** Lines 212-244: neighbour [j] of the queued bad cell [current]. *)
Definition visit_neighbor (b : Build) (position : Vector3) (current : N)
  (tetrahedron : Tetrahedron) (j : N) (s : Search) : Outcome Search :=
  nextIndex <- qat Arr_neighbors (neighbors_ tetrahedron) j ;;
  if (nextIndex =? M_MAX_UNSIGNED)%N then
    newFace <- GetTriangleFace tetrahedron j M_MAX_UNSIGNED M_MAX_UNSIGNED ;;
    Done (mkSearch (s_badFlags s) (badCells s) (searchQueue s)
                   (AddFace (holeSurface s) newFace))
  else
    nextTetrahedron <- at_ Arr_tetrahedrons (tetrahedrons_ (b_mesh b)) nextIndex ;;
    flag <- at_ Arr_badFlags (s_badFlags s) nextIndex ;;
    if flag then Done s
    else
      sphere <- at_ Arr_circumspheres (circumspheres b) nextIndex ;;
      if contains sphere position then
        flags <- put Arr_badFlags (s_badFlags s) nextIndex true ;;
        Done (mkSearch flags (badCells s ++ [nextIndex])
                       (searchQueue s ++ [nextIndex]) (holeSurface s))
      else
        let nextFaceIndex := find4 (neighbors_ nextTetrahedron) current in
        newFace <- GetTriangleFace nextTetrahedron nextFaceIndex nextIndex
                                   nextFaceIndex ;;
        Done (mkSearch (s_badFlags s) (badCells s) (searchQueue s)
                       (AddFace (holeSurface s) newFace)).

(** Lines 207-245: the queued cells [firstCell .. lastCell-1]. *)
Definition visit_batch (b : Build) (position : Vector3)
  (firstCell lastCell : N) (s : Search) : Outcome Search :=
  for_loop (N.to_nat (lastCell - firstCell)) firstCell
    (fun i s =>
       current <- at_ Arr_searchQueue (searchQueue s) i ;;
       tetrahedron <- at_ Arr_tetrahedrons (tetrahedrons_ (b_mesh b)) current ;;
       for_loop 4 0 (visit_neighbor b position current tetrahedron) s)
    s.

(** Lines 203-247: [while (firstCell < searchQueue.size())]. Every turn
    of the loop takes a non-empty batch of cells that were not bad before,
    so the loop turns at most once per cell; [fuel] counts the turns
    left, and running out of it is reported as [None]. *)
Fixpoint breadth_search (fuel : nat) (b : Build) (position : Vector3)
  (firstCell : N) (s : Search) : Outcome (option Search) :=
  if (firstCell <? size (searchQueue s))%N then
    match fuel with
    | O => Done None
    | S fuel' =>
        let lastCell := size (searchQueue s) in
        s' <- visit_batch b position firstCell lastCell s ;;
        breadth_search fuel' b position lastCell s'
    end
  else Done (Some s).

(** Lines 256-262: one slot more per hole face the bad cells cannot take;
    [n] is the number of slots to add. *)
Fixpoint grow (n : nat) (b : Build) (cells : list N) : Build * list N :=
  match n with
  | O => (b, cells)
  | S n' =>
      let mesh := b_mesh b in
      let cells' := cells ++ [size (tetrahedrons_ mesh)] in
      let b' := mkBuild
                  (set_tetrahedrons mesh (tetrahedrons_ mesh ++ [Tetrahedron_default]))
                  (circumspheres b ++ [Sphere_default])
                  (badFlags b ++ [true]) in
      grow n' b' cells'
  end.

(** Lines 266-280: the new cell on hole face [i]. *)
Definition make_cell (cells : list N) (surface : TetrahedralMeshSurface)
  (newIndex : N) (i : N) (b : Build) : Outcome Build :=
  newCellIndex <- at_ Arr_badCells cells i ;;
  tetrahedron <- at_ Arr_tetrahedrons (tetrahedrons_ (b_mesh b)) newCellIndex ;;
  face <- at_ Arr_faces (faces_ surface) i ;;
  let '(triple f0 f1 f2) := tri_indices_ face in
  let '(triple g0 g1 g2) := tri_neighbors_ face in
  n0 <- at_ Arr_badCells cells g0 ;;
  n1 <- at_ Arr_badCells cells g1 ;;
  n2 <- at_ Arr_badCells cells g2 ;;
  let tetrahedron' :=
    mkTet (quad f0 f1 f2 newIndex) (quad n0 n1 n2 (tetIndex_ face))
          (matrix_ tetrahedron) in
  cells1 <- put Arr_tetrahedrons (tetrahedrons_ (b_mesh b)) newCellIndex
                tetrahedron' ;;
  cells2 <-
    (if (tetIndex_ face =? M_MAX_UNSIGNED)%N then Done cells1
     else
       outer <- at_ Arr_tetrahedrons cells1 (tetIndex_ face) ;;
       nb <- qput Arr_neighbors (neighbors_ outer) (tetFace_ face) newCellIndex ;;
       put Arr_tetrahedrons cells1 (tetIndex_ face)
           (mkTet (indices_ outer) nb (matrix_ outer))) ;;
  flags <- put Arr_badFlags (badFlags b) newCellIndex false ;;
  let mesh' := set_tetrahedrons (b_mesh b) cells2 in
  sphere <- GetTetrahedronCircumsphere mesh' newCellIndex ;;
  spheres <- put Arr_circumspheres (circumspheres b) newCellIndex sphere ;;
  Done (mkBuild mesh' spheres flags).

(** [mesh.vertices_.push_back(position)] *)
Definition push_vertex (b : Build) (position : Vector3) : Build :=
  mkBuild (mkMesh (vertices_ (b_mesh b) ++ [position])
                  (tetrahedrons_ (b_mesh b)) (hullNormals_ (b_mesh b)))
          (circumspheres b) (badFlags b).

(** Lines 177-281: the body of the loop over the positions. *)
Definition insert_point (position : Vector3) (b : Build)
  : Outcome (Flow Build) :=
  let newIndex := size (vertices_ (b_mesh b)) in
  let b := push_vertex b position in
  let mesh := b_mesh b in
  first <- find_first_bad b position (length (tetrahedrons_ mesh)) 0 ;;
  match first with
  | None =>
      _ <- assert asserts NoContainingCell false ;;
      Done (Return b)
  | Some cellIndex =>
      flags <- put Arr_badFlags (badFlags b) cellIndex true ;;
      found <- breadth_search (S (length flags)) b position 0
                 (mkSearch flags [cellIndex] [cellIndex] Surface_Clear) ;;
      match found with
      | None => Fail FuelExhausted
      | Some s =>
          let b := mkBuild mesh (circumspheres b) (s_badFlags s) in
          if negb (IsClosedSurface (holeSurface s)) then
            _ <- assert asserts HoleNotClosed false ;;
            Done (Return b)
          else
            let '(b, cells) :=
              grow (N.to_nat (Surface_Size (holeSurface s) - size (badCells s)))
                   b (badCells s) in
            b <- for_loop (N.to_nat (Surface_Size (holeSurface s))) 0
                   (make_cell cells (holeSurface s) newIndex) b ;;
            Done (Next b)
      end
  end.

(** [indices_[j] < 8] for some [j]. *)
Definition touches_super (cell : Tetrahedron) : bool :=
  existsb (fun v => (v <? 8)%N) (qlist (indices_ cell)).

(** Lines 296-304: face [j] of the culled cell [i]. *)
Definition unlink_neighbor (i : N) (j : N) (cells : list Tetrahedron)
  : Outcome (list Tetrahedron) :=
  cell <- at_ Arr_tetrahedrons cells i ;;
  neighborIndex <- qat Arr_neighbors (neighbors_ cell) j ;;
  if (neighborIndex =? M_MAX_UNSIGNED)%N then Done cells
  else
    neighbor <- at_ Arr_tetrahedrons cells neighborIndex ;;
    put Arr_tetrahedrons cells neighborIndex
        (mkTet (indices_ neighbor)
               (replace4 (neighbors_ neighbor) i M_MAX_UNSIGNED)
               (matrix_ neighbor)).

(** Lines 284-306: the body of the cull loop. *)
Definition cull_cell (i : N) (st : list Tetrahedron * list bool)
  : Outcome (list Tetrahedron * list bool) :=
  let '(cells, flags) := st in
  cell <- at_ Arr_tetrahedrons cells i ;;
  flags <- (if touches_super cell then put Arr_badFlags flags i true
            else Done flags) ;;
  flag <- at_ Arr_badFlags flags i ;;
  if flag then
    cells <- for_loop 4 0 (unlink_neighbor i) cells ;;
    Done (cells, flags)
  else Done (cells, flags).

(** Lines 312-322: the surviving cells and the new index of every cell. *)
Definition renumber_cell (cells : list Tetrahedron) (flags : list bool)
  (i : N) (st : list N * list Tetrahedron)
  : Outcome (list N * list Tetrahedron) :=
  let '(newIndices, out) := st in
  flag <- at_ Arr_badFlags flags i ;;
  if flag then Done (newIndices ++ [M_MAX_UNSIGNED], out)
  else
    cell <- at_ Arr_tetrahedrons cells i ;;
    Done (newIndices ++ [size out], out ++ [cell]).

(** Lines 325-332: neighbour [i] of a surviving cell. *)
Definition remap_neighbor (newIndices : list N) (i : N) (cell : Tetrahedron)
  : Outcome Tetrahedron :=
  n <- qat Arr_neighbors (neighbors_ cell) i ;;
  if (n =? M_MAX_UNSIGNED)%N then Done cell
  else
    newIndex <- at_ Arr_newIndices newIndices n ;;
    _ <- assert asserts NeighborCulled (negb (newIndex =? M_MAX_UNSIGNED)%N) ;;
    nb <- qput Arr_neighbors (neighbors_ cell) i newIndex ;;
    Done (mkTet (indices_ cell) nb (matrix_ cell)).

Fixpoint map_outcome {A B} (f : A -> Outcome B) (l : list A)
  : Outcome (list B) :=
  match l with
  | [] => Done []
  | a :: rest =>
      b <- f a ;;
      rest' <- map_outcome f rest ;;
      Done (b :: rest')
  end.

(** [indices_[j] -= 8] on an [unsigned]. *)
Definition sub8 (v : N) : N := ((v + 4294967296 - 8) mod 4294967296)%N.

(** Lines 344-356: the inverse basis of cell [i] and its self-check. *)
Definition set_matrix (i : N) (mesh : TetrahedralMesh)
  : Outcome TetrahedralMesh :=
  cell <- at_ Arr_tetrahedrons (tetrahedrons_ mesh) i ;;
  let '(quad i0 i1 i2 i3) := indices_ cell in
  p0 <- at_ Arr_vertices (vertices_ mesh) i0 ;;
  p1 <- at_ Arr_vertices (vertices_ mesh) i1 ;;
  p2 <- at_ Arr_vertices (vertices_ mesh) i2 ;;
  p3 <- at_ Arr_vertices (vertices_ mesh) i3 ;;
  let u1 := v3_sub p1 p0 in
  let u2 := v3_sub p2 p0 in
  let u3 := v3_sub p3 p0 in
  m <- Inverse (mat3 (x_ u1) (x_ u2) (x_ u3)
                     (y_ u1) (y_ u2) (y_ u3)
                     (z_ u1) (z_ u2) (z_ u3)) ;;
  cells <- put Arr_tetrahedrons (tetrahedrons_ mesh) i
               (mkTet (indices_ cell) (neighbors_ cell) m) ;;
  let mesh := set_tetrahedrons mesh cells in
  if asserts then
    w0 <- GetInnerBarycentricCoords mesh i p0 ;;
    _ <- assert asserts BasisRoundTrip (Equals tolerance w0 (vec4 1 0 0 0)) ;;
    w1 <- GetInnerBarycentricCoords mesh i p1 ;;
    _ <- assert asserts BasisRoundTrip (Equals tolerance w1 (vec4 0 1 0 0)) ;;
    w2 <- GetInnerBarycentricCoords mesh i p2 ;;
    _ <- assert asserts BasisRoundTrip (Equals tolerance w2 (vec4 0 0 1 0)) ;;
    w3 <- GetInnerBarycentricCoords mesh i p3 ;;
    _ <- assert asserts BasisRoundTrip (Equals tolerance w3 (vec4 0 0 0 1)) ;;
    Done mesh
  else Done mesh.

(** Lines 284-340: the cells that touch the super-mesh are culled, the
    others renumbered, and the 8 corners dropped. *)
Definition cull_and_renumber (b : Build) : Outcome TetrahedralMesh :=
  let mesh := b_mesh b in
  '(cells, flags) <-
    for_loop (length (tetrahedrons_ mesh)) 0 cull_cell
             (tetrahedrons_ mesh, badFlags b) ;;
  '(newIndices, out) <-
    for_loop (length cells) 0 (renumber_cell cells flags) ([], []) ;;
  out <- map_outcome
           (fun cell => for_loop 4 0 (remap_neighbor newIndices) cell) out ;;
  vertices <- (if (size (vertices_ mesh) <? 8)%N
               then Fail (OutOfBounds Arr_vertices 8)
               else Done (skipn 8 (vertices_ mesh))) ;;
  let out := map (fun cell => mkTet (qmap sub8 (indices_ cell))
                                    (neighbors_ cell) (matrix_ cell)) out in
  Done (mkMesh vertices out (hullNormals_ mesh)).

(** Lines 342-359: the inverse bases and the final check. *)
Definition finish (mesh : TetrahedralMesh) : Outcome TetrahedralMesh :=
  mesh <- for_loop (length (tetrahedrons_ mesh)) 0 set_matrix mesh ;;
  if asserts then
    valid <- IsTetrahedralMeshAdjacencyValid mesh ;;
    _ <- assert asserts AdjacencyInvalid valid ;;
    Done mesh
  else Done mesh.

(** Lines 284-359: what follows the last insertion. *)
Definition post_pass (b : Build) : Outcome TetrahedralMesh :=
  mesh <- cull_and_renumber b ;;
  finish mesh.

(** The loop over the positions, lines 175-282. *)
Definition insert_all (mesh : TetrahedralMesh) (positions : list Vector3)
  : Outcome (Flow Build) :=
  b <- init_build mesh ;;
  for_each positions insert_point b.

(** [AddTetrahedralMeshVertices]: the mesh as the function leaves it. *)
Definition AddTetrahedralMeshVertices (mesh : TetrahedralMesh)
  (positions : list Vector3) : Outcome TetrahedralMesh :=
  r <- insert_all mesh positions ;;
  match r with
  | Return b => Done (b_mesh b)
  | Next b => post_pass b
  end.

(** [TetrahedralMesh::Define] *)
Definition Define (mesh : TetrahedralMesh) (positions : list Vector3)
  (padding : Q) : Outcome TetrahedralMesh :=
  let boundingBox := BoundingBox_of positions in
  let boundingBox :=
    mkBox (v3_sub (min_ boundingBox) (v3_scale padding v3_ONE))
          (v3_add (max_ boundingBox) (v3_scale padding v3_ONE)) in
  let mesh := InitializeSuperMesh mesh boundingBox in
  AddTetrahedralMeshVertices mesh positions.
End Builder.

(** The mesh before [Define], [TetrahedralMesh{}]. *)
Definition Mesh_empty : TetrahedralMesh := mkMesh [] [] [].

(* ================================================================== *)
(** ** Hull normals *)

Definition v3_neg (a : Vector3) : Vector3 := vec3 (- x_ a) (- y_ a) (- z_ a).

(** [normal != Vector3::ZERO], component by component. *)
Definition v3_eqb (a b : Vector3) : bool :=
  Qeq_bool (x_ a) (x_ b) && Qeq_bool (y_ a) (y_ b) && Qeq_bool (z_ a) (z_ b).

(** [ea::vector::resize(n)]: the first [n] elements are kept, the new ones
    are value-initialised. *)
Definition resize {A} (l : list A) (n : nat) (d : A) : list A :=
  firstn n l ++ repeat d (n - length l).

(** Lines 372-381: the vertex of the cell opposite face [i] and the three
    vertices of the face, in their order in the cell. *)
Definition hull_face (cell : Tetrahedron) (i : N) : Outcome (N * Triple N) :=
  let '(quad i0 i1 i2 i3) := indices_ cell in
  match i with
  | 0%N => Done (i0, triple i1 i2 i3)
  | 1%N => Done (i1, triple i0 i2 i3)
  | 2%N => Done (i2, triple i0 i1 i3)
  | 3%N => Done (i3, triple i0 i1 i2)
  | _ => Fail (OutOfBounds Arr_indices i)
  end.

(** Lines 387-389: the cross product of two edges of the face, turned to
    the side of the face that the cell is not on. *)
Definition hull_normal (p0 p1 p2 p3 : Vector3) : Vector3 :=
  let orientation := v3_sub p1 p0 in
  let cross := CrossProduct (v3_sub p2 p1) (v3_sub p3 p1) in
  if Qle_bool 0 (DotProduct cross orientation) then cross else v3_neg cross.

(** [mesh.hullNormals_[v] += normal]. The array has the size of the
    vertices, so an index out of its range is reported against them. *)
Definition add_normal (normal : Vector3) (v : N) (normals : list Vector3)
  : Outcome (list Vector3) :=
  old <- at_ Arr_vertices normals v ;;
  put Arr_vertices normals v (v3_add old normal).

(** Lines 367-392: face [i] of a cell. *)
Definition add_hull_face (vertices : list Vector3) (cell : Tetrahedron)
  (i : N) (normals : list Vector3) : Outcome (list Vector3) :=
  neighbor <- qat Arr_neighbors (neighbors_ cell) i ;;
  if negb (neighbor =? M_MAX_UNSIGNED)%N then Done normals
  else
    '(baseIndex, triangle) <- hull_face cell i ;;
    p0 <- at_ Arr_vertices vertices baseIndex ;;
    p1 <- at_ Arr_vertices vertices (tnth triangle 0) ;;
    p2 <- at_ Arr_vertices vertices (tnth triangle 1) ;;
    p3 <- at_ Arr_vertices vertices (tnth triangle 2) ;;
    let normal := hull_normal p0 p1 p2 p3 in
    for_loop 3 0 (fun j normals => add_normal normal (tnth triangle j) normals)
             normals.

(** Lines 365-393: the loop over the cells. *)
Fixpoint add_hull_faces (vertices : list Vector3) (cells : list Tetrahedron)
  (normals : list Vector3) : Outcome (list Vector3) :=
  match cells with
  | [] => Done normals
  | cell :: rest =>
      normals <- for_loop 4 0 (add_hull_face vertices cell) normals ;;
      add_hull_faces vertices rest normals
  end.

Section HullNormals.
(** [Vector3::Normalize] is not part of the sources; it is left open. *)
Variable Normalize : Vector3 -> Vector3.

(** [GenerateHullNormals] *)
Definition GenerateHullNormals (mesh : TetrahedralMesh)
  : Outcome TetrahedralMesh :=
  let normals :=
    resize (hullNormals_ mesh) (length (vertices_ mesh)) v3_ZERO in
  normals <- add_hull_faces (vertices_ mesh) (tetrahedrons_ mesh) normals ;;
  Done (mkMesh (vertices_ mesh) (tetrahedrons_ mesh)
          (map (fun normal =>
                  if negb (v3_eqb normal v3_ZERO) then Normalize normal
                  else normal)
               normals)).
End HullNormals.

(* ================================================================== *)
(** ** Compiling the light probes *)

(** [GlobalIllumination::ResetLightProbes]: the collection is cleared and
    the mesh replaced by an empty one. *)
Definition ResetLightProbes {T : Type} (gi : GlobalIllumination T)
  : GlobalIllumination T :=
  mkGI (mkCollection []) Mesh_empty.

Section Compile.
Variable asserts : bool.
Variable sqrtQ : Q -> Q.
Variables M_EPSILON M_LARGE_EPSILON tolerance : Q.
(** The default value of the [padding] argument of [Define], which is
    declared in a header that is not part of the sources. *)
Variable padding : Q.
Variable Normalize : Vector3 -> Vector3.

(** [GlobalIllumination::CompileLightProbes]. [collected] is what
    [LightProbeGroup::CollectLightProbes] finds in the scene, the world
    position and the baked light of every probe. *)
Definition CompileLightProbes {T : Type} (collected : list (Vector3 * T))
  (gi : GlobalIllumination T) : Outcome (GlobalIllumination T) :=
  let gi := ResetLightProbes gi in
  match collected with
  | [] => Done gi
  | _ :: _ =>
      mesh <- Define asserts sqrtQ M_EPSILON M_LARGE_EPSILON tolerance
                (lightProbesMesh_ gi) (map fst collected) padding ;;
      mesh <- GenerateHullNormals Normalize mesh ;;
      Done (mkGI (mkCollection (map snd collected)) mesh)
  end.
End Compile.

(** Every vertex index of every cell is the index of a vertex. *)
Definition indices_in_range (mesh : TetrahedralMesh) : Prop :=
  forall cell v, In cell (tetrahedrons_ mesh) -> In v (qlist (indices_ cell)) ->
                 (v < size (vertices_ mesh))%N.

(* ================================================================== *)
(** ** Worked inputs *)

(** A square root for the worked inputs: the rational is reduced and its
    root taken to eight decimal places, rounded down. *)
Definition sqrt_approx (q : Q) : Q :=
  let r := Qred q in
  (Z.sqrt (Qnum r * Zpos (Qden r) * 10000000000000000) # (Qden r * 100000000)).

(** Values for the constants of the worked inputs. *)
Definition EPSILON_example : Q := 1 # 1000000.
Definition LARGE_EPSILON_example : Q := 5 # 100000.
Definition tolerance_example : Q := 1 # 10000.

Definition Define_example (asserts : bool) (positions : list Vector3)
  (padding : Q) : Outcome TetrahedralMesh :=
  Define asserts sqrt_approx EPSILON_example LARGE_EPSILON_example
         tolerance_example Mesh_empty positions padding.

Definition mesh_of (o : Outcome TetrahedralMesh) : TetrahedralMesh :=
  match o with
  | Done m => m
  | Fail _ => Mesh_empty
  end.

(** Eight probes whose mesh has twelve cells. *)
Definition eight_probes : list Vector3 :=
  [ vec3 1 4 3; vec3 4 0 2; vec3 2 1 2; vec3 2 1 3;
    vec3 4 2 4; vec3 1 0 0; vec3 4 1 1; vec3 2 2 1 ].

Definition eight_probes_mesh : TetrahedralMesh :=
  Eval vm_compute in mesh_of (Define_example true eight_probes 2).

(** One baked value per probe: probe [i] carries [i + 1]. *)
Definition eight_probes_gi : GlobalIllumination Q :=
  mkGI (mkCollection [1; 2; 3; 4; 5; 6; 7; 8]) eight_probes_mesh.

(** The mesh of a single probe. *)
Definition one_probe_mesh : TetrahedralMesh :=
  Eval vm_compute in mesh_of (Define_example true [vec3 0 0 0] 1).

Definition one_probe_gi : GlobalIllumination Q :=
  mkGI (mkCollection [1]) one_probe_mesh.

(** The rule of the specification for the face to step through: the most
    negative coordinate, the lowest index winning ties. *)
Definition lowest_index_minimum (w : Vector4) : N :=
  if Qle_bool (wx w) (wy w) && Qle_bool (wx w) (wz w) && Qle_bool (wx w) (ww w)
  then 0%N
  else if Qle_bool (wy w) (wz w) && Qle_bool (wy w) (ww w) then 1%N
  else if Qle_bool (wz w) (ww w) then 2%N
  else 3%N.

(** ** Definitions used to state the properties *)

(** The super-mesh [Define] starts from. *)
Definition super_of (positions : list Vector3) (padding : Q) : TetrahedralMesh :=
  let boundingBox := BoundingBox_of positions in
  InitializeSuperMesh Mesh_empty
    (mkBox (v3_sub (min_ boundingBox) (v3_scale padding v3_ONE))
           (v3_add (max_ boundingBox) (v3_scale padding v3_ONE))).

Definition insert_all_example (positions : list Vector3) (padding : Q)
  : Outcome (Flow Build) :=
  insert_all true sqrt_approx EPSILON_example LARGE_EPSILON_example
             (super_of positions padding) positions.

Definition build_of (o : Outcome (Flow Build)) : Build :=
  match o with
  | Done (Next b) => b
  | _ => mkBuild Mesh_empty [] []
  end.

(** Five positions, the last one a second copy of the third. *)
Definition duplicate_points : list Vector3 :=
  [ vec3 3 3 3; vec3 1 3 3; vec3 1 1 1; vec3 1 2 0; vec3 1 1 1 ].

(** The state of the builder after the five insertions. *)
Definition duplicate_build : Build :=
  Eval vm_compute in build_of (insert_all_example duplicate_points 1).

(** The mesh built from [duplicate_points]. *)
Definition duplicate_mesh : TetrahedralMesh :=
  Eval vm_compute in mesh_of (Define_example true duplicate_points 1).

(** The state of the builder after the insertion of a single point. *)
Definition one_probe_build : Build :=
  Eval vm_compute in build_of (insert_all_example [vec3 0 0 0] 1).

(** The post-pass in the words of the specification. A cell is removed
    when it was left flagged bad or references one of the vertex slots 0..7. *)
Definition removed_flags (cells : list Tetrahedron) (flags : list bool)
  : list bool :=
  map (fun cf => snd cf || touches_super (fst cf)) (combine cells flags).

(** The cells that stay, in their order. *)
Fixpoint survivors (cells : list Tetrahedron) (removed : list bool)
  : list Tetrahedron :=
  match cells, removed with
  | c :: cells', r :: removed' =>
      if r then survivors cells' removed' else c :: survivors cells' removed'
  | _, _ => []
  end.

(** The new index of every cell: the cells that stay are numbered from
    [next] on without a gap, the others get the null sentinel. *)
Fixpoint ranks (removed : list bool) (next : N) : list N :=
  match removed with
  | [] => []
  | r :: removed' =>
      if r then M_MAX_UNSIGNED :: ranks removed' next
      else next :: ranks removed' (next + 1)%N
  end.

(** A neighbour reference after the pass: none stays none, a removed cell
    becomes none, a cell that stays is given by its new index. *)
Definition remapped (newIndices : list N) (n : N) : N :=
  if (n =? M_MAX_UNSIGNED)%N then M_MAX_UNSIGNED
  else match get newIndices n with
       | Some r => r
       | None => M_MAX_UNSIGNED
       end.

Definition culled_mesh (b : Build) : TetrahedralMesh :=
  let cells := tetrahedrons_ (b_mesh b) in
  let removed := removed_flags cells (badFlags b) in
  let newIndices := ranks removed 0 in
  mkMesh (skipn 8 (vertices_ (b_mesh b)))
         (map (fun c => mkTet (qmap sub8 (indices_ c))
                              (qmap (remapped newIndices) (neighbors_ c))
                              (matrix_ c))
              (survivors cells removed))
         (hullNormals_ (b_mesh b)).

(** Whether cell [i] is removed by the post-pass. *)
Definition removedb (removed : list bool) (i : N) : bool :=
  match get removed i with
  | Some r => r
  | None => false
  end.

(** A neighbour reference [v] that is the original [o], or was cleared
    because [o] is removed. *)
Definition cleared (removed : list bool) (o v : N) : Prop :=
  v = o \/ (v = M_MAX_UNSIGNED /\ removedb removed o = true).

Definition quad_rel {A B} (R : A -> B -> Prop) (q1 : Quad A) (q2 : Quad B)
  : Prop :=
  let '(quad a0 a1 a2 a3) := q1 in
  let '(quad b0 b1 b2 b3) := q2 in
  R a0 b0 /\ R a1 b1 /\ R a2 b2 /\ R a3 b3.

Definition quad_all {A} (P : A -> Prop) (q : Quad A) : Prop :=
  let '(quad a0 a1 a2 a3) := q in P a0 /\ P a1 /\ P a2 /\ P a3.

(** A cell during the cull loop, against the cell before it. *)
Definition cell_rel (removed : list bool) (co ck : Tetrahedron) : Prop :=
  indices_ ck = indices_ co /\ matrix_ ck = matrix_ co /\
  quad_rel (cleared removed) (neighbors_ co) (neighbors_ ck).

(** Every neighbour reference is the null sentinel or the index of a cell. *)
Definition neighbors_in_range (cells : list Tetrahedron) : Prop :=
  Forall (fun c => quad_all (fun n => n = M_MAX_UNSIGNED \/ (n < size cells)%N)
                            (neighbors_ c)) cells.

(** The same as a check. *)
Definition neighbors_in_rangeb (cells : list Tetrahedron) : bool :=
  forallb (fun c => forallb (fun n => (n =? M_MAX_UNSIGNED)%N || (n <? size cells)%N)
                            (qlist (neighbors_ c))) cells.

(** The vertex positions of a cell. *)
Definition cell_points (mesh : TetrahedralMesh) (cell : Tetrahedron)
  : option (Vector3 * Vector3 * Vector3 * Vector3) :=
  let '(quad i0 i1 i2 i3) := indices_ cell in
  match get (vertices_ mesh) i0, get (vertices_ mesh) i1,
        get (vertices_ mesh) i2, get (vertices_ mesh) i3 with
  | Some p0, Some p1, Some p2, Some p3 => Some (p0, p1, p2, p3)
  | _, _, _, _ => None
  end.

(** The barycentric coordinates of cell [i] at its own four vertices are
    the four unit vectors. *)
Definition basis_round_trip (mesh : TetrahedralMesh) (i : N) : Prop :=
  exists cell p0 p1 p2 p3 w0 w1 w2 w3,
    get (tetrahedrons_ mesh) i = Some cell /\
    cell_points mesh cell = Some (p0, p1, p2, p3) /\
    GetInnerBarycentricCoords mesh i p0 = Done w0 /\ v4_eq w0 (vec4 1 0 0 0) /\
    GetInnerBarycentricCoords mesh i p1 = Done w1 /\ v4_eq w1 (vec4 0 1 0 0) /\
    GetInnerBarycentricCoords mesh i p2 = Done w2 /\ v4_eq w2 (vec4 0 0 1 0) /\
    GetInnerBarycentricCoords mesh i p3 = Done w3 /\ v4_eq w3 (vec4 0 0 0 1).

(** The basis matrix of a cell, columns [p1 - p0], [p2 - p0], [p3 - p0]. *)
Definition basis_matrix (p0 p1 p2 p3 : Vector3) : Matrix3 :=
  let u1 := v3_sub p1 p0 in
  let u2 := v3_sub p2 p0 in
  let u3 := v3_sub p3 p0 in
  mat3 (x_ u1) (x_ u2) (x_ u3) (y_ u1) (y_ u2) (y_ u3) (z_ u1) (z_ u2) (z_ u3).

(** The barycentric coordinates of [position] in the basis [m] at [p0]. *)
Definition coords_in (m : Matrix3) (p0 position : Vector3) : Vector4 :=
  let coords := mat_mul_vec m (v3_sub position p0) in
  vec4 (1 - x_ coords - y_ coords - z_ coords) (x_ coords) (y_ coords) (z_ coords).

(** Whether the circumsphere of cell [i] contains [position], when the
    cell has a circumsphere. *)
Definition bad_test (b : Build) (position : Vector3) (i : N) : option bool :=
  match get (circumspheres b) i with
  | Some s => Some (contains s position)
  | None => None
  end.

(** Two states of the builder with the same cells and flags, whatever
    their geometry. *)
Definition same_topology (b b' : Build) : Prop :=
  tetrahedrons_ (b_mesh b) = tetrahedrons_ (b_mesh b') /\
  badFlags b = badFlags b' /\
  length (circumspheres b) = length (circumspheres b').

(** The circumsphere of the cell to build on a hole face can be computed. *)
Definition face_sphere_ok (asserts : bool) (sqrtQ : Q -> Q)
  (M_EPSILON M_LARGE_EPSILON : Q) (vertices : list Vector3) (newIndex : N)
  (face : TetrahedralMeshSurfaceTriangle) : Prop :=
  exists p0 p1 p2 p3 s,
    get vertices (tnth (tri_indices_ face) 0) = Some p0 /\
    get vertices (tnth (tri_indices_ face) 1) = Some p1 /\
    get vertices (tnth (tri_indices_ face) 2) = Some p2 /\
    get vertices newIndex = Some p3 /\
    circumsphere_of_points asserts sqrtQ M_EPSILON M_LARGE_EPSILON p0 p1 p2 p3
      = Done s.


(** The super-mesh of the box from [(-1,-1,-1)] to [(1,1,1)]. *)
Definition unit_super_mesh : TetrahedralMesh :=
  Eval vm_compute in
    InitializeSuperMesh Mesh_empty (mkBox (vec3 (-1) (-1) (-1)) (vec3 1 1 1)).

(** The numerator of the circumcentre offset. *)
Definition circum_num (u1 u2 u3 : Vector3) : Vector3 :=
  v3_add (v3_add (v3_scale (LengthSquared u1) (CrossProduct u2 u3))
                 (v3_scale (LengthSquared u2) (CrossProduct u3 u1)))
         (v3_scale (LengthSquared u3) (CrossProduct u1 u2)).

(** The box [Define] gives to [InitializeSuperMesh] for the single position
    [p]. *)
Definition single_box (p : Vector3) (padding : Q) : BoundingBox :=
  mkBox (v3_sub p (v3_scale padding v3_ONE)) (v3_add p (v3_scale padding v3_ONE)).

(** The state of the builder before the first insertion into the
    super-mesh of the worked inputs. *)
Definition super_build : Build :=
  Eval vm_compute in
    match init_build true sqrt_approx EPSILON_example LARGE_EPSILON_example
            unit_super_mesh with
    | Done b => b
    | Fail _ => mkBuild Mesh_empty [] []
    end.

(** Cell [i] lists only neighbours that exist and that list [i] among their
    own neighbours. *)
Definition lists_back (cells : list Tetrahedron) (i : N) (cell : Tetrahedron)
  : Prop :=
  forall n, In n (qlist (neighbors_ cell)) ->
    n = M_MAX_UNSIGNED \/
    exists neighborCell,
      get cells n = Some neighborCell /\ In i (qlist (neighbors_ neighborCell)).

(** The two local arrays of the builder run parallel to the cells. *)
Definition parallel_arrays (b : Build) : Prop :=
  length (circumspheres b) = length (tetrahedrons_ (b_mesh b)) /\
  length (badFlags b) = length (tetrahedrons_ (b_mesh b)).

(** The state the loop over the positions ends in, on either exit. *)
Definition flow_state {St : Type} (r : Flow St) : St :=
  match r with
  | Next s => s
  | Return s => s
  end.

(** Cell [i] is a candidate for the scan: it is not flagged and its
    circumsphere contains the position. *)
Definition bad_candidate (b : Build) (position : Vector3) (i : N) : Prop :=
  get (badFlags b) i = Some false /\
  exists sphere, get (circumspheres b) i = Some sphere /\
                 contains sphere position = true.

(** Cell [i] is passed over by the scan: it is flagged, or its circumsphere
    does not contain the position. *)
Definition passed_over (b : Build) (position : Vector3) (i : N) : Prop :=
  get (badFlags b) i = Some true \/
  (get (badFlags b) i = Some false /\
   exists sphere, get (circumspheres b) i = Some sphere /\
                  contains sphere position = false).

(** What the sampler returns for the position [(5/2, 1, 2)] from cell 0 of
    the mesh of [eight_probes]. *)
Definition located_example : Vector4 * N :=
  Eval vm_compute in
    match SampleLightProbeMesh eight_probes_gi (vec4 0 0 0 0) (vec3 (5 # 2) 1 2) 0 with
    | Done r => r
    | Fail _ => (vec4 0 0 0 0, 0%N)
    end.

(** Vertex [v] lies on a face of the cell that has no neighbour. *)
Definition on_hull_face (cell : Tetrahedron) (v : N) : Prop :=
  exists i base tri,
    qget (neighbors_ cell) i = Some M_MAX_UNSIGNED /\
    hull_face cell i = Done (base, tri) /\ In v (tlist tri).

(* ================================================================== *)
(** Lines 266-277, the part of [make_cell] before the circumsphere of the
    new cell is computed: the slot of the new cell, the cells with the new
    cell written and linked to its outer neighbour, and the flags. *)
Definition make_cell_links (cells : list N) (surface : TetrahedralMeshSurface)
  (newIndex : N) (i : N) (b : Build)
  : Outcome (N * list Tetrahedron * list bool) :=
  newCellIndex <- at_ Arr_badCells cells i ;;
  tetrahedron <- at_ Arr_tetrahedrons (tetrahedrons_ (b_mesh b)) newCellIndex ;;
  face <- at_ Arr_faces (faces_ surface) i ;;
  let '(triple f0 f1 f2) := tri_indices_ face in
  let '(triple g0 g1 g2) := tri_neighbors_ face in
  n0 <- at_ Arr_badCells cells g0 ;;
  n1 <- at_ Arr_badCells cells g1 ;;
  n2 <- at_ Arr_badCells cells g2 ;;
  let tetrahedron' :=
    mkTet (quad f0 f1 f2 newIndex) (quad n0 n1 n2 (tetIndex_ face))
          (matrix_ tetrahedron) in
  cells1 <- put Arr_tetrahedrons (tetrahedrons_ (b_mesh b)) newCellIndex
                tetrahedron' ;;
  cells2 <-
    (if (tetIndex_ face =? M_MAX_UNSIGNED)%N then Done cells1
     else
       outer <- at_ Arr_tetrahedrons cells1 (tetIndex_ face) ;;
       nb <- qput Arr_neighbors (neighbors_ outer) (tetFace_ face) newCellIndex ;;
       put Arr_tetrahedrons cells1 (tetIndex_ face)
           (mkTet (indices_ outer) nb (matrix_ outer))) ;;
  flags <- put Arr_badFlags (badFlags b) newCellIndex false ;;
  Done (newCellIndex, cells2, flags).


(** The number of cells that are flagged bad. *)
Definition bad_count (flags : list bool) : nat :=
  length (filter (fun flag => flag) flags).

(** The outcome is not the fault of the bound on the breadth-first loop. *)
Definition within_fuel {A} (o : Outcome A) : Prop := o <> Fail FuelExhausted.

(** The second insertion of [duplicate_points], of the point [(1,3,3)]
    into the mesh of the point [(3,3,3)]: the search with its hole of 14
    faces, the cell array grown for them, and the state after the cells of
    the faces 0..5 and of the faces 0..6 are made. *)
Definition two_points_start : Build :=
  Eval vm_compute in
    push_vertex
      (build_of (insert_all true sqrt_approx EPSILON_example
                   LARGE_EPSILON_example (super_of duplicate_points 1)
                   [vec3 3 3 3]))
      (vec3 1 3 3).

(** The first bad cell is cell 0. *)
Definition two_points_flags : list bool :=
  Eval vm_compute in
    match set (badFlags two_points_start) 0 true with
    | Some flags => flags
    | None => []
    end.

Definition two_points_hole : Search :=
  Eval vm_compute in
    match breadth_search (S (length two_points_flags)) two_points_start
            (vec3 1 3 3) 0
            (mkSearch two_points_flags [0%N] [0%N] Surface_Clear)
    with
    | Done (Some s) => s
    | _ => mkSearch [] [] [] Surface_Clear
    end.

Definition two_points_grown : Build * list N :=
  Eval vm_compute in
    grow (N.to_nat (Surface_Size (holeSurface two_points_hole)
                    - size (badCells two_points_hole)))
         (mkBuild (b_mesh two_points_start) (circumspheres two_points_start)
                  (s_badFlags two_points_hole))
         (badCells two_points_hole).

Definition two_points_cells (n : nat) : Build :=
  match for_loop n 0
          (make_cell true sqrt_approx EPSILON_example LARGE_EPSILON_example
                     (snd two_points_grown) (holeSurface two_points_hole) 9)
          (fst two_points_grown)
  with
  | Done b => b
  | Fail _ => fst two_points_grown
  end.

Definition two_points_six_cells : Build :=
  Eval vm_compute in two_points_cells 6.

Definition two_points_seven_cells : Build :=
  Eval vm_compute in two_points_cells 7.

(* ================================================================== *)
(** * Properties *)

Unset Implicit Arguments.

(** ** Arrays *)

Lemma get_lt {A} (l : list A) : forall i x, get l i = Some x -> (i < size l)%N.
Proof.
  unfold size. induction l as [|a l IH]; intros i x H; simpl in *.
  - discriminate.
  - destruct (N.eqb_spec i 0) as [->|Hi]; [lia|].
    apply IH in H. lia.
Qed.

Lemma get_some {A} (l : list A) : forall i, (i < size l)%N -> exists x, get l i = Some x.
Proof.
  unfold size. induction l as [|a l IH]; intros i H; simpl in *.
  - lia.
  - destruct (N.eqb_spec i 0) as [->|Hi]; [eauto|].
    apply IH. lia.
Qed.

Lemma get_none {A} (l : list A) : forall i, (size l <= i)%N -> get l i = None.
Proof.
  intros i H. destruct (get l i) eqn:E; [|reflexivity].
  apply get_lt in E. lia.
Qed.

Lemma get_nil {A} (i : N) : get (@nil A) i = None.
Proof. reflexivity. Qed.

Lemma at_done {A} a (l : list A) i x : at_ a l i = Done x <-> get l i = Some x.
Proof.
  unfold at_. destruct (get l i); split; intro H; inversion H; reflexivity.
Qed.

Lemma at_out_of_bounds {A} a (l : list A) i :
  (size l <= i)%N -> at_ a l i = Fail (OutOfBounds a i).
Proof. intro H. unfold at_. now rewrite get_none. Qed.

(** ** Comparisons of rationals *)

Lemma Qltb_lt a b : Qltb a b = true <-> a < b.
Proof.
  unfold Qltb. rewrite negb_true_iff. split; intro H.
  - apply Qnot_le_lt. intro C. apply Qle_bool_iff in C. congruence.
  - destruct (Qle_bool b a) eqn:E; [|reflexivity].
    apply Qle_bool_iff in E. exfalso. exact (Qlt_not_le _ _ H E).
Qed.

Lemma Qltb_ge a b : Qltb a b = false <-> b <= a.
Proof.
  unfold Qltb. rewrite negb_false_iff. apply Qle_bool_iff.
Qed.


Lemma Qgeb_lt a b : Qgeb a b = false <-> a < b.
Proof.
  unfold Qgeb. split; intro H.
  - apply Qnot_le_lt. intro C. apply Qle_bool_iff in C. congruence.
  - destruct (Qle_bool b a) eqn:E; [|reflexivity].
    apply Qle_bool_iff in E. exfalso. exact (Qlt_not_le _ _ H E).
Qed.

(** ** The step rule of the walk *)

Ltac split_compare :=
  repeat match goal with
  | |- context [Qltb ?a ?b] =>
      let E := fresh "E" in
      destruct (Qltb a b) eqn:E;
      [apply Qltb_lt in E | apply Qltb_ge in E]
  end.

(** The face the walk steps through carries a minimal coordinate ... *)
Lemma step_face_minimal (w : Vector4) (j : N) :
  w_at w (step_face w) <= w_at w j.
Proof.
  unfold step_face. destruct w as [x y z t]; simpl.
  split_compare; simpl;
    destruct j as [|[[|[]|]|[|[]|]|]]; simpl; lra.
Qed.

(** ... and every coordinate after it is strictly larger: among equal
    minima the last one is taken. *)
Lemma step_face_last (w : Vector4) (j : N) :
  (step_face w < j)%N -> (j < 4)%N -> w_at w (step_face w) < w_at w j.
Proof.
  unfold step_face. destruct w as [x y z t]; simpl.
  split_compare; simpl; intros H1 H2;
    destruct j as [|[[|[]|]|[|[]|]|]]; simpl; try lia; lra.
Qed.

Lemma step_face_range (w : Vector4) : (step_face w < 4)%N.
Proof.
  unfold step_face.
  repeat match goal with |- context [if ?c then _ else _] => destruct c end; lia.
Qed.

Lemma qget_some {A} (q : Quad A) (i : N) :
  (i < 4)%N -> exists x, qget q i = Some x.
Proof.
  destruct q. intro H.
  destruct i as [|[[|[]|]|[|[]|]|]]; simpl; try lia; eauto.
Qed.

(** C4, as the specification has it, fails on the code: for the weights
    [(-1, -1, 0, 0)] coordinates 0 and 1 are both the most negative, and the
    chain of strict comparisons steps through face 1, not face 0. *)
Lemma step_face_not_lowest_index :
  ~ (forall w : Vector4,
        all_nonnegative w = false -> step_face w = lowest_index_minimum w).
Proof.
  intro H. specialize (H (vec4 (-1) (-1) 0 0) eq_refl).
  vm_compute in H. discriminate.
Qed.

(** C4 (amended): on every step of the walk where the weights [w] at the
    current cell are not all non-negative, the walk goes to the neighbour
    across face [step_face w]: that coordinate is a most negative one, and
    among equally negative coordinates the one with the highest index; the
    walk stops off the hull when that neighbour is the null sentinel and
    goes on from it otherwise. *)
Theorem walk_steps_through_last_minimum
  (mesh : TetrahedralMesh) (position : Vector3) (n : nat) (w0 : Vector4)
  (hint : N) (w : Vector4) :
  GetInnerBarycentricCoords mesh hint position = Done w ->
  all_nonnegative w = false ->
  exists cell next,
    get (tetrahedrons_ mesh) hint = Some cell /\
    qget (neighbors_ cell) (step_face w) = Some next /\
    (forall j, w_at w (step_face w) <= w_at w j) /\
    (forall j, (step_face w < j)%N -> (j < 4)%N ->
               w_at w (step_face w) < w_at w j) /\
    walk mesh position (S n) w0 hint =
      if (next =? M_MAX_UNSIGNED)%N then Done (OffHull, w, next)
      else walk mesh position n w next.
Proof.
  intros Hw Hneg.
  assert (Hcell : exists cell, get (tetrahedrons_ mesh) hint = Some cell).
  { unfold GetInnerBarycentricCoords, at_ in Hw.
    destruct (get (tetrahedrons_ mesh) hint); [eauto | discriminate]. }
  destruct Hcell as [cell Hcell].
  destruct (qget_some (neighbors_ cell) _ (step_face_range w)) as [next Hnext].
  exists cell, next. repeat split; auto.
  - apply step_face_minimal.
  - apply step_face_last.
  - simpl. rewrite Hw. simpl. rewrite Hneg.
    unfold at_ at 1. rewrite Hcell. simpl.
    unfold qat. rewrite Hnext. simpl. reflexivity.
Qed.

Lemma walk_steps_through_last_minimum_witness :
  exists cell next,
    get (tetrahedrons_ eight_probes_mesh) 2 = Some cell /\
    qget (neighbors_ cell)
         (step_face (vec4 (-5 # 16) (49 # 16) (-17 # 16) (-11 # 16))) = Some next /\
    next = 0%N.
Proof.
  assert (Hw : exists w, GetInnerBarycentricCoords eight_probes_mesh 2
                           (vec3 3 (3 # 4) 2) = Done w /\
                         all_nonnegative w = false /\
                         step_face w = 2%N).
  { eexists. split; [vm_compute; reflexivity | split; vm_compute; reflexivity]. }
  destruct Hw as [w [Hw [Hneg Hface]]].
  destruct (walk_steps_through_last_minimum eight_probes_mesh (vec3 3 (3 # 4) 2)
              0%nat (vec4 0 0 0 0) 2%N w Hw Hneg)
    as [cell [next [Hc [Hn _]]]].
  exists cell, next. rewrite Hface in Hn.
  repeat split; auto.
  vm_compute in Hc. inversion Hc; subst cell. vm_compute in Hn. congruence.
Defined.

(** ** The sampler: hint, failure and fallback *)

Lemma walk_first_lookup (mesh : TetrahedralMesh) (position : Vector3)
  (n : nat) (w0 : Vector4) (hint : N) :
  (size (tetrahedrons_ mesh) <= hint)%N ->
  walk mesh position (S n) w0 hint = Fail (OutOfBounds Arr_tetrahedrons hint).
Proof.
  intro H. simpl. unfold GetInnerBarycentricCoords.
  rewrite at_out_of_bounds by exact H. reflexivity.
Qed.

(** How the walk leaves its loop: located with weights that are all
    non-negative; off the hull with the hint at the null sentinel; or at the
    cap, with the hint at a cell the walk did not evaluate. In both failures
    the weights returned carry a negative entry (when the loop ran at all). *)
Lemma walk_exit (mesh : TetrahedralMesh) (position : Vector3) :
  forall n w0 hint e w h,
    walk mesh position n w0 hint = Done (e, w, h) ->
    match e with
    | Located => all_nonnegative w = true
    | OffHull => h = M_MAX_UNSIGNED /\ all_nonnegative w = false
    | CapReached => n <> O -> all_nonnegative w = false /\ h <> M_MAX_UNSIGNED
    end.
Proof.
  induction n as [|n IH]; intros w0 hint e w h H.
  - simpl in H. inversion H; subst. intro C. congruence.
  - simpl in H.
    destruct (GetInnerBarycentricCoords mesh hint position) as [w1|] eqn:Ew;
      simpl in H; [|discriminate].
    destruct (all_nonnegative w1) eqn:Enn.
    + inversion H; subst. exact Enn.
    + destruct (at_ Arr_tetrahedrons (tetrahedrons_ mesh) hint) as [cell|];
        simpl in H; [|discriminate].
      destruct (qat Arr_neighbors (neighbors_ cell) (step_face w1)) as [nb|];
        simpl in H; [|discriminate].
      destruct (N.eqb_spec nb M_MAX_UNSIGNED) as [Hnb|Hnb].
      * inversion H; subst. split; [reflexivity | exact Enn].
      * specialize (IH _ _ _ _ _ H). destruct e; auto.
        intros _. destruct n as [|n'].
        -- simpl in H. inversion H; subst. split; [exact Enn | exact Hnb].
        -- apply IH. discriminate.
Qed.

Section SamplerFacts.
Context {T : Type} `{Payload T}.
Variable gi : GlobalIllumination T.
Variable weights0 : Vector4.

(** Off the hull the sampler falls back to the zero payload. *)
Lemma off_hull_falls_back (position : Vector3) (hint : N) (w : Vector4) (h : N) :
  (size (tetrahedrons_ (lightProbesMesh_ gi)) <= M_MAX_UNSIGNED)%N ->
  locate gi weights0 position hint = Done (OffHull, w, h) ->
  SampleAmbientSH gi weights0 position hint = Done (pl_zero, M_MAX_UNSIGNED).
Proof.
  intros Hsize Hloc.
  pose proof (walk_exit _ _ _ _ _ _ _ _ Hloc) as [-> _].
  unfold SampleAmbientSH, SampleLightProbeMesh. rewrite Hloc. simpl.
  apply N.leb_le in Hsize. rewrite Hsize. reflexivity.
Qed.
End SamplerFacts.

(** C10: the sampler checks the hint against the number of light probes
    only: a hint at or above that number is reset to 0, any other is kept,
    whatever the number of cells. The first cell lookup of the walk is in
    bounds when the hint it starts from is below the number of cells, and
    is out of bounds otherwise; for a mesh with a probe and no cell, and a
    hint that is 0 (as given or after the reset), the lookup at cell 0 is
    out of bounds. *)
Theorem hint_checked_against_probes_only
  (T : Type) (P : Payload T) (gi : GlobalIllumination T)
  (weights0 : Vector4) (position : Vector3) (hint : N) :
  (0 < probeCount gi)%N ->
  let start := reset_hint gi hint in
  let cells := tetrahedrons_ (lightProbesMesh_ gi) in
  start = (if (probeCount gi <=? hint)%N then 0%N else hint) /\
  ((start < size cells)%N -> exists cell, get cells start = Some cell) /\
  ((size cells <= start)%N ->
     SampleLightProbeMesh gi weights0 position hint
       = Fail (OutOfBounds Arr_tetrahedrons start)) /\
  (cells = [] -> (hint = 0%N \/ (probeCount gi <= hint)%N) ->
     SampleLightProbeMesh gi weights0 position hint
       = Fail (OutOfBounds Arr_tetrahedrons 0)).
Proof.
  intros Hprobes start cells.
  assert (Hn : exists n, N.to_nat (probeCount gi) = S n).
  { destruct (N.to_nat (probeCount gi)) eqn:E; [lia | eauto]. }
  destruct Hn as [n Hn].
  assert (Hoob : (size cells <= start)%N ->
                 SampleLightProbeMesh gi weights0 position hint
                 = Fail (OutOfBounds Arr_tetrahedrons start)).
  { intro Hs. unfold SampleLightProbeMesh, locate. rewrite Hn.
    fold start. rewrite walk_first_lookup by exact Hs. reflexivity. }
  repeat split.
  - apply get_some.
  - exact Hoob.
  - intros Hnil Hhint.
    assert (Hstart : start = 0%N).
    { unfold start, reset_hint.
      destruct (N.leb_spec (probeCount gi) hint) as [_|Hlt]; [reflexivity|].
      destruct Hhint as [->|Hge]; [reflexivity | lia]. }
    rewrite <- Hstart. apply Hoob. rewrite Hnil. unfold size; simpl. lia.
Qed.

Lemma hint_checked_against_probes_only_witness :
  SampleLightProbeMesh one_probe_gi (vec4 0 0 0 0) (vec3 0 0 0) 7
  = Fail (OutOfBounds Arr_tetrahedrons 0).
Proof.
  assert (Hp : (0 < probeCount one_probe_gi)%N) by (vm_compute; reflexivity).
  destruct (hint_checked_against_probes_only Q Payload_Q one_probe_gi
              (vec4 0 0 0 0) (vec3 0 0 0) 7%N Hp) as [_ [_ [_ Hnil]]].
  apply Hnil.
  - reflexivity.
  - right. vm_compute. discriminate.
Defined.

(** C2 at a failing input: the mesh of [eight_probes] (padding 2) has twelve
    cells, and the walk from cell 2 to the position [(3, 3/4, 2)], which
    lies in cell 6, takes nine cells. Its eight iterations are used up at
    cell 4; the sampler returns the weights of cell 4, which carry a
    negative entry, with the hint at cell 6, and [SampleAmbientSH] blends
    the probes of cell 6 with the weights of cell 4 ([17/4]) where the
    claim has the zero payload. *)
Theorem capped_walk_is_blended (weights0 : Vector4) :
  Define_example true eight_probes 2 = Done eight_probes_mesh /\
  exists w sh,
    locate eight_probes_gi weights0 (vec3 3 (3 # 4) 2) 2
      = Done (CapReached, w, 6%N) /\
    v4_eq w (vec4 (3 # 16) (1 # 2) (-1 # 16) (3 # 8)) /\
    SampleAmbientSH eight_probes_gi weights0 (vec3 3 (3 # 4) 2) 2
      = Done (sh, 6%N) /\
    sh == 17 # 4 /\ ~ sh == pl_zero.
Proof.
  split; [vm_compute; reflexivity|].
  do 2 eexists.
  split; [vm_compute; reflexivity|].
  split; [repeat split; reflexivity|].
  split; [vm_compute; reflexivity|].
  split; [reflexivity | discriminate].
Qed.

(** ** The circumsphere *)

Lemma Qabs_nonneg (a : Q) : 0 <= Qabs_ a.
Proof.
  unfold Qabs_. destruct (Qltb a 0) eqn:E.
  - apply Qltb_lt in E. lra.
  - apply Qltb_ge in E. exact E.
Qed.

Lemma Qabs_zero (a : Q) : a == 0 -> Qabs_ a == 0.
Proof.
  intro H. unfold Qabs_. destruct (Qltb a 0); rewrite H; reflexivity.
Qed.

Lemma Qeq_bool_false (a b : Q) : ~ a == b -> Qeq_bool a b = false.
Proof.
  intro H. destruct (Qeq_bool a b) eqn:E; [|reflexivity].
  apply Qeq_bool_iff in E. contradiction.
Qed.

Lemma circumcentre_equidistant (u1 u2 u3 u : Vector3) :
  let den := 2 * DotProduct u1 (CrossProduct u2 u3) in
  let r0 := v3_div (circum_num u1 u2 u3) den in
  ~ den == 0 ->
  (u = u1 \/ u = u2 \/ u = u3) ->
  LengthSquared (v3_sub u r0) == LengthSquared r0.
Proof.
  intros den r0 Hden Hu.
  destruct u1 as [a1 b1 c1], u2 as [a2 b2 c2], u3 as [a3 b3 c3].
  unfold r0, den in *. clear r0 den.
  unfold LengthSquared, DotProduct, v3_sub, v3_div, circum_num, v3_add,
    v3_scale, CrossProduct, LengthSquared, DotProduct in *; simpl in *.
  destruct Hu as [ -> | [ -> | -> ] ]; simpl; field;
    intro C; apply Hden; rewrite C; reflexivity.
Qed.

Lemma LengthSquared_base (p0 r0 : Vector3) :
  LengthSquared (v3_sub p0 (v3_add p0 r0)) == LengthSquared r0.
Proof.
  destruct p0, r0. unfold LengthSquared, DotProduct, v3_sub, v3_add; simpl. ring.
Qed.

Lemma LengthSquared_shift (p p0 r0 : Vector3) :
  LengthSquared (v3_sub p (v3_add p0 r0))
  == LengthSquared (v3_sub (v3_sub p p0) r0).
Proof.
  destruct p, p0, r0. unfold LengthSquared, DotProduct, v3_sub, v3_add; simpl. ring.
Qed.

(** The circumsphere computation on four points whose denominator is
    beyond the epsilon. *)
Lemma circumsphere_of_points_spec
  (asserts : bool) (sqrtQ : Q -> Q) (M_EPSILON M_LARGE_EPSILON : Q)
  (p0 p1 p2 p3 : Vector3) :
  Proper (Qeq ==> Qeq) sqrtQ ->
  0 <= M_EPSILON -> 0 < M_LARGE_EPSILON ->
  let u1 := v3_sub p1 p0 in
  let u2 := v3_sub p2 p0 in
  let u3 := v3_sub p3 p0 in
  let den := 2 * DotProduct u1 (CrossProduct u2 u3) in
  M_EPSILON < Qabs_ den ->
  exists s,
    circumsphere_of_points asserts sqrtQ M_EPSILON M_LARGE_EPSILON p0 p1 p2 p3
      = Done s /\
    center_ s = v3_add p0 (v3_div (circum_num u1 u2 u3) den) /\
    let dist p := sqrtQ (LengthSquared (v3_sub p (center_ s))) in
    radius_ s
      == Qmax (Qmax (Qmax (dist p0) (dist p1)) (dist p2)) (dist p3)
         + M_LARGE_EPSILON /\
    (dist p0 < radius_ s /\ dist p1 < radius_ s /\
     dist p2 < radius_ s /\ dist p3 < radius_ s) /\
    (dist p1 == dist p0 /\ dist p2 == dist p0 /\ dist p3 == dist p0).
Proof.
  intros Hsqrt Heps Hleps u1 u2 u3 den Hden.
  assert (Hnz : ~ den == 0).
  { intro C. apply Qabs_zero in C. rewrite C in Hden. lra. }
  set (r0 := v3_div (circum_num u1 u2 u3) den).
  set (c := v3_add p0 r0).
  assert (Hrun : circumsphere_of_points asserts sqrtQ M_EPSILON
                   M_LARGE_EPSILON p0 p1 p2 p3
                 = Done (mkSphere c
                     (Qmax (Qmax (Qmax (sqrtQ (LengthSquared r0))
                                       (sqrtQ (LengthSquared (v3_sub p1 c))))
                                 (sqrtQ (LengthSquared (v3_sub p2 c))))
                           (sqrtQ (LengthSquared (v3_sub p3 c)))
                      + M_LARGE_EPSILON))).
  { unfold circumsphere_of_points.
    fold u1 u2 u3. fold den.
    apply Qltb_lt in Hden. rewrite Hden.
    unfold assert. replace (if asserts then Done tt else Done tt)
      with (Done tt) by (destruct asserts; reflexivity).
    simpl. rewrite (Qeq_bool_false _ _ Hnz). reflexivity. }
  eexists. split; [exact Hrun|]. simpl.
  split; [reflexivity|].
  fold r0. fold c.
  assert (Hd0 : sqrtQ (LengthSquared (v3_sub p0 c)) == sqrtQ (LengthSquared r0)).
  { apply Hsqrt. apply LengthSquared_base. }
  assert (Hd : forall p u, (u = u1 \/ u = u2 \/ u = u3) -> u = v3_sub p p0 ->
             sqrtQ (LengthSquared (v3_sub p c)) == sqrtQ (LengthSquared r0)).
  { intros p u Hu ->. apply Hsqrt. unfold c.
    rewrite LengthSquared_shift.
    apply (circumcentre_equidistant u1 u2 u3 _ Hnz Hu). }
  assert (Hd1 := Hd p1 u1 (or_introl eq_refl) eq_refl).
  assert (Hd2 := Hd p2 u2 (or_intror (or_introl eq_refl)) eq_refl).
  assert (Hd3 := Hd p3 u3 (or_intror (or_intror eq_refl)) eq_refl).
  split; [rewrite Hd0; reflexivity|].
  split.
  - rewrite Hd0, Hd1, Hd2, Hd3.
    rewrite !Q.max_id. repeat split; lra.
  - rewrite Hd0, Hd1, Hd2, Hd3. repeat split; reflexivity.
Qed.

(** C5: for a cell whose denominator [2 u1.(u2 x u3)] is beyond the epsilon,
    the circumsphere is computed (with or without assertions); its centre is
    [p0 + (|u1|^2 (u2 x u3) + |u2|^2 (u3 x u1) + |u3|^2 (u1 x u2)) / (2 u1.(u2 x u3))],
    which is at the same distance from the four vertices; and its radius is
    the largest of the distances from the centre to the four vertices plus
    [M_LARGE_EPSILON], hence larger than each of them. *)
Theorem circumsphere_formula
  (asserts : bool) (sqrtQ : Q -> Q) (M_EPSILON M_LARGE_EPSILON : Q)
  (mesh : TetrahedralMesh) (tetIndex : N) (cell : Tetrahedron)
  (i0 i1 i2 i3 : N) (p0 p1 p2 p3 : Vector3) :
  Proper (Qeq ==> Qeq) sqrtQ ->
  0 <= M_EPSILON -> 0 < M_LARGE_EPSILON ->
  get (tetrahedrons_ mesh) tetIndex = Some cell ->
  indices_ cell = quad i0 i1 i2 i3 ->
  get (vertices_ mesh) i0 = Some p0 -> get (vertices_ mesh) i1 = Some p1 ->
  get (vertices_ mesh) i2 = Some p2 -> get (vertices_ mesh) i3 = Some p3 ->
  let u1 := v3_sub p1 p0 in
  let u2 := v3_sub p2 p0 in
  let u3 := v3_sub p3 p0 in
  let den := 2 * DotProduct u1 (CrossProduct u2 u3) in
  M_EPSILON < Qabs_ den ->
  exists s,
    GetTetrahedronCircumsphere asserts sqrtQ M_EPSILON M_LARGE_EPSILON mesh tetIndex
      = Done s /\
    center_ s = v3_add p0 (v3_div (circum_num u1 u2 u3) den) /\
    let dist p := sqrtQ (LengthSquared (v3_sub p (center_ s))) in
    radius_ s
      == Qmax (Qmax (Qmax (dist p0) (dist p1)) (dist p2)) (dist p3)
         + M_LARGE_EPSILON /\
    (dist p0 < radius_ s /\ dist p1 < radius_ s /\
     dist p2 < radius_ s /\ dist p3 < radius_ s) /\
    (dist p1 == dist p0 /\ dist p2 == dist p0 /\ dist p3 == dist p0).
Proof.
  intros Hsqrt Heps Hleps Hcell Hidx H0 H1 H2 H3 u1 u2 u3 den Hden.
  destruct (circumsphere_of_points_spec asserts sqrtQ M_EPSILON M_LARGE_EPSILON
              p0 p1 p2 p3 Hsqrt Heps Hleps Hden) as [s [Hs Hrest]].
  exists s. split; [|exact Hrest].
  unfold GetTetrahedronCircumsphere, at_.
  rewrite Hcell. simpl. rewrite Hidx, H0, H1, H2, H3. simpl. exact Hs.
Qed.

Lemma sqrt_approx_proper : Proper (Qeq ==> Qeq) sqrt_approx.
Proof.
  intros a b Hab. unfold sqrt_approx.
  rewrite (Qred_complete _ _ Hab). reflexivity.
Qed.

Lemma circumsphere_formula_witness :
  exists s,
    GetTetrahedronCircumsphere true sqrt_approx EPSILON_example
      LARGE_EPSILON_example unit_super_mesh 0 = Done s /\
    v3_eq (center_ s) (vec3 0 0 0) /\
    sqrt_approx (LengthSquared (v3_sub (vec3 (-1) (-1) (-1)) (center_ s)))
      < radius_ s.
Proof.
  destruct (circumsphere_formula true sqrt_approx EPSILON_example
              LARGE_EPSILON_example unit_super_mesh 0
              (mkTet (quad 0 1 2 4)%N
                     (quad 4%N M_MAX_UNSIGNED M_MAX_UNSIGNED M_MAX_UNSIGNED)
                     mat_ZERO)
              0 1 2 4
              (vec3 (-1) (-1) (-1)) (vec3 1 (-1) (-1))
              (vec3 (-1) 1 (-1)) (vec3 (-1) (-1) 1)
              sqrt_approx_proper)
    as [s [Hs [Hc [_ [[Hd _] _]]]]];
    try reflexivity; try (vm_compute; reflexivity).
  - vm_compute. discriminate.
  - exists s. split; [exact Hs|]. split.
    + rewrite Hc. vm_compute. repeat split; reflexivity.
    + exact Hd.
Defined.

(** ** The outcome monad and the loops *)

Lemma bind_done {A B} (m : Outcome A) (k : A -> Outcome B) (b : B) :
  bind m k = Done b -> exists a, m = Done a /\ k a = Done b.
Proof. destruct m; simpl; intro H; [eauto | discriminate]. Qed.

(** Takes a hypothesis [x <- m ;; k = Done b] apart. *)
Ltac inv_bind H :=
  let a := fresh "a" in
  let Ha := fresh "Ha" in
  apply bind_done in H; destruct H as [a [Ha H]].

Ltac inv_done H := inversion H; subst; clear H.


Lemma for_loop_inv {S} (P : S -> Prop) (body : N -> S -> Outcome S) :
  (forall i s s', P s -> body i s = Done s' -> P s') ->
  forall n i s s', P s -> for_loop n i body s = Done s' -> P s'.
Proof.
  intros Hbody. induction n as [|n IH]; intros i s s' Hs H; simpl in H.
  - inv_done H. exact Hs.
  - inv_bind H. eapply IH; [|exact H]. eapply Hbody; eauto.
Qed.

(** The same, with the index in its range. *)
Lemma for_loop_inv_range {S} (P : S -> Prop) (body : N -> S -> Outcome S)
  (n : nat) (from : N) :
  (forall i s s', (from <= i < from + N.of_nat n)%N ->
                  P s -> body i s = Done s' -> P s') ->
  forall s s', P s -> for_loop n from body s = Done s' -> P s'.
Proof.
  revert from. induction n as [|n IH]; intros from Hbody s s' Hs H; simpl in H.
  - inv_done H. exact Hs.
  - inv_bind H. eapply (IH (from + 1)%N); [| |exact H].
    + intros i s1 s2 Hi. apply Hbody. lia.
    + eapply Hbody; [|exact Hs|exact Ha]. lia.
Qed.

Lemma for_each_app {A S} (body : A -> S -> Outcome (Flow S)) (l1 l2 : list A) (s : S) :
  for_each (l1 ++ l2) body s =
  (r <- for_each l1 body s ;;
   match r with
   | Next s' => for_each l2 body s'
   | Return s' => Done (Return s')
   end).
Proof.
  revert s. induction l1 as [|a l1 IH]; intro s; simpl.
  - reflexivity.
  - destruct (body a s) as [[s'|s']|f]; simpl; auto.
Qed.

(** ** Bounding box and super-mesh *)








(** ** The insertions append the positions, in their order *)

Lemma grow_vertices n : forall b cells b' cells',
  grow n b cells = (b', cells') ->
  vertices_ (b_mesh b') = vertices_ (b_mesh b).
Proof.
  induction n as [|n IH]; intros b cells b' cells' H; simpl in H.
  - inv_done H. reflexivity.
  - apply IH in H. exact H.
Qed.

Section BuilderVertices.
Variable asserts : bool.
Variable sqrtQ : Q -> Q.
Variables M_EPSILON M_LARGE_EPSILON tolerance : Q.

Lemma make_cell_vertices cells surface newIndex i b b' :
  make_cell asserts sqrtQ M_EPSILON M_LARGE_EPSILON cells surface newIndex i b
    = Done b' ->
  vertices_ (b_mesh b') = vertices_ (b_mesh b).
Proof.
  unfold make_cell. intro H.
  inv_bind H. inv_bind H. inv_bind H.
  destruct (tri_indices_ a1) as [f0 f1 f2].
  destruct (tri_neighbors_ a1) as [g0 g1 g2].
  repeat inv_bind H. inv_done H. reflexivity.
Qed.

Lemma insert_point_vertices position b r :
  insert_point asserts sqrtQ M_EPSILON M_LARGE_EPSILON position b = Done r ->
  let b' := match r with Next b' => b' | Return b' => b' end in
  vertices_ (b_mesh b') = vertices_ (b_mesh b) ++ [position].
Proof.
  unfold insert_point. intro H. inv_bind H.
  destruct a as [cellIndex|].
  - inv_bind H. inv_bind H. destruct a0 as [s|]; [|discriminate].
    destruct (negb (IsClosedSurface (holeSurface s))).
    + inv_bind H. inv_done H. reflexivity.
    + destruct (grow _ _ _) as [b1 cells] eqn:Eg.
      inv_bind H. inv_done H. simpl.
      apply grow_vertices in Eg. simpl in Eg. rewrite <- Eg.
      revert Ha2. apply for_loop_inv with (P := fun b2 =>
        vertices_ (b_mesh b2) = vertices_ (b_mesh b1)); [|reflexivity].
      intros i s0 s' Hs Hm. apply make_cell_vertices in Hm. congruence.
  - inv_bind H. inv_done H. reflexivity.
Qed.

Lemma for_each_insert_vertices positions : forall b r,
  for_each positions (insert_point asserts sqrtQ M_EPSILON M_LARGE_EPSILON) b
    = Done r ->
  match r with
  | Next b' => vertices_ (b_mesh b') = vertices_ (b_mesh b) ++ positions
  | Return b' =>
      exists done rest, positions = done ++ rest /\ done <> [] /\
        vertices_ (b_mesh b') = vertices_ (b_mesh b) ++ done
  end.
Proof.
  induction positions as [|p l IH]; intros b r H; simpl in H.
  - inv_done H. rewrite app_nil_r. reflexivity.
  - inv_bind H. pose proof (insert_point_vertices _ _ _ Ha) as Hv.
    destruct a as [b1|b1]; simpl in Hv.
    + apply IH in H. destruct r as [b'|b'].
      * rewrite H, Hv, <- app_assoc. reflexivity.
      * destruct H as [done [rest [-> [_ H]]]].
        exists (p :: done), rest. split; [reflexivity|].
        split; [discriminate|].
        rewrite H, Hv, <- app_assoc. reflexivity.
    + inv_done H. exists [p], l. split; [reflexivity|].
      split; [discriminate | exact Hv].
Qed.

Lemma init_build_mesh mesh b :
  init_build asserts sqrtQ M_EPSILON M_LARGE_EPSILON mesh = Done b ->
  b_mesh b = mesh.
Proof.
  unfold init_build. intro H. inv_bind H. destruct a. inv_done H. reflexivity.
Qed.
End BuilderVertices.

(** [Define] is the super-mesh, the insertions and the post-pass. *)
Lemma Define_eq (asserts : bool)
  (sqrtQ : Q -> Q) (M_EPSILON M_LARGE_EPSILON tolerance : Q)
  (mesh0 : TetrahedralMesh) (positions : list Vector3) (padding : Q) :
  Define asserts sqrtQ M_EPSILON M_LARGE_EPSILON tolerance mesh0 positions padding
  = (r <- insert_all asserts sqrtQ M_EPSILON M_LARGE_EPSILON
            (InitializeSuperMesh mesh0
               (mkBox (v3_sub (min_ (BoundingBox_of positions))
                              (v3_scale padding v3_ONE))
                      (v3_add (max_ (BoundingBox_of positions))
                              (v3_scale padding v3_ONE))))
            positions ;;
     match r with
     | Return b => Done (b_mesh b)
     | Next b => post_pass asserts tolerance b
     end).
Proof. reflexivity. Qed.

(** ** More on arrays and loops *)

Set Implicit Arguments.

Lemma get_nth_error {A} (l : list A) : forall i, get l i = nth_error l (N.to_nat i).
Proof.
  induction l as [|a l IH]; intro i; simpl.
  - destruct (N.to_nat i); reflexivity.
  - destruct (N.eqb_spec i 0) as [->|Hi]; [reflexivity|].
    rewrite IH. replace (N.to_nat i) with (S (N.to_nat (N.pred i))) by lia.
    reflexivity.
Qed.

Lemma set_spec {A} (l : list A) (v : A) : forall i,
  set l i v =
  if (i <? size l)%N
  then Some (firstn (N.to_nat i) l ++ v :: skipn (S (N.to_nat i)) l)
  else None.
Proof.
  unfold size. induction l as [|a l IH]; intro i.
  - simpl. destruct (N.ltb_spec i 0); [lia | reflexivity].
  - cbn [set]. destruct (N.eqb_spec i 0) as [->|Hi].
    + reflexivity.
    + rewrite IH.
      replace (N.to_nat i) with (S (N.to_nat (N.pred i))) by lia.
      destruct (N.ltb_spec (N.pred i) (N.of_nat (length l)));
        destruct (N.ltb_spec i (N.of_nat (length (a :: l))));
        simpl length in *; try lia; reflexivity.
Qed.

Lemma set_some {A} (l : list A) i v :
  (i < size l)%N -> exists l', set l i v = Some l'.
Proof.
  intro H. rewrite set_spec. apply N.ltb_lt in H. rewrite H. eauto.
Qed.

Lemma set_lt {A} (l l' : list A) i v : set l i v = Some l' -> (i < size l)%N.
Proof.
  rewrite set_spec. destruct (N.ltb_spec i (size l)); [auto | discriminate].
Qed.

Lemma set_length {A} (l l' : list A) i v :
  set l i v = Some l' -> length l' = length l.
Proof.
  intro H. pose proof (set_lt _ _ _ H) as Hlt. unfold size in Hlt.
  rewrite set_spec in H. apply N.ltb_lt in Hlt. unfold size in H.
  rewrite Hlt in H. injection H as <-. apply N.ltb_lt in Hlt.
  rewrite length_app. cbn [length]. rewrite length_firstn.
  change (match l with [] => [] | _ :: l0 => skipn (N.to_nat i) l0 end)
    with (skipn (S (N.to_nat i)) l).
  rewrite length_skipn. lia.
Qed.

Lemma set_size {A} (l l' : list A) i v : set l i v = Some l' -> size l' = size l.
Proof. intro H. unfold size. now rewrite (set_length _ _ _ H). Qed.

Lemma get_set {A} (l l' : list A) i v j :
  set l i v = Some l' ->
  get l' j = if (j =? i)%N then Some v else get l j.
Proof.
  intro H. pose proof (set_lt _ _ _ H) as Hlt. unfold size in Hlt.
  rewrite set_spec in H. unfold size in H.
  apply N.ltb_lt in Hlt. rewrite Hlt in H. apply N.ltb_lt in Hlt.
  injection H as <-.
  rewrite !get_nth_error.
  destruct (N.eqb_spec j i) as [->|Hji].
  - rewrite nth_error_app2; rewrite length_firstn; [|lia].
    replace (N.to_nat i - Nat.min (N.to_nat i) (length l))%nat with O by lia.
    reflexivity.
  - destruct (Nat.lt_ge_cases (N.to_nat j) (N.to_nat i)) as [Hlt'|Hge].
    + rewrite nth_error_app1 by (rewrite length_firstn; lia).
      rewrite nth_error_firstn.
      destruct (Nat.ltb_spec (N.to_nat j) (N.to_nat i)); [reflexivity | lia].
    + rewrite nth_error_app2 by (rewrite length_firstn; lia).
      rewrite length_firstn.
      replace (N.to_nat j - Nat.min (N.to_nat i) (length l))%nat
        with (S (N.to_nat j - S (N.to_nat i))) by lia.
      cbn [nth_error].
      change (match l with [] => [] | _ :: l0 => skipn (N.to_nat i) l0 end)
        with (skipn (S (N.to_nat i)) l).
      rewrite nth_error_skipn. f_equal. lia.
Qed.

Lemma get_set_same {A} (l l' : list A) i v :
  set l i v = Some l' -> get l' i = Some v.
Proof. intro H. rewrite (get_set _ _ _ i H), N.eqb_refl. reflexivity. Qed.

Lemma get_set_other {A} (l l' : list A) i v j :
  set l i v = Some l' -> j <> i -> get l' j = get l j.
Proof.
  intros H Hj. rewrite (get_set _ _ _ j H).
  destruct (N.eqb_spec j i); [contradiction | reflexivity].
Qed.

Lemma put_done {A} a (l l' : list A) i v :
  put a l i v = Done l' <-> set l i v = Some l'.
Proof.
  unfold put. destruct (set l i v); split; intro H; inversion H; reflexivity.
Qed.



Lemma size_app {A} (l1 l2 : list A) : size (l1 ++ l2) = (size l1 + size l2)%N.
Proof. unfold size. rewrite length_app. lia. Qed.

Lemma size_nat {A} (l : list A) : N.to_nat (size l) = length l.
Proof. unfold size. lia. Qed.

Lemma firstn_get_snoc {A} (l : list A) (i : N) (x : A) :
  get l i = Some x ->
  firstn (N.to_nat (i + 1)) l = firstn (N.to_nat i) l ++ [x].
Proof.
  rewrite get_nth_error. intro H.
  replace (N.to_nat (i + 1)) with (S (N.to_nat i)) by lia.
  revert H. generalize (N.to_nat i) as k. clear i.
  induction l as [|a l IH]; intros [|k] H; simpl in *; try discriminate.
  - inv_done H. reflexivity.
  - f_equal. apply IH, H.
Qed.

(** A loop that keeps an invariant indexed by its counter runs to its end. *)
Lemma for_loop_total {S} (P : N -> S -> Prop) (body : N -> S -> Outcome S)
  (n : nat) : forall (from : N) (s : S),
  (forall i s, (from <= i < from + N.of_nat n)%N -> P i s ->
               exists s', body i s = Done s' /\ P (i + 1)%N s') ->
  P from s ->
  exists s', for_loop n from body s = Done s' /\ P (from + N.of_nat n)%N s'.
Proof.
  induction n as [|n IH]; intros from s Hbody Hs; simpl.
  - exists s. split; [reflexivity|]. now rewrite N.add_0_r.
  - destruct (Hbody from s) as [s1 [H1 P1]]; [lia | exact Hs |].
    rewrite H1. simpl.
    destruct (IH (from + 1)%N s1) as [s' [H' P']]; [|exact P1|].
    + intros i s2 Hi. apply Hbody. lia.
    + exists s'. split; [exact H'|].
      replace (from + N.pos (Pos.of_succ_nat n))%N
        with (from + 1 + N.of_nat n)%N by lia.
      exact P'.
Qed.

(** The same as a rule for a loop that is known to have run to its end. *)
Lemma for_loop_ind {St} (P : N -> St -> Prop) (body : N -> St -> Outcome St)
  (n : nat) : forall (from : N) (s s' : St),
  (forall i s s', (from <= i < from + N.of_nat n)%N -> P i s ->
                  body i s = Done s' -> P (i + 1)%N s') ->
  P from s -> for_loop n from body s = Done s' ->
  P (from + N.of_nat n)%N s'.
Proof.
  induction n as [|n IH]; intros from s s' Hbody Hs H; simpl in H.
  - inv_done H. now rewrite N.add_0_r.
  - inv_bind H.
    replace (from + N.of_nat (S n))%N with (from + 1 + N.of_nat n)%N by lia.
    eapply IH; [| |exact H].
    + intros i s1 s2 Hi. apply Hbody. lia.
    + eapply Hbody; [|exact Hs|exact Ha]. lia.
Qed.

(** ** The cull and renumber pass *)

Lemma get_ext {A} (l1 : list A) : forall l2,
  (forall i, get l1 i = get l2 i) -> l1 = l2.
Proof.
  induction l1 as [|a l1 IH]; intros [|b l2] H.
  - reflexivity.
  - specialize (H 0%N). discriminate.
  - specialize (H 0%N). discriminate.
  - pose proof (H 0%N) as H0. simpl in H0. inv_done H0. f_equal.
    apply IH. intro i. specialize (H (i + 1)%N). simpl in H.
    destruct (N.eqb_spec (i + 1) 0); [lia|].
    now replace (N.pred (i + 1)) with i in H by lia.
Qed.

Lemma get_firstn {A} (l : list A) (k i : N) :
  get (firstn (N.to_nat k) l) i = if (i <? k)%N then get l i else None.
Proof.
  rewrite !get_nth_error, nth_error_firstn.
  destruct (Nat.ltb_spec (N.to_nat i) (N.to_nat k));
    destruct (N.ltb_spec i k); try lia; reflexivity.
Qed.

Lemma Forall2_get {A B} (R : A -> B -> Prop) (l1 : list A) (l2 : list B) :
  Forall2 R l1 l2 ->
  forall i y, get l2 i = Some y -> exists x, get l1 i = Some x /\ R x y.
Proof.
  induction 1 as [|a b l1 l2 Hab H IH]; intros i y Hy; simpl in *.
  - discriminate.
  - destruct (N.eqb_spec i 0); [inv_done Hy; eauto | eauto].
Qed.

Lemma Forall2_get_l {A B} (R : A -> B -> Prop) (l1 : list A) (l2 : list B) :
  Forall2 R l1 l2 ->
  forall i x, get l1 i = Some x -> exists y, get l2 i = Some y /\ R x y.
Proof.
  induction 1 as [|a b l1 l2 Hab H IH]; intros i y Hy; simpl in *.
  - discriminate.
  - destruct (N.eqb_spec i 0); [inv_done Hy; eauto | eauto].
Qed.

Lemma Forall2_set {A B} (R : A -> B -> Prop) (l1 : list A) (l2 : list B) :
  Forall2 R l1 l2 ->
  forall i x y' l2',
    get l1 i = Some x -> R x y' -> set l2 i y' = Some l2' ->
    Forall2 R l1 l2'.
Proof.
  induction 1 as [|a b l1 l2 Hab H IH]; intros i x y' l2' Hx Hr Hs; simpl in *.
  - discriminate.
  - destruct (N.eqb_spec i 0).
    + inv_done Hx. inv_done Hs. constructor; assumption.
    + destruct (set l2 (N.pred i) y') as [t|] eqn:Et; [|discriminate].
      inv_done Hs. constructor; [assumption|]. eapply IH; eauto.
Qed.

Lemma Forall2_size {A B} (R : A -> B -> Prop) (l1 : list A) (l2 : list B) :
  Forall2 R l1 l2 -> size l2 = size l1.
Proof. intro H. unfold size. now rewrite (Forall2_length H). Qed.

Lemma Forall_get {A} (P : A -> Prop) (l : list A) :
  Forall P l -> forall i x, get l i = Some x -> P x.
Proof.
  induction 1 as [|a l Ha H IH]; intros i x Hx; simpl in *.
  - discriminate.
  - destruct (N.eqb_spec i 0); [inv_done Hx; assumption | eauto].
Qed.

Lemma removed_flags_length cells flags :
  length flags = length cells ->
  length (removed_flags cells flags) = length cells.
Proof.
  intro H. unfold removed_flags. rewrite length_map, length_combine. lia.
Qed.

Lemma removed_flags_get cells : forall flags i c f,
  get cells i = Some c -> get flags i = Some f ->
  get (removed_flags cells flags) i = Some (f || touches_super c).
Proof.
  unfold removed_flags.
  induction cells as [|c0 cells IH]; intros [|f0 flags] i c f Hc Hf;
    simpl in *; try discriminate.
  destruct (N.eqb_spec i 0).
  - inv_done Hc. inv_done Hf. reflexivity.
  - eauto.
Qed.

Lemma cleared_refl removed o : cleared removed o o.
Proof. left. reflexivity. Qed.

Lemma cell_rel_refl removed c : cell_rel removed c c.
Proof.
  unfold cell_rel. repeat split. destruct (neighbors_ c); simpl.
  repeat split; apply cleared_refl.
Qed.

Lemma Forall2_refl {A} (R : A -> A -> Prop) (l : list A) :
  (forall x, R x x) -> Forall2 R l l.
Proof. intro H. induction l; constructor; auto. Qed.

(** Replacing the references to a removed cell keeps a cell related. *)
Lemma cell_rel_replace removed co ck i :
  removedb removed i = true ->
  cell_rel removed co ck ->
  cell_rel removed co
    (mkTet (indices_ ck) (replace4 (neighbors_ ck) i M_MAX_UNSIGNED) (matrix_ ck)).
Proof.
  intros Hi [Hidx [Hm Hn]]. unfold cell_rel; simpl.
  split; [exact Hidx|]. split; [exact Hm|].
  destruct (neighbors_ co) as [o0 o1 o2 o3], (neighbors_ ck) as [v0 v1 v2 v3].
  simpl in *.
  assert (Hone : forall o v, cleared removed o v ->
            cleared removed o (if (v =? i)%N then M_MAX_UNSIGNED else v)).
  { intros o v Hc. destruct (N.eqb_spec v i) as [->|]; [|exact Hc].
    destruct Hc as [->|[_ Hr]]; right; auto. }
  destruct Hn as [? [? [? ?]]]. repeat split; apply Hone; assumption.
Qed.

Lemma quad_rel_qget {A B} (R : A -> B -> Prop) (q1 : Quad A) (q2 : Quad B) j v :
  quad_rel R q1 q2 -> qget q2 j = Some v ->
  exists o, qget q1 j = Some o /\ R o v.
Proof.
  destruct q1, q2. simpl. intros [R0 [R1 [R2 R3]]] Hq.
  destruct j as [|[[|[]|]|[|[]|]|]]; simpl in Hq; try discriminate;
    inv_done Hq; eauto.
Qed.

Lemma quad_all_qget {A} (P : A -> Prop) (q : Quad A) j v :
  quad_all P q -> qget q j = Some v -> P v.
Proof.
  destruct q. simpl. intros [P0 [P1 [P2 P3]]] Hq.
  destruct j as [|[[|[]|]|[|[]|]|]]; simpl in Hq; try discriminate;
    inv_done Hq; auto.
Qed.

Lemma unlink_all removed cells ck i :
  removedb removed i = true ->
  Forall2 (cell_rel removed) cells ck ->
  neighbors_in_range cells ->
  (i < size cells)%N ->
  exists ck', for_loop 4 0 (unlink_neighbor i) ck = Done ck' /\
              Forall2 (cell_rel removed) cells ck'.
Proof.
  intros Hi Hrel Hrange Hlt.
  destruct (@for_loop_total _ (fun _ s => Forall2 (cell_rel removed) cells s)
              (unlink_neighbor i) 4 0%N ck) as [ck' [Hrun Hck']]; [|exact Hrel|eauto].
  intros j s Hj Hs. unfold unlink_neighbor.
  destruct (get_some s i) as [cell Hcell].
  { rewrite (Forall2_size Hs). exact Hlt. }
  unfold at_ at 1. rewrite Hcell. simpl.
  destruct (qget_some (neighbors_ cell) j) as [v Hv]; [lia|].
  unfold qat. rewrite Hv. simpl.
  destruct (N.eqb_spec v M_MAX_UNSIGNED) as [Hmax|Hmax]; [eauto|].
  destruct (Forall2_get Hs _ Hcell) as [co [Hco [_ [_ Hn]]]].
  destruct (quad_rel_qget _ _ _ _ Hn Hv) as [o [Ho Hc]].
  assert (Hvo : v = o) by (destruct Hc as [?|[? _]]; congruence).
  subst o.
  pose proof (quad_all_qget _ _ _ (Forall_get Hrange _ Hco) Ho) as [?|Hvlt];
    [contradiction|].
  destruct (get_some cells v Hvlt) as [no Hno].
  destruct (Forall2_get_l Hs _ Hno) as [nk [Hnk Hnrel]].
  unfold at_. rewrite Hnk. simpl.
  destruct (@set_some _ s v
              (mkTet (indices_ nk) (replace4 (neighbors_ nk) i M_MAX_UNSIGNED)
                     (matrix_ nk))) as [s' Hs'].
  { rewrite (Forall2_size Hs). exact Hvlt. }
  exists s'. split; [apply put_done; exact Hs'|].
  eapply Forall2_set; [exact Hs | exact Hno | | exact Hs'].
  apply cell_rel_replace; assumption.
Qed.

Lemma touches_super_rel removed co ck :
  cell_rel removed co ck -> touches_super ck = touches_super co.
Proof. intros [Hidx _]. unfold touches_super. now rewrite Hidx. Qed.

(** The cull loop: the flags become the removal flags, and the cells are
    the original ones with some references to removed cells cleared. *)
Lemma cull_loop cells flags :
  length flags = length cells ->
  neighbors_in_range cells ->
  let removed := removed_flags cells flags in
  exists cells',
    for_loop (length cells) 0 cull_cell (cells, flags) = Done (cells', removed) /\
    Forall2 (cell_rel removed) cells cells'.
Proof.
  intros Hlen Hrange removed.
  pose (P := fun (k : N) (st : list Tetrahedron * list bool) =>
    Forall2 (cell_rel removed) cells (fst st) /\
    length (snd st) = length cells /\
    forall j, get (snd st) j = if (j <? k)%N then get removed j else get flags j).
  destruct (@for_loop_total _ P cull_cell (length cells) 0%N (cells, flags))
    as [[ck fk] [Hrun [Hrel [Hfl Hget]]]].
  - intros i [ck fk] Hi [Hrel [Hfl Hget]]. simpl in Hrel, Hfl, Hget.
    assert (Hilt : (i < size cells)%N) by (unfold size; lia).
    destruct (get_some cells i Hilt) as [co Hco].
    destruct (Forall2_get_l Hrel _ Hco) as [cell [Hcell Hcrel]].
    destruct (get_some flags i) as [f Hf]; [unfold size; lia|].
    assert (Hfk : get fk i = Some f).
    { rewrite Hget. destruct (N.ltb_spec i i); [lia | exact Hf]. }
    assert (Hrem : get removed i = Some (f || touches_super co)).
    { apply removed_flags_get; assumption. }
    unfold cull_cell. unfold at_ at 1. rewrite Hcell. cbn [bind].
    rewrite (touches_super_rel Hcrel).
    assert (Hflags : exists fk',
      (if touches_super co then put Arr_badFlags fk i true else Done fk) = Done fk' /\
      length fk' = length cells /\
      forall j, get fk' j = if (j <? i + 1)%N then get removed j else get flags j).
    { destruct (touches_super co) eqn:Et.
      - destruct (@set_some _ fk i true) as [fk' Hfk']; [unfold size; lia|].
        exists fk'. split; [apply put_done; exact Hfk'|].
        split; [rewrite (set_length _ _ _ Hfk'); exact Hfl|].
        intro j. rewrite (get_set _ _ _ j Hfk'), Hget.
        destruct (N.eqb_spec j i) as [->|Hji].
        + destruct (N.ltb_spec i (i + 1)); [|lia].
          rewrite Hrem, orb_true_r. reflexivity.
        + destruct (N.ltb_spec j i); destruct (N.ltb_spec j (i + 1));
            try lia; reflexivity.
      - exists fk. split; [reflexivity|]. split; [exact Hfl|].
        intro j. rewrite Hget.
        destruct (N.ltb_spec j i); destruct (N.ltb_spec j (i + 1));
          try lia; try reflexivity.
        assert (j = i) by lia. subst j.
        rewrite Hrem, Hf, orb_false_r. reflexivity. }
    destruct Hflags as [fk' [Hput [Hfl' Hget']]]. rewrite Hput. cbn [bind].
    assert (Hflag : get fk' i = Some (removedb removed i)).
    { rewrite Hget'. destruct (N.ltb_spec i (i + 1)); [|lia].
      unfold removedb. rewrite Hrem. reflexivity. }
    unfold at_. rewrite Hflag. cbn [bind].
    destruct (removedb removed i) eqn:Er.
    + destruct (unlink_all Er Hrel Hrange Hilt) as [ck' [Hun Hrel']].
      rewrite Hun. cbn [bind]. exists (ck', fk'). split; [reflexivity|].
      repeat split; assumption.
    + exists (ck, fk'). split; [reflexivity|]. repeat split; assumption.
  - unfold P; simpl.
    split; [apply Forall2_refl, cell_rel_refl|]. split; [exact Hlen|].
    intro j. destruct (N.ltb_spec j 0); [lia | reflexivity].
  - exists ck. simpl in *. split; [|exact Hrel].
    rewrite Hrun. do 2 f_equal. apply get_ext. intro j. rewrite Hget.
    destruct (N.ltb_spec j (N.of_nat (length cells))); [reflexivity|].
    rewrite !get_none; auto; unfold size, removed;
      try rewrite removed_flags_length by exact Hlen; lia.
Qed.

Lemma survivors_snoc cs : forall rs c r,
  length cs = length rs ->
  survivors (cs ++ [c]) (rs ++ [r]) = survivors cs rs ++ (if r then [] else [c]).
Proof.
  induction cs as [|c0 cs IH]; intros [|r0 rs] c r Hlen; simpl in *;
    try discriminate.
  - destruct r; reflexivity.
  - rewrite IH by lia. destruct r0; reflexivity.
Qed.

Lemma ranks_snoc rs : forall cs next r,
  length cs = length rs ->
  ranks (rs ++ [r]) next =
  ranks rs next ++ [if r then M_MAX_UNSIGNED else (next + size (survivors cs rs))%N].
Proof.
  induction rs as [|r0 rs IH]; intros [|c0 cs] next r Hlen; simpl in *;
    try discriminate.
  - rewrite N.add_0_r. destruct r; reflexivity.
  - destruct r0; simpl.
    + rewrite (IH cs) by lia. reflexivity.
    + rewrite (IH cs) by lia. do 3 f_equal.
      destruct r; [reflexivity|]. unfold size. simpl length. lia.
Qed.

Lemma ranks_length rs : forall next, length (ranks rs next) = length rs.
Proof.
  induction rs as [|r rs IH]; intro next; simpl; [reflexivity|].
  destruct r; simpl; now rewrite IH.
Qed.

Lemma renumber_loop ck removed :
  length removed = length ck ->
  for_loop (length ck) 0 (renumber_cell ck removed) ([], [])
  = Done (ranks removed 0, survivors ck removed).
Proof.
  intro Hlen.
  pose (P := fun (k : N) (st : list N * list Tetrahedron) =>
    fst st = ranks (firstn (N.to_nat k) removed) 0 /\
    snd st = survivors (firstn (N.to_nat k) ck) (firstn (N.to_nat k) removed)).
  destruct (@for_loop_total _ P (renumber_cell ck removed) (length ck) 0%N ([], []))
    as [[ni out] [Hrun [Hni Hout]]].
  - intros i [ni out] Hi [Hni Hout]. simpl in Hni, Hout.
    destruct (get_some removed i) as [r Hr]; [unfold size; lia|].
    destruct (get_some ck i) as [c Hc]; [unfold size; lia|].
    unfold renumber_cell, at_. rewrite Hr. cbn [bind].
    assert (Hl : length (firstn (N.to_nat i) ck)
                 = length (firstn (N.to_nat i) removed)).
    { rewrite !length_firstn. lia. }
    destruct r.
    + eexists. split; [reflexivity|]. unfold P; simpl.
      rewrite (@firstn_get_snoc _ _ _ _ Hr), (@firstn_get_snoc _ _ _ _ Hc).
      rewrite (@ranks_snoc _ _ _ _ Hl), survivors_snoc by exact Hl.
      rewrite app_nil_r. split; congruence.
    + rewrite Hc. cbn [bind]. eexists. split; [reflexivity|]. unfold P; simpl.
      rewrite (@firstn_get_snoc _ _ _ _ Hr), (@firstn_get_snoc _ _ _ _ Hc).
      rewrite (@ranks_snoc _ _ _ _ Hl), survivors_snoc by exact Hl.
      rewrite N.add_0_l. split; congruence.
  - unfold P; simpl. split; reflexivity.
  - simpl in *. rewrite Hrun, Hni, Hout.
    rewrite Nat2N.id.
    rewrite (firstn_all ck). rewrite <- Hlen. rewrite (firstn_all removed).
    reflexivity.
Qed.

(** One cell through [for (i < 4)] of the remapping, with assertions off. *)
Lemma remap_cell newIndices (c : Tetrahedron) :
  quad_all (fun v => v = M_MAX_UNSIGNED \/ exists r, get newIndices v = Some r)
           (neighbors_ c) ->
  for_loop 4 0 (remap_neighbor false newIndices) c
  = Done (mkTet (indices_ c) (qmap (remapped newIndices) (neighbors_ c))
                (matrix_ c)).
Proof.
  destruct c as [idx [a0 a1 a2 a3] m]. simpl.
  intros [H0 [H1 [H2 H3]]].
  unfold remap_neighbor, qat, qput, at_, assert, remapped; simpl.
  destruct (N.eqb_spec a0 M_MAX_UNSIGNED) as [->|N0];
    [|destruct H0 as [?|[r0 E0]]; [contradiction|rewrite E0]];
  simpl;
  (destruct (N.eqb_spec a1 M_MAX_UNSIGNED) as [->|N1];
    [|destruct H1 as [?|[r1 E1]]; [contradiction|rewrite E1]]);
  simpl;
  (destruct (N.eqb_spec a2 M_MAX_UNSIGNED) as [->|N2];
    [|destruct H2 as [?|[r2 E2]]; [contradiction|rewrite E2]]);
  simpl;
  (destruct (N.eqb_spec a3 M_MAX_UNSIGNED) as [->|N3];
    [|destruct H3 as [?|[r3 E3]]; [contradiction|rewrite E3]]);
  simpl; reflexivity.
Qed.

Lemma map_outcome_done {A B} (f : A -> Outcome B) (g : A -> B) (l : list A) :
  Forall (fun x => f x = Done (g x)) l -> map_outcome f l = Done (map g l).
Proof.
  induction 1 as [|x l Hx H IH]; simpl; [reflexivity|].
  rewrite Hx, IH. reflexivity.
Qed.

Lemma map_outcome_refines {A B} (f1 f2 : A -> Outcome B) :
  (forall x y, f1 x = Done y -> f2 x = Done y) ->
  forall l l', map_outcome f1 l = Done l' -> map_outcome f2 l = Done l'.
Proof.
  intro Hf. induction l as [|x l IH]; intros l' H; simpl in *; [exact H|].
  inv_bind H. inv_bind H. inv_done H.
  rewrite (Hf _ _ Ha). simpl. rewrite (IH _ Ha0). reflexivity.
Qed.

Lemma for_loop_refines {St} (body1 body2 : N -> St -> Outcome St) :
  (forall i s s', body1 i s = Done s' -> body2 i s = Done s') ->
  forall n i s s', for_loop n i body1 s = Done s' -> for_loop n i body2 s = Done s'.
Proof.
  intro Hb. induction n as [|n IH]; intros i s s' H; simpl in *; [exact H|].
  inv_bind H. rewrite (Hb _ _ _ Ha). simpl. apply IH, H.
Qed.

Lemma assert_refines d c u :
  assert true d c = Done u -> assert false d c = Done u.
Proof. destruct u. reflexivity. Qed.

Lemma remap_neighbor_refines newIndices i c c' :
  remap_neighbor true newIndices i c = Done c' ->
  remap_neighbor false newIndices i c = Done c'.
Proof.
  unfold remap_neighbor. intro H. inv_bind H. rewrite Ha. cbn [bind].
  destruct (a =? M_MAX_UNSIGNED)%N; [exact H|].
  inv_bind H. rewrite Ha0. cbn [bind].
  inv_bind H. rewrite (assert_refines _ _ Ha1). exact H.
Qed.

Lemma cull_and_renumber_refines b m :
  cull_and_renumber true b = Done m -> cull_and_renumber false b = Done m.
Proof.
  unfold cull_and_renumber. intro H.
  inv_bind H. rewrite Ha. cbn [bind]. destruct a as [cells flags].
  inv_bind H. rewrite Ha0. cbn [bind]. destruct a as [newIndices out].
  inv_bind H.
  erewrite map_outcome_refines; [exact H | | exact Ha1].
  intros x y. apply for_loop_refines. intros i s s'.
  apply remap_neighbor_refines.
Qed.

Lemma survivors_rel (R : Tetrahedron -> Tetrahedron -> Prop) l1 l2 :
  Forall2 R l1 l2 -> forall rs, Forall2 R (survivors l1 rs) (survivors l2 rs).
Proof.
  induction 1 as [|a b l1 l2 Hab H IH]; intros [|r rs]; simpl;
    try constructor.
  destruct r; [apply IH | constructor; [exact Hab | apply IH]].
Qed.

Lemma ranks_get_removed removed : forall next o,
  get removed o = Some true ->
  get (ranks removed next) o = Some M_MAX_UNSIGNED.
Proof.
  induction removed as [|r rs IH]; intros next o H; simpl in *; [discriminate|].
  destruct r; simpl; destruct (N.eqb_spec o 0); auto; congruence.
Qed.

Lemma remapped_cleared removed o v :
  cleared removed o v ->
  remapped (ranks removed 0) v = remapped (ranks removed 0) o.
Proof.
  intros [->|[-> Hr]]; [reflexivity|].
  unfold remapped at 1. simpl. unfold remapped.
  destruct (N.eqb_spec o M_MAX_UNSIGNED); [reflexivity|].
  unfold removedb in Hr. destruct (get removed o) as [[|]|] eqn:E;
    try discriminate.
  rewrite (ranks_get_removed _ _ _ E). reflexivity.
Qed.

Lemma map_rel {A B} (R : A -> A -> Prop) (f : A -> B) l1 l2 :
  Forall2 R l1 l2 -> (forall x y, R x y -> f y = f x) -> map f l2 = map f l1.
Proof.
  intros H Hf. induction H; simpl; [reflexivity|]. f_equal; auto.
Qed.

Lemma Forall2_Forall_r {A B} (R : A -> B -> Prop) (P : B -> Prop) l1 l2 :
  Forall2 R l1 l2 -> (forall x y, In x l1 -> R x y -> P y) -> Forall P l2.
Proof.
  induction 1 as [|a b l1 l2 Hab H IH]; intro HP; constructor.
  - apply (HP a b); [left; reflexivity | exact Hab].
  - apply IH. intros x y Hx. apply HP. right. exact Hx.
Qed.

Lemma survivors_In cells : forall rs c,
  In c (survivors cells rs) -> In c cells.
Proof.
  induction cells as [|c0 cells IH]; intros [|r rs] c H; simpl in *;
    try contradiction.
  destruct r; [right; eauto|]. destruct H; [left; assumption | right; eauto].
Qed.

(** With assertions off the pass runs to its end on every well-formed
    state, and gives the mesh of the specification. *)
Lemma cull_and_renumber_release (b : Build) :
  length (badFlags b) = length (tetrahedrons_ (b_mesh b)) ->
  neighbors_in_range (tetrahedrons_ (b_mesh b)) ->
  (8 <= size (vertices_ (b_mesh b)))%N ->
  cull_and_renumber false b = Done (culled_mesh b).
Proof.
  intros Hlen Hrange Hv. unfold cull_and_renumber, culled_mesh.
  set (cells := tetrahedrons_ (b_mesh b)) in *.
  set (removed := removed_flags cells (badFlags b)).
  destruct (@cull_loop _ _ Hlen Hrange) as [ck [Hcull Hrel]].
  fold removed in Hcull, Hrel.
  rewrite Hcull. cbn [bind].
  assert (Hlr : length removed = length ck).
  { unfold removed. rewrite removed_flags_length by exact Hlen.
    exact (Forall2_length Hrel). }
  rewrite (@renumber_loop _ _ Hlr). cbn [bind].
  set (newIndices := ranks removed 0).
  pose proof (@survivors_rel _ _ _ Hrel removed) as Hsurv.
  rewrite (@map_outcome_done _ _ _
             (fun c => mkTet (indices_ c) (qmap (remapped newIndices) (neighbors_ c))
                             (matrix_ c))).
  - cbn [bind]. destruct (N.ltb_spec (size (vertices_ (b_mesh b))) 8); [lia|].
    cbn [bind]. f_equal. f_equal. rewrite !map_map.
    apply (@map_rel _ _ _ _ _ _ Hsurv). intros co c [Hidx [Hm Hn]]. simpl.
    rewrite Hidx, Hm. f_equal.
    destruct (neighbors_ co) as [o0 o1 o2 o3], (neighbors_ c) as [v0 v1 v2 v3].
    simpl in *. destruct Hn as [C0 [C1 [C2 C3]]].
    unfold newIndices.
    rewrite (@remapped_cleared _ _ _ C0), (@remapped_cleared _ _ _ C1),
      (@remapped_cleared _ _ _ C2), (@remapped_cleared _ _ _ C3). reflexivity.
  - apply (@Forall2_Forall_r _ _ _ _ _ _ Hsurv). intros co c Hin [_ [_ Hn]].
    apply remap_cell.
    apply survivors_In in Hin.
    pose proof (proj1 (Forall_forall _ _) Hrange co Hin) as Hco.
    cbv beta in Hco.
    destruct (neighbors_ co) as [o0 o1 o2 o3], (neighbors_ c) as [v0 v1 v2 v3].
    simpl in *.
    assert (Hone : forall o v, (o = M_MAX_UNSIGNED \/ (o < size cells)%N) ->
              cleared removed o v ->
              v = M_MAX_UNSIGNED \/ exists r, get newIndices v = Some r).
    { intros o v Ho [->|[-> _]]; [|left; reflexivity].
      destruct Ho as [->|Ho]; [left; reflexivity|]. right.
      apply get_some. unfold newIndices, size. rewrite ranks_length.
      unfold removed. rewrite removed_flags_length by exact Hlen.
      exact Ho. }
    destruct Hco as [P0 [P1 [P2 P3]]], Hn as [C0 [C1 [C2 C3]]].
    repeat split;
      [exact (Hone _ _ P0 C0) | exact (Hone _ _ P1 C1)
      | exact (Hone _ _ P2 C2) | exact (Hone _ _ P3 C3)].
Qed.

(** The new indices number the cells that stay without a gap, in their
    order. *)
Lemma ranks_survivor cells : forall removed next i c,
  get cells i = Some c -> get removed i = Some false ->
  exists r, get (ranks removed next) i = Some (next + r)%N /\
            get (survivors cells removed) r = Some c.
Proof.
  induction cells as [|c0 cells IH]; intros [|r0 removed] next i c Hc Hr;
    simpl in *; try discriminate.
  destruct (N.eqb_spec i 0) as [Hi|Hi].
  - inv_done Hc. inv_done Hr. exists 0%N. simpl. rewrite N.add_0_r.
    split; reflexivity.
  - destruct r0.
    + destruct (IH removed next _ _ Hc Hr) as [r [H1 H2]].
      exists r. simpl. destruct (N.eqb_spec i 0); [contradiction|]. auto.
    + destruct (IH removed (next + 1)%N _ _ Hc Hr) as [r [H1 H2]].
      exists (r + 1)%N. simpl. destruct (N.eqb_spec i 0); [contradiction|].
      destruct (N.eqb_spec (r + 1) 0); [lia|].
      replace (N.pred (r + 1)) with r by lia.
      split; [rewrite H1; f_equal; lia | exact H2].
Qed.

Lemma survivor_source cells : forall removed next r c,
  length removed = length cells ->
  get (survivors cells removed) r = Some c ->
  exists i, get cells i = Some c /\ get removed i = Some false /\
            get (ranks removed next) i = Some (next + r)%N.
Proof.
  induction cells as [|c0 cells IH]; intros [|r0 removed] next r c Hlen H;
    simpl in *; try discriminate.
  destruct r0.
  - destruct (IH removed next r c) as [i [H1 [H2 H3]]]; [lia | exact H |].
    exists (i + 1)%N. simpl. destruct (N.eqb_spec (i + 1) 0); [lia|].
    replace (N.pred (i + 1)) with i by lia. auto.
  - simpl in H. destruct (N.eqb_spec r 0) as [Hr|Hr].
    + inv_done H. exists 0%N. simpl. rewrite N.add_0_r. auto.
    + destruct (IH removed (next + 1)%N (N.pred r) c) as [i [H1 [H2 H3]]];
        [lia | exact H |].
      exists (i + 1)%N. simpl. destruct (N.eqb_spec (i + 1) 0); [lia|].
      replace (N.pred (i + 1)) with i by lia.
      repeat split; auto. rewrite H3. f_equal. lia.
Qed.

Lemma ranks_lower_bound removed : forall next i r,
  get removed i = Some false -> get (ranks removed next) i = Some r ->
  (next <= r)%N.
Proof.
  induction removed as [|r0 removed IH]; intros next i r Hr H; simpl in *;
    [discriminate|].
  destruct r0; simpl in H; destruct (N.eqb_spec i 0).
  - discriminate.
  - eauto.
  - inv_done H. lia.
  - specialize (IH _ _ _ Hr H). lia.
Qed.

Lemma ranks_increasing removed : forall next i j ri rj,
  (i < j)%N ->
  get removed i = Some false -> get removed j = Some false ->
  get (ranks removed next) i = Some ri -> get (ranks removed next) j = Some rj ->
  (ri < rj)%N.
Proof.
  induction removed as [|r0 removed IH]; intros next i j ri rj Hij Hi Hj Hri Hrj;
    simpl in *; [discriminate|].
  destruct (N.eqb_spec j 0); [lia|].
  destruct r0; simpl in Hri, Hrj;
    destruct (N.eqb_spec j 0); try contradiction;
    destruct (N.eqb_spec i 0).
  - discriminate.
  - apply (IH next (N.pred i) (N.pred j)); auto. lia.
  - inv_done Hri. pose proof (ranks_lower_bound _ _ _ Hj Hrj). lia.
  - apply (IH (next + 1)%N (N.pred i) (N.pred j)); auto. lia.
Qed.

Lemma survivors_not_touching cells : forall flags c,
  In c (survivors cells (removed_flags cells flags)) -> touches_super c = false.
Proof.
  unfold removed_flags.
  induction cells as [|c0 cells IH]; intros [|f flags] c H; simpl in *;
    try contradiction.
  destruct (f || touches_super c0) eqn:E.
  - eauto.
  - destruct H as [<-|H]; [|eauto].
    apply orb_false_iff in E. tauto.
Qed.

Lemma sub8_minus (v : N) : (8 <= v < 4294967296)%N -> sub8 v = (v - 8)%N.
Proof.
  intro H. unfold sub8.
  replace (v + 4294967296 - 8)%N with (v - 8 + 1 * 4294967296)%N by lia.
  rewrite N.Div0.mod_add. apply N.mod_small. lia.
Qed.

(** C6, as the specification has it, fails on the code: after the five
    insertions of [duplicate_points] slot 21 still holds the cell of the
    first four points, [(8, 9, 10, 11)], left flagged bad when the hole of
    the last insertion had fewer faces than bad cells. It references none
    of the slots 0..7 and the pass removes it all the same. *)
Lemma stale_cell_is_culled :
  insert_all_example duplicate_points 1 = Done (Next duplicate_build) /\
  exists c,
    get (tetrahedrons_ (b_mesh duplicate_build)) 21 = Some c /\
    indices_ c = (quad 8 9 10 11)%N /\
    touches_super c = false /\
    get (badFlags duplicate_build) 21 = Some true /\
    removedb (removed_flags (tetrahedrons_ (b_mesh duplicate_build))
                            (badFlags duplicate_build)) 21 = true /\
    map indices_ (tetrahedrons_ (culled_mesh duplicate_build)) = [quad 0 1 3 4]%N.
Proof.
  split; [vm_compute; reflexivity|].
  eexists. split; [vm_compute; reflexivity|].
  repeat split; vm_compute; reflexivity.
Qed.

(** C6 (amended): on a state whose flags run parallel to the cells, whose
    neighbour references are in range and which has the 8 corner vertices,
    the pass after the last insertion runs to its end and
    - removes exactly the cells that reference one of the vertex slots 0..7
      or are still flagged bad (slots the insertions left over);
    - numbers the cells that stay from 0 on, without a gap and in their
      order, the removed cells getting no index;
    - gives every cell that stays its neighbours remapped: none stays none,
      a removed cell becomes none, a cell that stays becomes its new index;
    - drops the first 8 vertices and subtracts 8 from every vertex index of
      the cells that stay.
    With assertions on the pass gives the same mesh when it ends. *)
Theorem post_pass_culls_and_renumbers (b : Build) :
  let cells := tetrahedrons_ (b_mesh b) in
  let flags := badFlags b in
  let removed := removed_flags cells flags in
  let newIndices := ranks removed 0 in
  let m := culled_mesh b in
  length flags = length cells ->
  neighbors_in_range cells ->
  (8 <= size (vertices_ (b_mesh b)))%N ->
  cull_and_renumber false b = Done m /\
  (forall m', cull_and_renumber true b = Done m' -> m' = m) /\
  (* which cells are removed *)
  (forall i c f, get cells i = Some c -> get flags i = Some f ->
     removedb removed i = f || existsb (fun v => (v <? 8)%N) (qlist (indices_ c))) /\
  (forall i c, get cells i = Some c -> removedb removed i = true ->
     get newIndices i = Some M_MAX_UNSIGNED) /\
  (* the cells that stay, densely renumbered *)
  (forall i c, get cells i = Some c -> removedb removed i = false ->
     exists r, get newIndices i = Some r /\
       get (tetrahedrons_ m) r
       = Some (mkTet (qmap sub8 (indices_ c))
                     (qmap (remapped newIndices) (neighbors_ c)) (matrix_ c)) /\
       quad_all (fun v => (8 <= v)%N) (indices_ c)) /\
  (forall r c', get (tetrahedrons_ m) r = Some c' ->
     exists i c, get cells i = Some c /\ removedb removed i = false /\
                 get newIndices i = Some r) /\
  (forall i j ri rj, (i < j)%N ->
     removedb removed i = false -> removedb removed j = false ->
     get newIndices i = Some ri -> get newIndices j = Some rj -> (ri < rj)%N) /\
  (* the neighbour references *)
  (remapped newIndices M_MAX_UNSIGNED = M_MAX_UNSIGNED /\
   (forall n, removedb removed n = true -> remapped newIndices n = M_MAX_UNSIGNED) /\
   (forall n r, n <> M_MAX_UNSIGNED -> get newIndices n = Some r ->
      remapped newIndices n = r)) /\
  (* the vertices *)
  vertices_ m = skipn 8 (vertices_ (b_mesh b)) /\
  (forall v, (8 <= v < 4294967296)%N -> sub8 v = (v - 8)%N).
Proof.
  intros cells flags removed newIndices m Hlen Hrange Hv.
  pose proof (cull_and_renumber_release b Hlen Hrange Hv) as Hrun.
  assert (Hlr : length removed = length cells).
  { apply removed_flags_length. exact Hlen. }
  assert (Hget : forall i c, get cells i = Some c ->
            exists f, get flags i = Some f /\
                      get removed i = Some (f || touches_super c)).
  { intros i c Hc. destruct (get_some flags i) as [f Hf].
    - apply get_lt in Hc. unfold size in *. lia.
    - exists f. split; [exact Hf|]. apply removed_flags_get; assumption. }
  split; [exact Hrun|].
  split.
  { intros m' H'. apply cull_and_renumber_refines in H'.
    fold m in Hrun. congruence. }
  split.
  { intros i c f Hc Hf. destruct (Hget i c Hc) as [f' [Hf' Hr]].
    unfold removedb. rewrite Hr. replace f' with f by congruence. reflexivity. }
  split.
  { intros i c Hc Hr. destruct (Hget i c Hc) as [f [_ Hrem]].
    unfold removedb in Hr. rewrite Hrem in Hr.
    apply ranks_get_removed. rewrite Hrem, Hr. reflexivity. }
  split.
  { intros i c Hc Hr. destruct (Hget i c Hc) as [f [_ Hrem]].
    unfold removedb in Hr. rewrite Hrem in Hr. rewrite Hr in Hrem.
    destruct (ranks_survivor cells removed 0 i Hc Hrem) as [r [H1 H2]].
    exists r. rewrite N.add_0_l in H1. split; [exact H1|]. split.
    - unfold m, culled_mesh. simpl. fold cells flags removed newIndices.
      rewrite get_nth_error, nth_error_map, <- get_nth_error, H2. reflexivity.
    - apply orb_false_iff in Hr. destruct Hr as [_ Ht].
      unfold touches_super in Ht. destruct (indices_ c) as [i0 i1 i2 i3].
      simpl in *.
      repeat (apply orb_false_iff in Ht; destruct Ht as [? Ht]).
      repeat split; apply N.ltb_ge; assumption. }
  split.
  { intros r c' Hc'. unfold m, culled_mesh in Hc'. simpl in Hc'.
    fold cells flags removed newIndices in Hc'.
    rewrite get_nth_error, nth_error_map, <- get_nth_error in Hc'.
    destruct (get (survivors cells removed) r) as [c|] eqn:E; [|discriminate].
    destruct (survivor_source cells removed 0 r Hlr E) as [i [H1 [H2 H3]]].
    exists i, c. rewrite N.add_0_l in H3. unfold removedb. rewrite H2. auto. }
  split.
  { intros i j ri rj Hij Hi Hj Hri Hrj.
    assert (Hfalse : forall k, removedb removed k = false ->
              (k < size removed)%N -> get removed k = Some false).
    { intros k Hk Hlt. destruct (get_some removed k Hlt) as [x Hx].
      unfold removedb in Hk. rewrite Hx in Hk. congruence. }
    assert (Hsz : forall k r, get newIndices k = Some r -> (k < size removed)%N).
    { intros k r Hk. apply get_lt in Hk. unfold newIndices, size in *.
      rewrite ranks_length in Hk. exact Hk. }
    apply (@ranks_increasing removed 0%N i j ri rj Hij);
      [apply Hfalse; eauto | apply Hfalse; eauto | exact Hri | exact Hrj]. }
  split.
  { split; [reflexivity|]. split.
    - intros n Hn.
      assert (Hc : cleared removed n M_MAX_UNSIGNED)
        by (right; split; [reflexivity | exact Hn]).
      unfold newIndices.
      rewrite <- (@remapped_cleared removed n M_MAX_UNSIGNED Hc). reflexivity.
    - intros n r Hn Hr. unfold remapped. rewrite Hr.
      destruct (N.eqb_spec n M_MAX_UNSIGNED); [contradiction | reflexivity]. }
  split; [reflexivity|].
  apply sub8_minus.
Qed.

Lemma neighbors_in_rangeb_ok cells :
  neighbors_in_rangeb cells = true -> neighbors_in_range cells.
Proof.
  unfold neighbors_in_rangeb, neighbors_in_range. intro H.
  apply Forall_forall. intros c Hc.
  pose proof (proj1 (forallb_forall _ _) H c Hc) as Hq.
  cbv beta in Hq. revert Hq. destruct (neighbors_ c) as [a0 a1 a2 a3]. intro Hq.
  cbn [qlist forallb quad_all] in *.
  repeat (apply andb_true_iff in Hq; destruct Hq as [? Hq]).
  assert (Hone : forall a, (a =? M_MAX_UNSIGNED)%N || (a <? size cells)%N = true ->
            a = M_MAX_UNSIGNED \/ (a < size cells)%N).
  { intros a E. apply orb_true_iff in E. destruct E as [E|E];
      [left; apply N.eqb_eq, E | right; apply N.ltb_lt, E]. }
  repeat split; apply Hone; assumption.
Qed.

Lemma post_pass_culls_and_renumbers_witness :
  cull_and_renumber false duplicate_build = Done (culled_mesh duplicate_build) /\
  map indices_ (tetrahedrons_ (culled_mesh duplicate_build)) = [quad 0 1 3 4]%N.
Proof.
  assert (Hlen : length (badFlags duplicate_build)
                 = length (tetrahedrons_ (b_mesh duplicate_build)))
    by (vm_compute; reflexivity).
  assert (Hrange : neighbors_in_range (tetrahedrons_ (b_mesh duplicate_build))).
  { apply neighbors_in_rangeb_ok. vm_compute. reflexivity. }
  assert (Hv : (8 <= size (vertices_ (b_mesh duplicate_build)))%N)
    by (vm_compute; discriminate).
  split.
  - exact (proj1 (post_pass_culls_and_renumbers duplicate_build Hlen Hrange Hv)).
  - vm_compute. reflexivity.
Defined.

(** ** Fatal violations and assertions *)

Section Violations.
Variable sqrtQ : Q -> Q.
Variables M_EPSILON M_LARGE_EPSILON tolerance : Q.

Lemma degenerate_circumsphere_aborts (p0 p1 p2 p3 : Vector3) :
  ~ M_EPSILON
    < Qabs_ (2 * DotProduct (v3_sub p1 p0)
                   (CrossProduct (v3_sub p2 p0) (v3_sub p3 p0))) ->
  circumsphere_of_points true sqrtQ M_EPSILON M_LARGE_EPSILON p0 p1 p2 p3
  = Fail (AssertionFailed DegenerateCircumsphere).
Proof.
  intro H. unfold circumsphere_of_points.
  destruct (Qltb M_EPSILON _) eqn:E.
  - apply Qltb_lt in E. contradiction.
  - reflexivity.
Qed.

Lemma no_containing_cell_aborts (position : Vector3) (b : Build) :
  find_first_bad (push_vertex b position) position
                 (length (tetrahedrons_ (b_mesh b))) 0 = Done None ->
  insert_point true sqrtQ M_EPSILON M_LARGE_EPSILON position b
  = Fail (AssertionFailed NoContainingCell).
Proof.
  intro H. unfold insert_point. simpl. simpl in H. rewrite H. reflexivity.
Qed.

Lemma open_hole_aborts (position : Vector3) (b : Build)
  (cellIndex : N) (flags : list bool) (s : Search) :
  find_first_bad (push_vertex b position) position
                 (length (tetrahedrons_ (b_mesh b))) 0 = Done (Some cellIndex) ->
  put Arr_badFlags (badFlags b) cellIndex true = Done flags ->
  breadth_search (S (length flags)) (push_vertex b position) position 0
    (mkSearch flags [cellIndex] [cellIndex] Surface_Clear) = Done (Some s) ->
  IsClosedSurface (holeSurface s) = false ->
  insert_point true sqrtQ M_EPSILON M_LARGE_EPSILON position b
  = Fail (AssertionFailed HoleNotClosed).
Proof.
  intros Hfirst Hput Hsearch Hopen. unfold insert_point.
  cbn [b_mesh push_vertex tetrahedrons_] in *.
  rewrite Hfirst. cbn [bind].
  cbn [badFlags push_vertex]. rewrite Hput. cbn [bind].
  rewrite Hsearch. cbn [bind]. rewrite Hopen. reflexivity.
Qed.

(** With assertions on an insertion never returns from the function. *)
Lemma insert_point_no_return (position : Vector3) (b : Build) r :
  insert_point true sqrtQ M_EPSILON M_LARGE_EPSILON position b = Done r ->
  exists b', r = Next b'.
Proof.
  unfold insert_point. intro H. inv_bind H.
  destruct a as [cellIndex|].
  - inv_bind H. inv_bind H. destruct a0 as [s|]; [|discriminate].
    destruct (negb (IsClosedSurface (holeSurface s))).
    + simpl in H. discriminate.
    + destruct (grow _ _ _) as [b1 cells].
      inv_bind H. inv_done H. eauto.
  - simpl in H. discriminate.
Qed.

Lemma for_each_no_return positions : forall b r,
  for_each positions (insert_point true sqrtQ M_EPSILON M_LARGE_EPSILON) b
    = Done r ->
  exists b', r = Next b'.
Proof.
  induction positions as [|p l IH]; intros b r H; simpl in H.
  - inv_done H. eauto.
  - inv_bind H. destruct (insert_point_no_return _ _ Ha) as [b1 ->]. eauto.
Qed.

Lemma insert_all_no_return mesh positions r :
  insert_all true sqrtQ M_EPSILON M_LARGE_EPSILON mesh positions = Done r ->
  exists b, r = Next b.
Proof.
  unfold insert_all. intro H. inv_bind H. eapply for_each_no_return; eauto.
Qed.

Lemma insert_all_fails asserts mesh done position rest b f :
  insert_all asserts sqrtQ M_EPSILON M_LARGE_EPSILON mesh done = Done (Next b) ->
  insert_point asserts sqrtQ M_EPSILON M_LARGE_EPSILON position b = Fail f ->
  AddTetrahedralMeshVertices asserts sqrtQ M_EPSILON M_LARGE_EPSILON tolerance
    mesh (done ++ position :: rest) = Fail f.
Proof.
  unfold AddTetrahedralMeshVertices, insert_all. intros H Hp.
  destruct (init_build _ _ _ _ mesh) as [b0|]; simpl in *; [|discriminate].
  rewrite for_each_app, H. simpl. rewrite Hp. reflexivity.
Qed.
End Violations.

(** ** The inverse basis *)

Unset Implicit Arguments.

Lemma Inverse_columns (a1 a2 a3 b1 b2 b3 c1 c2 c3 : Q) (m : Matrix3) :
  Inverse (mat3 a1 a2 a3 b1 b2 b3 c1 c2 c3) = Done m ->
  v3_eq (mat_mul_vec m (vec3 a1 b1 c1)) (vec3 1 0 0) /\
  v3_eq (mat_mul_vec m (vec3 a2 b2 c2)) (vec3 0 1 0) /\
  v3_eq (mat_mul_vec m (vec3 a3 b3 c3)) (vec3 0 0 1).
Proof.
  unfold Inverse. destruct (Qeq_bool _ 0) eqn:E; [discriminate|].
  intro H. injection H as <-.
  assert (Hdet : ~ determinant (mat3 a1 a2 a3 b1 b2 b3 c1 c2 c3) == 0).
  { intro C. apply Qeq_bool_iff in C. congruence. }
  clear E. unfold determinant in *.
  cbn [m00 m01 m02 m10 m11 m12 m20 m21 m22] in *.
  unfold v3_eq, mat_mul_vec.
  cbn [m00 m01 m02 m10 m11 m12 m20 m21 m22 x_ y_ z_].
  repeat split; field; exact Hdet.
Qed.

Lemma Inverse_columns_vec (u1 u2 u3 : Vector3) (m : Matrix3) :
  Inverse (mat3 (x_ u1) (x_ u2) (x_ u3) (y_ u1) (y_ u2) (y_ u3)
                (z_ u1) (z_ u2) (z_ u3)) = Done m ->
  v3_eq (mat_mul_vec m u1) (vec3 1 0 0) /\
  v3_eq (mat_mul_vec m u2) (vec3 0 1 0) /\
  v3_eq (mat_mul_vec m u3) (vec3 0 0 1).
Proof.
  destruct u1 as [a1 b1 c1], u2 as [a2 b2 c2], u3 as [a3 b3 c3].
  cbn [x_ y_ z_]. apply Inverse_columns.
Qed.

Lemma coords_in_of (m : Matrix3) (p0 p : Vector3) (w x y z : Q) :
  v3_eq (mat_mul_vec m (v3_sub p p0)) (vec3 x y z) ->
  w == 1 - x - y - z ->
  v4_eq (coords_in m p0 p) (vec4 w x y z).
Proof.
  unfold coords_in, v4_eq, v3_eq. cbn [wx wy wz ww x_ y_ z_].
  intros [X [Y Z]] W. rewrite X, Y, Z, W. repeat split; reflexivity.
Qed.

Lemma mat_mul_vec_zero (m : Matrix3) (p : Vector3) :
  v3_eq (mat_mul_vec m (v3_sub p p)) (vec3 0 0 0).
Proof.
  destruct p as [px py pz], m as [a b c d e f g h k].
  unfold v3_eq, mat_mul_vec, v3_sub.
  cbn [m00 m01 m02 m10 m11 m12 m20 m21 m22 x_ y_ z_]. repeat split; ring.
Qed.

Lemma Inverse_round_trip (p0 p1 p2 p3 : Vector3) (m : Matrix3) :
  Inverse (basis_matrix p0 p1 p2 p3) = Done m ->
  v4_eq (coords_in m p0 p0) (vec4 1 0 0 0) /\
  v4_eq (coords_in m p0 p1) (vec4 0 1 0 0) /\
  v4_eq (coords_in m p0 p2) (vec4 0 0 1 0) /\
  v4_eq (coords_in m p0 p3) (vec4 0 0 0 1).
Proof.
  intro H. unfold basis_matrix in H. cbv zeta in H.
  apply Inverse_columns_vec in H.
  destruct H as [C1 [C2 C3]].
  split; [apply coords_in_of; [apply mat_mul_vec_zero | reflexivity]|].
  split; [apply coords_in_of; [exact C1 | reflexivity]|].
  split; [apply coords_in_of; [exact C2 | reflexivity]|].
  apply coords_in_of; [exact C3 | reflexivity].
Qed.

Lemma cell_points_done mesh cell i0 i1 i2 i3 p0 p1 p2 p3 :
  indices_ cell = quad i0 i1 i2 i3 ->
  get (vertices_ mesh) i0 = Some p0 -> get (vertices_ mesh) i1 = Some p1 ->
  get (vertices_ mesh) i2 = Some p2 -> get (vertices_ mesh) i3 = Some p3 ->
  cell_points mesh cell = Some (p0, p1, p2, p3).
Proof.
  intros Hi H0 H1 H2 H3. unfold cell_points. rewrite Hi, H0, H1, H2, H3.
  reflexivity.
Qed.

(** What [set_matrix] does when it ends, with or without assertions. *)
Lemma set_matrix_done asserts tolerance i mesh mesh' :
  set_matrix asserts tolerance i mesh = Done mesh' ->
  exists cell p0 p1 p2 p3 m cells',
    get (tetrahedrons_ mesh) i = Some cell /\
    cell_points mesh cell = Some (p0, p1, p2, p3) /\
    Inverse (basis_matrix p0 p1 p2 p3) = Done m /\
    set (tetrahedrons_ mesh) i (mkTet (indices_ cell) (neighbors_ cell) m)
      = Some cells' /\
    mesh' = set_tetrahedrons mesh cells'.
Proof.
  unfold set_matrix. intro H. inv_bind H. apply at_done in Ha.
  destruct (indices_ a) as [i0 i1 i2 i3] eqn:Ei.
  inv_bind H. inv_bind H. inv_bind H. inv_bind H.
  apply at_done in Ha0, Ha1, Ha2, Ha3.
  inv_bind H. inv_bind H. apply put_done in Ha5.
  exists a, a0, a1, a2, a3, a4, a5.
  split; [exact Ha|].
  split; [eapply cell_points_done; eauto|].
  split; [exact Ha4|].
  split; [rewrite Ei; exact Ha5|].
  destruct asserts.
  - repeat inv_bind H. inv_done H. reflexivity.
  - inv_done H. reflexivity.
Qed.

Lemma basis_round_trip_intro mesh i cell p0 p1 p2 p3 :
  get (tetrahedrons_ mesh) i = Some cell ->
  cell_points mesh cell = Some (p0, p1, p2, p3) ->
  Inverse (basis_matrix p0 p1 p2 p3) = Done (matrix_ cell) ->
  basis_round_trip mesh i.
Proof.
  intros Hc Hp Hm.
  destruct (Inverse_round_trip _ _ _ _ _ Hm) as [R0 [R1 [R2 R3]]].
  assert (Hbase : forall position,
            GetInnerBarycentricCoords mesh i position
            = Done (coords_in (matrix_ cell) p0 position)).
  { intro position. unfold GetInnerBarycentricCoords, at_. rewrite Hc.
    cbn [bind]. unfold cell_points in Hp.
    destruct (indices_ cell) as [i0 i1 i2 i3].
    destruct (get (vertices_ mesh) i0) as [q0|]; [|discriminate].
    destruct (get (vertices_ mesh) i1) as [q1|]; [|discriminate].
    destruct (get (vertices_ mesh) i2) as [q2|]; [|discriminate].
    destruct (get (vertices_ mesh) i3) as [q3|]; [|discriminate].
    injection Hp as -> _ _ _. reflexivity. }
  exists cell, p0, p1, p2, p3.
  exists (coords_in (matrix_ cell) p0 p0), (coords_in (matrix_ cell) p0 p1),
    (coords_in (matrix_ cell) p0 p2), (coords_in (matrix_ cell) p0 p3).
  repeat (split; [first [assumption | apply Hbase]|]). exact R3.
Qed.

(** The round trip of a cell only depends on the cell and the vertices. *)
Lemma basis_round_trip_stable mesh mesh' i :
  vertices_ mesh' = vertices_ mesh ->
  get (tetrahedrons_ mesh') i = get (tetrahedrons_ mesh) i ->
  basis_round_trip mesh i -> basis_round_trip mesh' i.
Proof.
  intros Hv Hc [cell [p0 [p1 [p2 [p3 [w0 [w1 [w2 [w3 H]]]]]]]]].
  destruct H as [H1 [H2 [G0 [E0 [G1 [E1 [G2 [E2 [G3 E3]]]]]]]]].
  assert (Hsame : forall position,
            GetInnerBarycentricCoords mesh' i position
            = GetInnerBarycentricCoords mesh i position).
  { intro position. unfold GetInnerBarycentricCoords, at_. rewrite Hc, Hv.
    reflexivity. }
  exists cell, p0, p1, p2, p3, w0, w1, w2, w3.
  rewrite !Hsame, Hc. unfold cell_points in *. rewrite Hv.
  repeat (split; [assumption|]). assumption.
Qed.

(** After the loop over the cells every cell has its round trip. *)
Lemma set_matrix_loop asserts tolerance mesh m :
  for_loop (length (tetrahedrons_ mesh)) 0 (set_matrix asserts tolerance) mesh
    = Done m ->
  vertices_ m = vertices_ mesh /\
  length (tetrahedrons_ m) = length (tetrahedrons_ mesh) /\
  forall i, (i < size (tetrahedrons_ m))%N -> basis_round_trip m i.
Proof.
  intro H.
  pose (P := fun (k : N) (mk : TetrahedralMesh) =>
    vertices_ mk = vertices_ mesh /\
    length (tetrahedrons_ mk) = length (tetrahedrons_ mesh) /\
    forall i, (i < k)%N -> basis_round_trip mk i).
  assert (HP : P (0 + N.of_nat (length (tetrahedrons_ mesh)))%N m).
  { apply (@for_loop_ind _ P (set_matrix asserts tolerance)
             (length (tetrahedrons_ mesh)) 0%N mesh m); [| |exact H].
    - intros i s s' Hi [Hv [Hl Hrt]] Hs.
      destruct (set_matrix_done _ _ _ _ _ Hs)
        as [cell [p0 [p1 [p2 [p3 [mi [cells' [Hc [Hp [Hinv [Hset ->]]]]]]]]]]].
      unfold P. cbn [set_tetrahedrons vertices_ tetrahedrons_].
      split; [exact Hv|].
      split; [rewrite (set_length _ _ _ Hset); exact Hl|].
      intros j Hj. destruct (N.eq_dec j i) as [->|Hji].
      + apply (@basis_round_trip_intro _ i
                 (mkTet (indices_ cell) (neighbors_ cell) mi) p0 p1 p2 p3).
        * cbn [tetrahedrons_]. apply (get_set_same _ _ _ Hset).
        * exact Hp.
        * exact Hinv.
      + apply (@basis_round_trip_stable s).
        * reflexivity.
        * cbn [tetrahedrons_].
          eapply get_set_other; [exact Hset | exact Hji].
        * apply Hrt. lia.
    - unfold P. repeat split. intros i Hi. lia. }
  destruct HP as [Hv [Hl Hrt]]. repeat split; auto.
  intros i Hi. apply Hrt. unfold size in Hi. lia.
Qed.

Lemma finish_round_trip asserts tolerance mesh m :
  finish asserts tolerance mesh = Done m ->
  forall i, (i < size (tetrahedrons_ m))%N -> basis_round_trip m i.
Proof.
  unfold finish. intro H. inv_bind H.
  apply set_matrix_loop in Ha. destruct Ha as [_ [_ Hrt]].
  destruct asserts.
  - inv_bind H. inv_bind H. inv_done H. exact Hrt.
  - inv_done H. exact Hrt.
Qed.

(** Equal vectors are equal within every tolerance. *)
Lemma v4_eq_Equals (tolerance : Q) (a b : Vector4) :
  0 <= tolerance -> v4_eq a b -> Equals tolerance a b = true.
Proof.
  intros Ht [Hx [Hy [Hz Hw]]]. unfold Equals.
  repeat (apply andb_true_intro; split); apply Qle_bool_iff; lra.
Qed.

(** C9: in a mesh that the post-pass has returned, with or without
    assertions, the barycentric coordinates of every cell at its own vertex
    [i] are the [i]-th unit vector, exactly in the rational idealisation and
    so within every tolerance. Every mesh that [Define] returns after the
    loop over the positions came to its end is such a mesh, and in a build
    with assertions [Define] returns no other mesh. *)
Theorem basis_round_trip_of_built_mesh
  (sqrtQ : Q -> Q) (M_EPSILON M_LARGE_EPSILON tolerance : Q) :
  (forall asserts b m,
     post_pass asserts tolerance b = Done m ->
     forall i, (i < size (tetrahedrons_ m))%N -> basis_round_trip m i) /\
  (forall mesh0 positions padding m,
     Define true sqrtQ M_EPSILON M_LARGE_EPSILON tolerance mesh0 positions padding
       = Done m ->
     forall i, (i < size (tetrahedrons_ m))%N -> basis_round_trip m i) /\
  (forall asserts mesh0 positions padding b m,
     insert_all asserts sqrtQ M_EPSILON M_LARGE_EPSILON
       (InitializeSuperMesh mesh0
          (mkBox (v3_sub (min_ (BoundingBox_of positions))
                         (v3_scale padding v3_ONE))
                 (v3_add (max_ (BoundingBox_of positions))
                         (v3_scale padding v3_ONE))))
       positions = Done (Next b) ->
     Define asserts sqrtQ M_EPSILON M_LARGE_EPSILON tolerance mesh0 positions
       padding = Done m ->
     forall i, (i < size (tetrahedrons_ m))%N -> basis_round_trip m i) /\
  (forall tolerance' w unit,
     0 <= tolerance' -> v4_eq w unit -> Equals tolerance' w unit = true).
Proof.
  assert (Hpost : forall asserts b m,
     post_pass asserts tolerance b = Done m ->
     forall i, (i < size (tetrahedrons_ m))%N -> basis_round_trip m i).
  { intros asserts b m H. unfold post_pass in H. inv_bind H.
    eapply finish_round_trip; eauto. }
  split; [exact Hpost|].
  split.
  { intros mesh0 positions padding m H.
    rewrite Define_eq in H. inv_bind H.
    destruct (@insert_all_no_return _ _ _ _ _ _ Ha) as [b ->].
    eapply Hpost; eauto. }
  split.
  { intros asserts mesh0 positions padding b m Hb H.
    rewrite Define_eq, Hb in H. cbn [bind] in H.
    eapply Hpost. exact H. }
  intros tolerance' w unit. apply v4_eq_Equals.
Qed.

Lemma basis_round_trip_of_built_mesh_witness :
  Define_example true duplicate_points 1 = Done duplicate_mesh /\
  (0 < size (tetrahedrons_ duplicate_mesh))%N /\
  basis_round_trip duplicate_mesh 0.
Proof.
  assert (H : Define_example true duplicate_points 1 = Done duplicate_mesh)
    by (vm_compute; reflexivity).
  assert (Hi : (0 < size (tetrahedrons_ duplicate_mesh))%N)
    by (vm_compute; reflexivity).
  split; [exact H|]. split; [exact Hi|].
  exact (proj1 (proj2 (basis_round_trip_of_built_mesh sqrt_approx
                         EPSILON_example LARGE_EPSILON_example
                         tolerance_example))
               Mesh_empty duplicate_points 1 duplicate_mesh H 0%N Hi).
Defined.

(** ** The search only looks at the cells, the flags and the containment *)

Lemma for_loop_ext {St} (body1 body2 : N -> St -> Outcome St) :
  (forall i s, body1 i s = body2 i s) ->
  forall n i s, for_loop n i body1 s = for_loop n i body2 s.
Proof.
  intro Hb. induction n as [|n IH]; intros i s; simpl; [reflexivity|].
  rewrite Hb. destruct (body2 i s); simpl; auto.
Qed.

Lemma bad_test_at (b b' : Build) (p p' : Vector3) (i : N) {A}
  (k : bool -> Outcome A) :
  bad_test b p i = bad_test b' p' i ->
  (sphere <- at_ Arr_circumspheres (circumspheres b) i ;; k (contains sphere p))
  = (sphere <- at_ Arr_circumspheres (circumspheres b') i ;; k (contains sphere p')).
Proof.
  unfold bad_test, at_.
  destruct (get (circumspheres b) i), (get (circumspheres b') i);
    intro H; try discriminate; simpl; [|reflexivity].
  injection H as ->. reflexivity.
Qed.

Section SearchCongruence.
Variables b b' : Build.
Variables p p' : Vector3.
Hypothesis Hcells : tetrahedrons_ (b_mesh b) = tetrahedrons_ (b_mesh b').
Hypothesis Htest : forall i, bad_test b p i = bad_test b' p' i.

Lemma find_first_bad_congr :
  badFlags b = badFlags b' ->
  forall n i, find_first_bad b p n i = find_first_bad b' p' n i.
Proof.
  intro Hflags. induction n as [|n IH]; intro i; simpl; [reflexivity|].
  rewrite Hflags. destruct (at_ Arr_badFlags (badFlags b') i) as [[|]|];
    simpl; auto.
  rewrite IH.
  apply (@bad_test_at b b' p p' i _
           (fun c => if c then Done (Some i)
                     else find_first_bad b' p' n (i + 1)%N)).
  apply Htest.
Qed.

Lemma visit_neighbor_congr current tetrahedron j s :
  visit_neighbor b p current tetrahedron j s
  = visit_neighbor b' p' current tetrahedron j s.
Proof.
  unfold visit_neighbor. rewrite Hcells.
  destruct (qat Arr_neighbors (neighbors_ tetrahedron) j) as [n|]; simpl; auto.
  destruct (n =? M_MAX_UNSIGNED)%N; auto.
  destruct (at_ Arr_tetrahedrons (tetrahedrons_ (b_mesh b')) n) as [nt|];
    simpl; auto.
  destruct (at_ Arr_badFlags (s_badFlags s) n) as [[|]|]; simpl; auto.
  apply (@bad_test_at b b' p p' n _
           (fun c => if c
              then flags <- put Arr_badFlags (s_badFlags s) n true ;;
                   Done (mkSearch flags (badCells s ++ [n])
                                  (searchQueue s ++ [n]) (holeSurface s))
              else newFace <- GetTriangleFace nt (find4 (neighbors_ nt) current)
                                n (find4 (neighbors_ nt) current) ;;
                   Done (mkSearch (s_badFlags s) (badCells s) (searchQueue s)
                                  (AddFace (holeSurface s) newFace)))).
  apply Htest.
Qed.

Lemma visit_batch_congr firstCell lastCell s :
  visit_batch b p firstCell lastCell s = visit_batch b' p' firstCell lastCell s.
Proof.
  unfold visit_batch. apply for_loop_ext. intros i s0. rewrite Hcells.
  destruct (at_ Arr_searchQueue (searchQueue s0) i) as [c|]; cbn [bind];
    auto.
  destruct (at_ Arr_tetrahedrons (tetrahedrons_ (b_mesh b')) c) as [t|];
    cbn [bind]; auto.
  apply for_loop_ext. intros. apply visit_neighbor_congr.
Qed.

Lemma breadth_search_congr : forall fuel firstCell s,
  breadth_search fuel b p firstCell s = breadth_search fuel b' p' firstCell s.
Proof.
  induction fuel as [|fuel IH]; intros firstCell s; simpl; [reflexivity|].
  destruct (firstCell <? size (searchQueue s))%N; [|reflexivity].
  rewrite visit_batch_congr.
  destruct (visit_batch b' p' firstCell (size (searchQueue s)) s); simpl; auto.
Qed.
End SearchCongruence.

(** ** The new cells only depend on the geometry through their circumspheres *)

Lemma grow_shadow n : forall b b' cells b1' cells1,
  same_topology b b' ->
  grow n b' cells = (b1', cells1) ->
  exists b1, grow n b cells = (b1, cells1) /\ same_topology b1 b1' /\
             vertices_ (b_mesh b1) = vertices_ (b_mesh b) /\
             hullNormals_ (b_mesh b1) = hullNormals_ (b_mesh b).
Proof.
  induction n as [|n IH]; intros b b' cells b1' cells1 Hs H; simpl in *.
  - inv_done H. exists b. repeat split; try reflexivity; apply Hs.
  - destruct Hs as [Hc [Hf Hl]].
    rewrite <- Hc in H.
    apply IH with (b := mkBuild
                    (set_tetrahedrons (b_mesh b)
                       (tetrahedrons_ (b_mesh b) ++ [Tetrahedron_default]))
                    (circumspheres b ++ [Sphere_default])
                    (badFlags b ++ [true])) in H.
    + destruct H as [b1 [Hg [Hs1 [Hv Hn]]]].
      exists b1. repeat split; try apply Hs1; assumption.
    + unfold same_topology. cbn [b_mesh circumspheres badFlags].
      rewrite Hf, !length_app, Hl. repeat split; reflexivity.
Qed.

Section Shadow.
(** The build under study and a build with other parameters. *)
Variables asserts asserts' : bool.
Variables sqrtQ sqrtQ' : Q -> Q.
Variables M_EPSILON M_LARGE_EPSILON M_EPSILON' M_LARGE_EPSILON' : Q.

Lemma put_length_some {A} a (l l' l2 : list A) i v v' :
  length l = length l2 -> put a l2 i v' = Done l' ->
  exists l1, put a l i v = Done l1 /\ length l1 = length l'.
Proof.
  intros Hl H. apply put_done in H.
  destruct (@set_some _ l i v) as [l1 H1].
  { apply set_lt in H. unfold size in *. lia. }
  exists l1. split; [apply put_done; exact H1|].
  rewrite (set_length _ _ _ H1), (set_length _ _ _ H). exact Hl.
Qed.

Lemma make_cell_shadow cells surface newIndex i b b' b1' :
  same_topology b b' ->
  make_cell asserts' sqrtQ' M_EPSILON' M_LARGE_EPSILON' cells surface newIndex i b'
    = Done b1' ->
  (forall nci, get cells i = Some nci ->
     exists s,
       GetTetrahedronCircumsphere asserts sqrtQ M_EPSILON M_LARGE_EPSILON
         (set_tetrahedrons (b_mesh b) (tetrahedrons_ (b_mesh b1'))) nci = Done s) ->
  exists b1,
    make_cell asserts sqrtQ M_EPSILON M_LARGE_EPSILON cells surface newIndex i b
      = Done b1 /\
    same_topology b1 b1' /\
    vertices_ (b_mesh b1) = vertices_ (b_mesh b) /\
    hullNormals_ (b_mesh b1) = hullNormals_ (b_mesh b).
Proof.
  intros [Hc [Hf Hl]] H Hgeo. unfold make_cell in *.
  rewrite Hc, Hf.
  inv_bind H. rewrite Ha. cbn [bind].
  inv_bind H. rewrite Ha0. cbn [bind].
  inv_bind H. rewrite Ha1. cbn [bind].
  destruct (tri_indices_ a1) as [f0 f1 f2].
  destruct (tri_neighbors_ a1) as [g0 g1 g2].
  inv_bind H. rewrite Ha2. cbn [bind].
  inv_bind H. rewrite Ha3. cbn [bind].
  inv_bind H. rewrite Ha4. cbn [bind].
  inv_bind H. rewrite Ha5. cbn [bind].
  inv_bind H. rewrite Ha6. cbn [bind].
  inv_bind H. rewrite Ha7. cbn [bind].
  inv_bind H. inv_bind H. inv_done H.
  cbn [b_mesh tetrahedrons_ set_tetrahedrons] in Hgeo.
  apply at_done in Ha.
  destruct (Hgeo _ Ha) as [s Hs].
  unfold set_tetrahedrons in *. rewrite Hs. cbn [bind].
  destruct (@put_length_some _ Arr_circumspheres (circumspheres b) a9
              (circumspheres b') a s a8 Hl Ha9) as [l1 [Hput Hlen]].
  rewrite Hput. cbn [bind].
  eexists. split; [reflexivity|].
  repeat split; simpl; auto.
Qed.
End Shadow.

(** ** What one new cell changes *)

Section MakeCell.
Variable asserts : bool.
Variable sqrtQ : Q -> Q.
Variables M_EPSILON M_LARGE_EPSILON : Q.

Lemma make_cell_done cells surface newIndex i b b1 :
  make_cell asserts sqrtQ M_EPSILON M_LARGE_EPSILON cells surface newIndex i b
    = Done b1 ->
  exists nci old face f0 f1 f2 g0 g1 g2 n0 n1 n2 cells1 cells2 flags1,
    get cells i = Some nci /\
    get (tetrahedrons_ (b_mesh b)) nci = Some old /\
    get (faces_ surface) i = Some face /\
    tri_indices_ face = triple f0 f1 f2 /\
    tri_neighbors_ face = triple g0 g1 g2 /\
    get cells g0 = Some n0 /\ get cells g1 = Some n1 /\ get cells g2 = Some n2 /\
    set (tetrahedrons_ (b_mesh b)) nci
        (mkTet (quad f0 f1 f2 newIndex) (quad n0 n1 n2 (tetIndex_ face))
               (matrix_ old)) = Some cells1 /\
    ((tetIndex_ face = M_MAX_UNSIGNED /\ cells2 = cells1) \/
     (tetIndex_ face <> M_MAX_UNSIGNED /\
      exists outer nb,
        get cells1 (tetIndex_ face) = Some outer /\
        qset (neighbors_ outer) (tetFace_ face) nci = Some nb /\
        set cells1 (tetIndex_ face) (mkTet (indices_ outer) nb (matrix_ outer))
          = Some cells2)) /\
    set (badFlags b) nci false = Some flags1 /\
    tetrahedrons_ (b_mesh b1) = cells2 /\
    vertices_ (b_mesh b1) = vertices_ (b_mesh b) /\
    hullNormals_ (b_mesh b1) = hullNormals_ (b_mesh b) /\
    badFlags b1 = flags1 /\
    length (circumspheres b1) = length (circumspheres b) /\
    exists sphere,
      GetTetrahedronCircumsphere asserts sqrtQ M_EPSILON M_LARGE_EPSILON
        (b_mesh b1) nci = Done sphere.
Proof.
  unfold make_cell. intro H.
  inv_bind H. apply at_done in Ha.
  inv_bind H. apply at_done in Ha0.
  inv_bind H. apply at_done in Ha1.
  destruct (tri_indices_ a1) as [f0 f1 f2] eqn:Ef.
  destruct (tri_neighbors_ a1) as [g0 g1 g2] eqn:Eg.
  inv_bind H. apply at_done in Ha2.
  inv_bind H. apply at_done in Ha3.
  inv_bind H. apply at_done in Ha4.
  inv_bind H. apply put_done in Ha5.
  inv_bind H.
  inv_bind H. apply put_done in Ha7.
  inv_bind H. inv_bind H. apply put_done in Ha9. inv_done H.
  exists a, a0, a1, f0, f1, f2, g0, g1, g2, a2, a3, a4, a5, a6, a7.
  repeat (split; [first [assumption | reflexivity]|]).
  split.
  { destruct (N.eqb_spec (tetIndex_ a1) M_MAX_UNSIGNED) as [E|E].
    - left. inv_done Ha6. auto.
    - right. split; [exact E|].
      inv_bind Ha6. apply at_done in Ha10.
      inv_bind Ha6. apply put_done in Ha6.
      unfold qput in Ha11.
      destruct (qset (neighbors_ a10) (tetFace_ a1) a) as [nb|] eqn:Eq;
        [|discriminate].
      injection Ha11 as <-. exists a10, nb. auto. }
  repeat (split; [first [assumption | reflexivity]|]).
  split; [simpl; rewrite (set_length _ _ _ Ha9); reflexivity|].
  exists a8. exact Ha8.
Qed.

(** The cell made for face [i], once its slot and its outer cell are
    written. *)
Lemma make_cell_new_cell cells surface newIndex i b b1 nci face :
  make_cell asserts sqrtQ M_EPSILON M_LARGE_EPSILON cells surface newIndex i b
    = Done b1 ->
  get cells i = Some nci ->
  get (faces_ surface) i = Some face ->
  exists c,
    get (tetrahedrons_ (b_mesh b1)) nci = Some c /\
    indices_ c = quad (tnth (tri_indices_ face) 0) (tnth (tri_indices_ face) 1)
                      (tnth (tri_indices_ face) 2) newIndex.
Proof.
  intros H Hn Hf. apply make_cell_done in H.
  destruct H as (nci' & old & face' & f0 & f1 & f2 & g0 & g1 & g2 & n0 & n1 & n2
                 & cells1 & cells2 & flags1 & H1 & H2 & H3 & H4 & H5 & H6 & H7
                 & H8 & H9 & H10 & H11 & H12 & _).
  rewrite Hn in H1. injection H1 as <-. rewrite Hf in H3. injection H3 as <-.
  rewrite H12, H4. cbn [tnth].
  pose proof (get_set_same _ _ _ H9) as Hnew.
  destruct H10 as [[_ ->]|[Hne (outer & nb & Ho & Hq & Hs)]].
  - eexists. split; [exact Hnew | reflexivity].
  - destruct (N.eq_dec nci (tetIndex_ face)) as [E|E].
    + rewrite <- E in Ho, Hs. rewrite Hnew in Ho. injection Ho as <-.
      eexists. split; [exact (get_set_same _ _ _ Hs) | reflexivity].
    + rewrite (@get_set_other _ _ _ _ _ _ Hs E).
      eexists. split; [exact Hnew | reflexivity].
Qed.
End MakeCell.

Section ShadowLoop.
Variables asserts asserts' : bool.
Variables sqrtQ sqrtQ' : Q -> Q.
Variables M_EPSILON M_LARGE_EPSILON M_EPSILON' M_LARGE_EPSILON' : Q.

Lemma make_cell_shadow_face cells surface newIndex i b b' b1' :
  same_topology b b' ->
  make_cell asserts' sqrtQ' M_EPSILON' M_LARGE_EPSILON' cells surface newIndex i b'
    = Done b1' ->
  (forall face, get (faces_ surface) i = Some face ->
     face_sphere_ok asserts sqrtQ M_EPSILON M_LARGE_EPSILON
       (vertices_ (b_mesh b)) newIndex face) ->
  exists b1,
    make_cell asserts sqrtQ M_EPSILON M_LARGE_EPSILON cells surface newIndex i b
      = Done b1 /\
    same_topology b1 b1' /\
    vertices_ (b_mesh b1) = vertices_ (b_mesh b) /\
    hullNormals_ (b_mesh b1) = hullNormals_ (b_mesh b).
Proof.
  intros Hs H Hface.
  eapply make_cell_shadow; [exact Hs | exact H |].
  intros nci Hn.
  pose proof H as Hd. apply make_cell_done in Hd.
  destruct Hd as (nci' & old & face & ? & ? & ? & ? & ? & ? & ? & ? & ?
                 & ? & ? & ? & H1 & _ & H3 & _).
  destruct (make_cell_new_cell _ _ _ _ _ _ _ _ _ _ _ _ H Hn H3) as [c [Hc Hi]].
  destruct (Hface face H3) as (p0 & p1 & p2 & p3 & s & G0 & G1 & G2 & G3 & Hsph).
  exists s. unfold GetTetrahedronCircumsphere, at_.
  cbn [set_tetrahedrons tetrahedrons_ vertices_].
  rewrite Hc. cbn [bind]. rewrite Hi, G0, G1, G2, G3. exact Hsph.
Qed.

Lemma make_cell_loop_shadow cells surface newIndex V normals n :
  forall i b b' bn',
  same_topology b b' ->
  vertices_ (b_mesh b) = V -> hullNormals_ (b_mesh b) = normals ->
  for_loop n i
    (make_cell asserts' sqrtQ' M_EPSILON' M_LARGE_EPSILON' cells surface newIndex)
    b' = Done bn' ->
  (forall k face, (i <= k < i + N.of_nat n)%N ->
     get (faces_ surface) k = Some face ->
     face_sphere_ok asserts sqrtQ M_EPSILON M_LARGE_EPSILON V newIndex face) ->
  exists bn,
    for_loop n i
      (make_cell asserts sqrtQ M_EPSILON M_LARGE_EPSILON cells surface newIndex)
      b = Done bn /\
    same_topology bn bn' /\
    vertices_ (b_mesh bn) = V /\ hullNormals_ (b_mesh bn) = normals.
Proof.
  induction n as [|n IH]; intros i b b' bn' Hs Hv Hn H Hface; simpl in *.
  - inv_done H. exists b. auto.
  - inv_bind H.
    destruct (@make_cell_shadow_face cells surface newIndex i b b' a Hs Ha)
      as [b1 [H1 [Hs1 [Hv1 Hn1]]]].
    { intros face Hf. rewrite Hv. apply (Hface i); [lia | exact Hf]. }
    rewrite H1. cbn [bind].
    apply (IH (i + 1)%N b1 a bn' Hs1); try congruence.
    intros k face Hk. apply Hface. lia.
Qed.
End ShadowLoop.

(** ** The phases of an insertion *)

Section InsertPhases.
Variable asserts : bool.
Variable sqrtQ : Q -> Q.
Variables M_EPSILON M_LARGE_EPSILON : Q.

(** An insertion that goes on to the next one went through the scan, the
    breadth-first search with a closed hole, the growth of the cell array
    and the loop that makes the new cells. *)
Lemma insert_point_done position b b1 :
  insert_point asserts sqrtQ M_EPSILON M_LARGE_EPSILON position b = Done (Next b1) <->
  exists cellIndex flags s bg cells,
    find_first_bad (push_vertex b position) position
      (length (tetrahedrons_ (b_mesh b))) 0 = Done (Some cellIndex) /\
    put Arr_badFlags (badFlags b) cellIndex true = Done flags /\
    breadth_search (S (length flags)) (push_vertex b position) position 0
      (mkSearch flags [cellIndex] [cellIndex] Surface_Clear) = Done (Some s) /\
    IsClosedSurface (holeSurface s) = true /\
    grow (N.to_nat (Surface_Size (holeSurface s) - size (badCells s)))
      (mkBuild (b_mesh (push_vertex b position)) (circumspheres b) (s_badFlags s))
      (badCells s) = (bg, cells) /\
    for_loop (N.to_nat (Surface_Size (holeSurface s))) 0
      (make_cell asserts sqrtQ M_EPSILON M_LARGE_EPSILON cells (holeSurface s)
                 (size (vertices_ (b_mesh b)))) bg = Done b1.
Proof.
  unfold insert_point.
  cbn [b_mesh push_vertex tetrahedrons_ badFlags circumspheres].
  split.
  - intro H. inv_bind H. destruct a as [cellIndex|].
    + inv_bind H. inv_bind H. destruct a0 as [s|]; [|discriminate].
      destruct (IsClosedSurface (holeSurface s)) eqn:Ec; cbn [negb] in H.
      * destruct (grow _ _ _) as [bg cells] eqn:Eg.
        inv_bind H. inv_done H.
        exists cellIndex, a, s, bg, cells. repeat split; assumption.
      * destruct asserts; simpl in H; discriminate.
    + destruct asserts; simpl in H; discriminate.
  - intros (cellIndex & flags & s & bg & cells & H1 & H2 & H3 & H4 & H5 & H6).
    rewrite H1. cbn [bind]. rewrite H2. cbn [bind]. rewrite H3. cbn [bind].
    rewrite H4. cbn [negb]. rewrite H5, H6. reflexivity.
Qed.
End InsertPhases.

Section ShadowInsert.
Variables asserts asserts' : bool.
Variables sqrtQ sqrtQ' : Q -> Q.
Variables M_EPSILON M_LARGE_EPSILON M_EPSILON' M_LARGE_EPSILON' : Q.

Lemma insert_point_shadow p p' b b' b1' :
  same_topology b b' ->
  size (vertices_ (b_mesh b)) = size (vertices_ (b_mesh b')) ->
  (forall i, bad_test b p i = bad_test b' p' i) ->
  insert_point asserts' sqrtQ' M_EPSILON' M_LARGE_EPSILON' p' b' = Done (Next b1') ->
  (forall cellIndex flags s k face,
     find_first_bad (push_vertex b' p') p'
       (length (tetrahedrons_ (b_mesh b'))) 0 = Done (Some cellIndex) ->
     put Arr_badFlags (badFlags b') cellIndex true = Done flags ->
     breadth_search (S (length flags)) (push_vertex b' p') p' 0
       (mkSearch flags [cellIndex] [cellIndex] Surface_Clear) = Done (Some s) ->
     get (faces_ (holeSurface s)) k = Some face ->
     face_sphere_ok asserts sqrtQ M_EPSILON M_LARGE_EPSILON
       (vertices_ (b_mesh b) ++ [p]) (size (vertices_ (b_mesh b))) face) ->
  exists b1,
    insert_point asserts sqrtQ M_EPSILON M_LARGE_EPSILON p b = Done (Next b1) /\
    same_topology b1 b1' /\
    vertices_ (b_mesh b1) = vertices_ (b_mesh b) ++ [p] /\
    hullNormals_ (b_mesh b1) = hullNormals_ (b_mesh b).
Proof.
  intros [Hc [Hf Hl]] Hsz Htest H Hgeo.
  apply insert_point_done in H.
  destruct H as (cellIndex & flags & s & bg' & cells & H1 & H2 & H3 & H4 & H5 & H6).
  assert (Hc' : tetrahedrons_ (b_mesh (push_vertex b p))
                = tetrahedrons_ (b_mesh (push_vertex b' p'))) by exact Hc.
  assert (Ht' : forall i, bad_test (push_vertex b p) p i
                          = bad_test (push_vertex b' p') p' i) by exact Htest.
  assert (Hs0 : same_topology
                  (mkBuild (b_mesh (push_vertex b p)) (circumspheres b) (s_badFlags s))
                  (mkBuild (b_mesh (push_vertex b' p')) (circumspheres b')
                           (s_badFlags s))).
  { repeat split; simpl; auto. }
  destruct (grow_shadow _ _ _ _ _ _ Hs0 H5) as [bg [Hg [Hsg [Hvg Hng]]]].
  destruct (@make_cell_loop_shadow asserts asserts' sqrtQ sqrtQ' M_EPSILON
              M_LARGE_EPSILON M_EPSILON' M_LARGE_EPSILON' cells (holeSurface s)
              (size (vertices_ (b_mesh b'))) (vertices_ (b_mesh b) ++ [p])
              (hullNormals_ (b_mesh b))
              (N.to_nat (Surface_Size (holeSurface s))) 0%N bg bg' b1'
              Hsg Hvg Hng H6) as [b1 [Hloop [Hs1 [Hv1 Hn1]]]].
  { intros k face _ Hface. rewrite <- Hsz.
    apply (Hgeo cellIndex flags s k face H1 H2 H3 Hface). }
  exists b1. split; [|auto].
  apply insert_point_done.
  exists cellIndex, flags, s, bg, cells.
  rewrite Hc, Hf.
  rewrite (find_first_bad_congr (push_vertex b p) (push_vertex b' p') p p' Ht' Hf).
  rewrite (breadth_search_congr (push_vertex b p) (push_vertex b' p') p p' Hc' Ht').
  rewrite Hsz. repeat split; assumption.
Qed.
End ShadowInsert.

(** ** A single point *)

Lemma Qabs_lower (eps d m : Q) :
  0 <= eps -> (d == m \/ d == - m) -> eps < m -> eps < Qabs_ d.
Proof.
  intros He Hd Hm. unfold Qabs_. destruct (Qltb d 0) eqn:E.
  - apply Qltb_lt in E. destruct Hd as [Hd|Hd]; rewrite Hd in *; lra.
  - apply Qltb_ge in E. destruct Hd as [Hd|Hd]; rewrite Hd in *; lra.
Qed.

Lemma Qabs_nonzero (d m : Q) :
  (d == m \/ d == - m) -> 0 < m -> ~ d == 0.
Proof. intros [Hd|Hd] Hm C; rewrite Hd in C; lra. Qed.

(** A circumsphere can be computed when the denominator is not zero and,
    with assertions, above the threshold. *)
Lemma circumsphere_exists
  (asserts : bool) (sqrtQ : Q -> Q) (M_EPSILON M_LARGE_EPSILON : Q)
  (p0 p1 p2 p3 : Vector3) :
  let u1 := v3_sub p1 p0 in
  let u2 := v3_sub p2 p0 in
  let u3 := v3_sub p3 p0 in
  let den := 2 * DotProduct u1 (CrossProduct u2 u3) in
  ~ den == 0 -> (asserts = true -> M_EPSILON < Qabs_ den) ->
  exists s,
    circumsphere_of_points asserts sqrtQ M_EPSILON M_LARGE_EPSILON p0 p1 p2 p3
      = Done s /\
    center_ s = v3_add p0 (v3_div (circum_num u1 u2 u3) den) /\
    radius_ s =
      Qmax (Qmax (Qmax (Length sqrtQ (v3_div (circum_num u1 u2 u3) den))
                       (Length sqrtQ (v3_sub p1 (center_ s))))
                 (Length sqrtQ (v3_sub p2 (center_ s))))
           (Length sqrtQ (v3_sub p3 (center_ s)))
      + M_LARGE_EPSILON.
Proof.
  intros u1 u2 u3 den Hnz Hden.
  unfold circumsphere_of_points. fold u1 u2 u3. fold den.
  assert (Ha : assert asserts DegenerateCircumsphere (Qltb M_EPSILON (Qabs_ den))
               = Done tt).
  { unfold assert. destruct asserts; [|reflexivity].
    specialize (Hden eq_refl). apply Qltb_lt in Hden. rewrite Hden. reflexivity. }
  rewrite Ha. cbn [bind]. rewrite (Qeq_bool_false _ _ Hnz).
  eexists. split; [reflexivity|]. split; reflexivity.
Qed.

(** A sphere computed around the point [c] contains [c]. *)
Lemma circumsphere_around
  (asserts : bool) (sqrtQ : Q -> Q) (M_EPSILON M_LARGE_EPSILON : Q)
  (p0 p1 p2 p3 c : Vector3) :
  (forall x, 0 <= sqrtQ x) -> 0 < M_LARGE_EPSILON ->
  let u1 := v3_sub p1 p0 in
  let u2 := v3_sub p2 p0 in
  let u3 := v3_sub p3 p0 in
  let den := 2 * DotProduct u1 (CrossProduct u2 u3) in
  ~ den == 0 -> (asserts = true -> M_EPSILON < Qabs_ den) ->
  v3_eq (v3_add p0 (v3_div (circum_num u1 u2 u3) den)) c ->
  exists s,
    circumsphere_of_points asserts sqrtQ M_EPSILON M_LARGE_EPSILON p0 p1 p2 p3
      = Done s /\
    contains s c = true.
Proof.
  intros Hsqrt Hleps u1 u2 u3 den Hnz Hden Hc.
  destruct (circumsphere_exists asserts sqrtQ M_EPSILON M_LARGE_EPSILON
              p0 p1 p2 p3 Hnz Hden) as [s [Hs [Hcen Hrad]]].
  exists s. split; [exact Hs|].
  unfold contains, IsInside. rewrite Hrad, Hcen.
  fold u1 u2 u3. fold den.
  set (centre := v3_add p0 (v3_div (circum_num u1 u2 u3) den)) in *.
  set (r := Qmax _ _ + M_LARGE_EPSILON).
  assert (Hr : 0 < r).
  { unfold r, Length.
    match goal with
    | |- 0 < Qmax (Qmax (Qmax ?a ?b) ?c) ?d + _ =>
        pose proof (Hsqrt (LengthSquared (v3_div (circum_num u1 u2 u3) den)));
        pose proof (Q.le_max_l a b); pose proof (Q.le_max_l (Qmax a b) c);
        pose proof (Q.le_max_l (Qmax (Qmax a b) c) d)
    end.
    lra. }
  assert (Hd : LengthSquared (v3_sub c centre) == 0).
  { destruct Hc as [Hx [Hy Hz]].
    unfold LengthSquared, DotProduct, v3_sub. cbn [x_ y_ z_].
    rewrite Hx, Hy, Hz. ring. }
  assert (Hlt : Qltb (LengthSquared (v3_sub c centre)) (r * r) = true).
  { apply Qltb_lt. rewrite Hd. nra. }
  rewrite Hlt. reflexivity.
Qed.

Lemma get_In {A} (l : list A) : forall i x, get l i = Some x -> In x l.
Proof.
  induction l as [|a l IH]; intros i x H; simpl in H; [discriminate|].
  destruct (i =? 0)%N.
  - injection H as <-. left. reflexivity.
  - right. eapply IH. exact H.
Qed.

Lemma get_map {A B} (f : A -> B) (l : list A) :
  forall i, get (map f l) i = option_map f (get l i).
Proof.
  induction l as [|a l IH]; intro i; simpl; [reflexivity|].
  destruct (i =? 0)%N; [reflexivity | apply IH].
Qed.

(** The builder starts with the circumsphere of every cell, when each can
    be computed, and with no cell flagged. *)
Lemma init_build_done
  (asserts : bool) (sqrtQ : Q -> Q) (M_EPSILON M_LARGE_EPSILON : Q)
  (mesh : TetrahedralMesh) (P : Sphere -> Prop) :
  (forall i, (i < size (tetrahedrons_ mesh))%N ->
     exists s, GetTetrahedronCircumsphere asserts sqrtQ M_EPSILON M_LARGE_EPSILON
                 mesh i = Done s /\ P s) ->
  exists spheres,
    init_build asserts sqrtQ M_EPSILON M_LARGE_EPSILON mesh
      = Done (mkBuild mesh spheres (repeat false (length (tetrahedrons_ mesh)))) /\
    length spheres = length (tetrahedrons_ mesh) /\
    Forall P spheres.
Proof.
  intro Hcells. unfold init_build.
  pose (Inv := fun (k : N) (st : list Sphere * list bool) =>
    length (fst st) = N.to_nat k /\ snd st = repeat false (N.to_nat k) /\
    Forall P (fst st)).
  destruct (@for_loop_total _ Inv
              (fun i '(spheres, flags) =>
                 s <- GetTetrahedronCircumsphere asserts sqrtQ M_EPSILON
                        M_LARGE_EPSILON mesh i ;;
                 Done (spheres ++ [s], flags ++ [false]))
              (length (tetrahedrons_ mesh)) 0%N ([], []))
    as [[spheres flags] [Hloop HInv]].
  - intros i [spheres flags] Hi [Hlen [Hflags HP]].
    destruct (Hcells i) as [s [Hs Ps]]; [unfold size; lia|].
    rewrite Hs. cbn [bind]. eexists. split; [reflexivity|].
    unfold Inv in *. cbn [fst snd] in *. repeat split.
    + rewrite length_app. cbn [length]. lia.
    + rewrite Hflags. replace (N.to_nat (i + 1)) with (N.to_nat i + 1)%nat by lia.
      rewrite repeat_app. reflexivity.
    + apply Forall_app. split; [exact HP | constructor; [exact Ps | constructor]].
  - unfold Inv. cbn [fst snd]. repeat split; constructor.
  - rewrite Hloop. cbn [bind]. unfold Inv in HInv. cbn [fst snd] in HInv.
    destruct HInv as [Hlen [Hflags HP]].
    exists spheres. rewrite Hflags.
    replace (N.to_nat (0 + N.of_nat (length (tetrahedrons_ mesh))))
      with (length (tetrahedrons_ mesh)) in * by lia.
    repeat split; assumption.
Qed.

Section SinglePoint.
Variable asserts : bool.
Variable sqrtQ : Q -> Q.
Variables M_EPSILON M_LARGE_EPSILON tolerance : Q.
Variable mesh0 : TetrahedralMesh.
Variable p : Vector3.
Variable padding : Q.
Hypothesis Hsqrt : forall x, 0 <= sqrtQ x.
Hypothesis Hleps : 0 < M_LARGE_EPSILON.
Hypothesis Hpad : 0 < padding.
Hypothesis Heps :
  asserts = true -> 0 <= M_EPSILON /\ M_EPSILON < 8 * padding * padding * padding.

Lemma padding_cube : 0 < padding * padding * padding.
Proof.
  apply Qmult_lt_0_compat; [apply Qmult_lt_0_compat|]; exact Hpad.
Qed.

Ltac geometry :=
  cbv [single_box min_ max_ Box_Size v3_add v3_sub v3_mul v3_scale v3_div
       v3_ONE DotProduct CrossProduct LengthSquared circum_num x_ y_ z_ v3_eq].

(** The denominator is [m] times the cube of the padding, up to its sign. *)
Ltac denominator :=
  first [ left; geometry; ring | right; geometry; ring ].

Ltac cell_nonzero k :=
  apply (Qabs_nonzero _ (k * padding * padding * padding));
  [ denominator | pose proof padding_cube; lra ].

Ltac cell_bound k :=
  let Ha := fresh "Ha" in
  intro Ha; destruct (Heps Ha);
  apply (Qabs_lower _ _ (k * padding * padding * padding));
  [ assumption | denominator | pose proof padding_cube; lra ].

Ltac read_cell :=
  unfold GetTetrahedronCircumsphere, InitializeSuperMesh, at_;
  cbn [tetrahedrons_ vertices_ map combine super_indices super_neighbors
       offsets fst snd get bind indices_ N.eqb Pos.eqb N.pred Pos.pred
       Pos.pred_double].

Ltac cell_centre :=
  geometry; repeat split; field;
  let C := fresh "C" in
  intro C; pose proof padding_cube; lra.

Lemma super_cell_spheres (i : N) :
  (i < 5)%N ->
  exists s,
    GetTetrahedronCircumsphere asserts sqrtQ M_EPSILON M_LARGE_EPSILON
      (InitializeSuperMesh mesh0 (single_box p padding)) i = Done s /\
    contains s p = true.
Proof.
  intro Hi. destruct p as [x y z] eqn:Ep.
  assert (Hcases : i = 0%N \/ i = 1%N \/ i = 2%N \/ i = 3%N \/ i = 4%N) by lia.
  destruct Hcases as [-> | [-> | [-> | [-> | ->]]]].
  - read_cell. eapply circumsphere_around; [exact Hsqrt | exact Hleps | | |].
    + cell_nonzero (16 : Q).
    + cell_bound (16 : Q).
    + cell_centre.
  - read_cell. eapply circumsphere_around; [exact Hsqrt | exact Hleps | | |].
    + cell_nonzero (16 : Q).
    + cell_bound (16 : Q).
    + cell_centre.
  - read_cell. eapply circumsphere_around; [exact Hsqrt | exact Hleps | | |].
    + cell_nonzero (16 : Q).
    + cell_bound (16 : Q).
    + cell_centre.
  - read_cell. eapply circumsphere_around; [exact Hsqrt | exact Hleps | | |].
    + cell_nonzero (16 : Q).
    + cell_bound (16 : Q).
    + cell_centre.
  - read_cell. eapply circumsphere_around; [exact Hsqrt | exact Hleps | | |].
    + cell_nonzero (32 : Q).
    + cell_bound (32 : Q).
    + cell_centre.
Qed.

Lemma single_point_init :
  exists spheres,
    init_build asserts sqrtQ M_EPSILON M_LARGE_EPSILON
      (InitializeSuperMesh mesh0 (single_box p padding))
    = Done (mkBuild (InitializeSuperMesh mesh0 (single_box p padding)) spheres
                    [false; false; false; false; false]) /\
    map (fun s => contains s p) spheres = [true; true; true; true; true].
Proof.
  destruct (init_build_done asserts sqrtQ M_EPSILON M_LARGE_EPSILON
              (InitializeSuperMesh mesh0 (single_box p padding))
              (fun s => contains s p = true)) as [spheres [Hi [Hlen HP]]].
  { intros i Hi. apply super_cell_spheres. exact Hi. }
  exists spheres. split; [exact Hi|].
  cbn [InitializeSuperMesh tetrahedrons_ length map combine super_indices
       super_neighbors] in Hlen.
  destruct spheres as [|s0 [|s1 [|s2 [|s3 [|s4 [|s5 l]]]]]]; try discriminate Hlen.
  repeat match goal with
         | H : Forall _ (_ :: _) |- _ => inversion H; subst; clear H
         end.
  cbn [map]. repeat match goal with H : contains _ p = true |- _ => rewrite H; clear H end.
  reflexivity.
Qed.

Lemma bad_test_map (b : Build) (q : Vector3) (i : N) :
  bad_test b q i = get (map (fun s => contains s q) (circumspheres b)) i.
Proof.
  unfold bad_test. rewrite get_map. destruct (get (circumspheres b) i); reflexivity.
Qed.

Lemma face_sphere_ok_intro (V : list Vector3) (newIndex : N)
  (face : TetrahedralMeshSurfaceTriangle) (p0 p1 p2 p3 : Vector3) :
  get V (tnth (tri_indices_ face) 0) = Some p0 ->
  get V (tnth (tri_indices_ face) 1) = Some p1 ->
  get V (tnth (tri_indices_ face) 2) = Some p2 ->
  get V newIndex = Some p3 ->
  let den := 2 * DotProduct (v3_sub p1 p0)
                   (CrossProduct (v3_sub p2 p0) (v3_sub p3 p0)) in
  ~ den == 0 -> (asserts = true -> M_EPSILON < Qabs_ den) ->
  face_sphere_ok asserts sqrtQ M_EPSILON M_LARGE_EPSILON V newIndex face.
Proof.
  intros G0 G1 G2 G3 den Hnz Hden.
  destruct (circumsphere_exists asserts sqrtQ M_EPSILON M_LARGE_EPSILON
              p0 p1 p2 p3 Hnz Hden) as [s [Hs _]].
  exists p0, p1, p2, p3, s. repeat split; assumption.
Qed.

Ltac read_vertex :=
  cbn [tri_indices_ tnth InitializeSuperMesh b_mesh vertices_ map offsets app
       get size length N.of_nat Pos.of_succ_nat Pos.succ N.eqb Pos.eqb N.pred
       Pos.pred Pos.pred_double];
  reflexivity.

Lemma single_point_faces (spheres : list Sphere) :
  let b := mkBuild (InitializeSuperMesh mesh0 (single_box p padding)) spheres
                   [false; false; false; false; false] in
  forall cellIndex flags s k face,
    find_first_bad (push_vertex super_build (vec3 0 0 0)) (vec3 0 0 0)
      (length (tetrahedrons_ (b_mesh super_build))) 0 = Done (Some cellIndex) ->
    put Arr_badFlags (badFlags super_build) cellIndex true = Done flags ->
    breadth_search (S (length flags)) (push_vertex super_build (vec3 0 0 0))
      (vec3 0 0 0) 0
      (mkSearch flags [cellIndex] [cellIndex] Surface_Clear) = Done (Some s) ->
    get (faces_ (holeSurface s)) k = Some face ->
    face_sphere_ok asserts sqrtQ M_EPSILON M_LARGE_EPSILON
      (vertices_ (b_mesh b) ++ [p]) (size (vertices_ (b_mesh b))) face.
Proof.
  intros b cellIndex flags s k face H1 H2 H3 Hk.
  vm_compute in H1. injection H1 as <-.
  vm_compute in H2. injection H2 as <-.
  vm_compute in H3. injection H3 as <-.
  apply get_In in Hk. cbn [faces_ holeSurface In] in Hk.
  destruct p as [x y z] eqn:Ep.
  repeat (destruct Hk as [Hk|Hk];
          [ subst face; eapply face_sphere_ok_intro;
            [ read_vertex | read_vertex | read_vertex | read_vertex
            | cell_nonzero (8 : Q) | cell_bound (8 : Q) ] |]).
  contradiction.
Qed.

(** The cull and renumber pass reads the cells and the flags; of the vertices
    it only drops the first eight. *)
Lemma cull_and_renumber_topology (b b' : Build) (m' : TetrahedralMesh) :
  tetrahedrons_ (b_mesh b) = tetrahedrons_ (b_mesh b') ->
  badFlags b = badFlags b' ->
  (8 <= size (vertices_ (b_mesh b)))%N ->
  cull_and_renumber asserts b' = Done m' ->
  cull_and_renumber asserts b
  = Done (mkMesh (skipn 8 (vertices_ (b_mesh b))) (tetrahedrons_ m')
                 (hullNormals_ (b_mesh b))).
Proof.
  intros Hc Hf Hv H. unfold cull_and_renumber in *. rewrite Hc, Hf.
  destruct (for_loop _ 0 cull_cell _) as [[cells flags]|];
    cbn [bind] in *; [|discriminate].
  destruct (for_loop _ 0 (renumber_cell cells flags) _) as [[newIndices out]|];
    cbn [bind] in *; [|discriminate].
  destruct (map_outcome _ out) as [out'|]; cbn [bind] in *; [|discriminate].
  destruct (size (vertices_ (b_mesh b')) <? 8)%N; cbn [bind] in H;
    [discriminate|].
  injection H as <-.
  apply N.ltb_ge in Hv. rewrite Hv. reflexivity.
Qed.

(** The insertion of the point into the super-mesh makes the twelve cells
    of the worked input, and the post-pass culls them all. *)
Lemma single_point_triangulation :
  exists b1,
    insert_all asserts sqrtQ M_EPSILON M_LARGE_EPSILON
      (InitializeSuperMesh mesh0 (single_box p padding)) [p] = Done (Next b1) /\
    tetrahedrons_ (b_mesh b1) = tetrahedrons_ (b_mesh one_probe_build) /\
    vertices_ (b_mesh b1)
      = vertices_ (InitializeSuperMesh mesh0 (single_box p padding)) ++ [p] /\
    post_pass asserts tolerance b1 = Done (mkMesh [p] [] (hullNormals_ mesh0)).
Proof.
  destruct single_point_init as [spheres [Hinit Hbad]].
  set (super := InitializeSuperMesh mesh0 (single_box p padding)) in *.
  set (b0 := mkBuild super spheres [false; false; false; false; false]) in *.
  assert (Href : insert_point true sqrt_approx EPSILON_example
                   LARGE_EPSILON_example (vec3 0 0 0) super_build
                 = Done (Next one_probe_build)) by (vm_compute; reflexivity).
  destruct (insert_point_shadow asserts true sqrtQ sqrt_approx
              M_EPSILON M_LARGE_EPSILON EPSILON_example LARGE_EPSILON_example
              p (vec3 0 0 0) b0 super_build one_probe_build)
    as [b1 [Hins [[Hc1 [Hf1 _]] [Hv1 Hn1]]]].
  - pose proof (f_equal (@length bool) Hbad) as Hlen.
    rewrite length_map in Hlen.
    split; [reflexivity|]. split; [reflexivity|]. exact Hlen.
  - reflexivity.
  - intro i. rewrite !bad_test_map. cbn [circumspheres b0]. rewrite Hbad.
    reflexivity.
  - exact Href.
  - apply single_point_faces.
  - exists b1. split; [|split; [exact Hc1 | split; [exact Hv1|]]].
    + unfold insert_all. rewrite Hinit. cbn [bind for_each]. fold b0.
      rewrite Hins. reflexivity.
    + unfold post_pass.
      assert (Hcull : exists m', cull_and_renumber asserts one_probe_build = Done m' /\
                                 tetrahedrons_ m' = []).
      { destruct asserts; eexists; (split; [vm_compute; reflexivity | reflexivity]). }
      destruct Hcull as [m' [Hcull Hm']].
      rewrite (cull_and_renumber_topology b1 one_probe_build m' Hc1 Hf1).
      * cbn [bind]. rewrite Hm', Hv1, Hn1.
        unfold finish. cbn [tetrahedrons_ length for_loop bind].
        destruct asserts; reflexivity.
      * rewrite Hv1. vm_compute. discriminate.
      * exact Hcull.
Qed.

Lemma single_point_build :
  Define asserts sqrtQ M_EPSILON M_LARGE_EPSILON tolerance mesh0 [p] padding
  = Done (mkMesh [p] [] (hullNormals_ mesh0)).
Proof.
  destruct single_point_triangulation as (b1 & Hins & _ & _ & Hpost).
  rewrite Define_eq.
  change (InitializeSuperMesh mesh0 _)
    with (InitializeSuperMesh mesh0 (single_box p padding)).
  rewrite Hins. exact Hpost.
Qed.
End SinglePoint.

Lemma sqrt_approx_nonneg (x : Q) : 0 <= sqrt_approx x.
Proof.
  unfold sqrt_approx, Qle. cbn [Qnum Qden]. rewrite Z.mul_1_r.
  apply Z.sqrt_nonneg.
Qed.

(** ** Where a degenerate circumsphere aborts the build *)

Lemma for_loop_fails {St} (body : N -> St -> Outcome St) (m : nat) (f : Fault) :
  forall k from s sk,
    for_loop k from body s = Done sk ->
    body (from + N.of_nat k)%N sk = Fail f ->
    for_loop (k + S m) from body s = Fail f.
Proof.
  induction k as [|k IH]; intros from s sk H Hf.
  - cbn [for_loop] in H. injection H as <-.
    cbn [Nat.add for_loop]. rewrite N.add_0_r in Hf. rewrite Hf. reflexivity.
  - cbn [for_loop] in H. apply bind_done in H. destruct H as [s1 [H1 H]].
    cbn [Nat.add for_loop]. rewrite H1. cbn [bind].
    apply (IH _ _ _ H).
    replace (from + 1 + N.of_nat k)%N with (from + N.of_nat (S k))%N by lia.
    exact Hf.
Qed.

Section Degenerate.
Variable sqrtQ : Q -> Q.
Variables M_EPSILON M_LARGE_EPSILON tolerance : Q.

Lemma degenerate_cell_aborts (mesh : TetrahedralMesh) (i : N)
  (cell : Tetrahedron) (i0 i1 i2 i3 : N) (p0 p1 p2 p3 : Vector3) :
  get (tetrahedrons_ mesh) i = Some cell ->
  indices_ cell = quad i0 i1 i2 i3 ->
  get (vertices_ mesh) i0 = Some p0 -> get (vertices_ mesh) i1 = Some p1 ->
  get (vertices_ mesh) i2 = Some p2 -> get (vertices_ mesh) i3 = Some p3 ->
  ~ M_EPSILON
    < Qabs_ (2 * DotProduct (v3_sub p1 p0)
                   (CrossProduct (v3_sub p2 p0) (v3_sub p3 p0))) ->
  GetTetrahedronCircumsphere true sqrtQ M_EPSILON M_LARGE_EPSILON mesh i
  = Fail (AssertionFailed DegenerateCircumsphere).
Proof.
  intros Hc Hi H0 H1 H2 H3 Hden.
  unfold GetTetrahedronCircumsphere, at_.
  rewrite Hc. cbn [bind]. rewrite Hi, H0, H1, H2, H3. cbn [bind].
  apply degenerate_circumsphere_aborts. exact Hden.
Qed.

(** The circumspheres of the cells before the first one that fails. *)
Lemma init_loop_done (mesh : TetrahedralMesh) :
  forall n from st,
    (forall j, (from <= j < from + N.of_nat n)%N ->
       exists s, GetTetrahedronCircumsphere true sqrtQ M_EPSILON M_LARGE_EPSILON
                   mesh j = Done s) ->
    exists st',
      for_loop n from
        (fun i '(spheres, flags) =>
           s <- GetTetrahedronCircumsphere true sqrtQ M_EPSILON M_LARGE_EPSILON
                  mesh i ;;
           Done (spheres ++ [s], flags ++ [false])) st = Done st'.
Proof.
  induction n as [|n IH]; intros from [spheres flags] H.
  - eexists. reflexivity.
  - cbn [for_loop]. destruct (H from) as [s Hs]; [lia|].
    rewrite Hs. cbn [bind]. apply IH. intros j Hj. apply H. lia.
Qed.

Lemma init_build_fails (mesh : TetrahedralMesh) (i : N) (f : Fault) :
  (i < size (tetrahedrons_ mesh))%N ->
  (forall j, (j < i)%N ->
     exists s, GetTetrahedronCircumsphere true sqrtQ M_EPSILON M_LARGE_EPSILON
                 mesh j = Done s) ->
  GetTetrahedronCircumsphere true sqrtQ M_EPSILON M_LARGE_EPSILON mesh i = Fail f ->
  init_build true sqrtQ M_EPSILON M_LARGE_EPSILON mesh = Fail f.
Proof.
  intros Hi Hbefore Hf. unfold init_build. unfold size in Hi.
  destruct (init_loop_done mesh (N.to_nat i) 0 ([], [])) as [[spheres flags] Hl].
  { intros j Hj. apply Hbefore. lia. }
  replace (length (tetrahedrons_ mesh))
    with (N.to_nat i + S (length (tetrahedrons_ mesh) - S (N.to_nat i)))%nat by lia.
  erewrite for_loop_fails; [reflexivity|exact Hl|].
  rewrite N2Nat.id, N.add_0_l. cbn beta iota. rewrite Hf. reflexivity.
Qed.

Lemma build_fails_at_init (mesh : TetrahedralMesh) (positions : list Vector3)
  (f : Fault) :
  init_build true sqrtQ M_EPSILON M_LARGE_EPSILON mesh = Fail f ->
  AddTetrahedralMeshVertices true sqrtQ M_EPSILON M_LARGE_EPSILON tolerance
    mesh positions = Fail f.
Proof.
  intro H. unfold AddTetrahedralMeshVertices, insert_all. rewrite H. reflexivity.
Qed.

Lemma make_cell_split (asserts : bool) cells surface newIndex i b :
  make_cell asserts sqrtQ M_EPSILON M_LARGE_EPSILON cells surface newIndex i b
  = ('(newCellIndex, cells2, flags) <- make_cell_links cells surface newIndex i b ;;
     let mesh' := set_tetrahedrons (b_mesh b) cells2 in
     sphere <- GetTetrahedronCircumsphere asserts sqrtQ M_EPSILON M_LARGE_EPSILON
                 mesh' newCellIndex ;;
     spheres <- put Arr_circumspheres (circumspheres b) newCellIndex sphere ;;
     Done (mkBuild mesh' spheres flags)).
Proof.
  unfold make_cell, make_cell_links.
  destruct (at_ Arr_badCells cells i) as [nci|]; cbn [bind]; [|reflexivity].
  destruct (at_ Arr_tetrahedrons (tetrahedrons_ (b_mesh b)) nci) as [old|];
    cbn [bind]; [|reflexivity].
  destruct (at_ Arr_faces (faces_ surface) i) as [face|]; cbn [bind]; [|reflexivity].
  destruct (tri_indices_ face) as [f0 f1 f2].
  destruct (tri_neighbors_ face) as [g0 g1 g2].
  destruct (at_ Arr_badCells cells g0) as [n0|]; cbn [bind]; [|reflexivity].
  destruct (at_ Arr_badCells cells g1) as [n1|]; cbn [bind]; [|reflexivity].
  destruct (at_ Arr_badCells cells g2) as [n2|]; cbn [bind]; [|reflexivity].
  destruct (put Arr_tetrahedrons _ nci _) as [cells1|]; cbn [bind]; [|reflexivity].
  match goal with
  | |- bind ?m _ = _ => destruct m as [cells2|]; cbn [bind]; [|reflexivity]
  end.
  destruct (put Arr_badFlags (badFlags b) nci false) as [flags|];
    cbn [bind]; reflexivity.
Qed.

Lemma make_cell_fails cells surface newIndex i b nci cells2 flags f :
  make_cell_links cells surface newIndex i b = Done (nci, cells2, flags) ->
  GetTetrahedronCircumsphere true sqrtQ M_EPSILON M_LARGE_EPSILON
    (set_tetrahedrons (b_mesh b) cells2) nci = Fail f ->
  make_cell true sqrtQ M_EPSILON M_LARGE_EPSILON cells surface newIndex i b
  = Fail f.
Proof.
  intros Hl Hf. rewrite make_cell_split, Hl. cbn [bind]. cbv zeta.
  rewrite Hf. reflexivity.
Qed.

Lemma insert_point_fails_at_cell (position : Vector3) (b : Build)
  (cellIndex : N) (flags : list bool) (s : Search) (bg : Build)
  (cells : list N) (k : nat) (bk : Build) (f : Fault) :
  find_first_bad (push_vertex b position) position
                 (length (tetrahedrons_ (b_mesh b))) 0 = Done (Some cellIndex) ->
  put Arr_badFlags (badFlags b) cellIndex true = Done flags ->
  breadth_search (S (length flags)) (push_vertex b position) position 0
    (mkSearch flags [cellIndex] [cellIndex] Surface_Clear) = Done (Some s) ->
  IsClosedSurface (holeSurface s) = true ->
  grow (N.to_nat (Surface_Size (holeSurface s) - size (badCells s)))
    (mkBuild (b_mesh (push_vertex b position)) (circumspheres b) (s_badFlags s))
    (badCells s) = (bg, cells) ->
  (N.of_nat k < Surface_Size (holeSurface s))%N ->
  for_loop k 0
    (make_cell true sqrtQ M_EPSILON M_LARGE_EPSILON cells (holeSurface s)
               (size (vertices_ (b_mesh b)))) bg = Done bk ->
  make_cell true sqrtQ M_EPSILON M_LARGE_EPSILON cells (holeSurface s)
            (size (vertices_ (b_mesh b))) (N.of_nat k) bk = Fail f ->
  insert_point true sqrtQ M_EPSILON M_LARGE_EPSILON position b = Fail f.
Proof.
  intros H1 H2 H3 H4 H5 Hk H6 H7. unfold insert_point.
  cbn [b_mesh push_vertex tetrahedrons_ badFlags circumspheres] in *.
  rewrite H1. cbn [bind]. rewrite H2. cbn [bind]. rewrite H3. cbn [bind].
  rewrite H4. cbn [negb]. rewrite H5.
  replace (N.to_nat (Surface_Size (holeSurface s)))
    with (k + S (N.to_nat (Surface_Size (holeSurface s)) - S k))%nat by lia.
  erewrite for_loop_fails; [reflexivity|exact H6|].
  rewrite N.add_0_l. exact H7.
Qed.

Lemma Define_fails_at_insertion mesh0 done position rest padding b f :
  insert_all true sqrtQ M_EPSILON M_LARGE_EPSILON
    (InitializeSuperMesh mesh0
       (mkBox (v3_sub (min_ (BoundingBox_of (done ++ position :: rest)))
                      (v3_scale padding v3_ONE))
              (v3_add (max_ (BoundingBox_of (done ++ position :: rest)))
                      (v3_scale padding v3_ONE))))
    done = Done (Next b) ->
  insert_point true sqrtQ M_EPSILON M_LARGE_EPSILON position b = Fail f ->
  Define true sqrtQ M_EPSILON M_LARGE_EPSILON tolerance mesh0
    (done ++ position :: rest) padding = Fail f.
Proof.
  intros H Hp. unfold Define.
  eapply insert_all_fails; [exact H|exact Hp].
Qed.
End Degenerate.

(** C3 (amended): in a build with assertions compiled in, each of the three
    violations aborts the whole build with its diagnostic, wherever it
    occurs. A circumsphere denominator that is not beyond the epsilon fails
    [GetTetrahedronCircumsphere]; when that happens for a cell of the mesh
    the build starts from, or for the new cell of a hole face during an
    insertion, the failure is the result of the insertion, of
    [AddTetrahedralMeshVertices] and of [Define]. An inserted point that no
    circumsphere contains and a hole surface that is not closed fail the
    insertion, and so the build. The insertions never return from the
    function early: a mesh is returned only after the post-pass. The last
    five parts say it for [Define] itself: its result is the diagnostic of
    the violation, for a degenerate cell of the super-mesh, for a degenerate
    new cell, for a point without a containing cell and for an open hole;
    and a mesh it returns comes from the post-pass. *)
Theorem assertions_abort_the_build
  (sqrtQ : Q -> Q) (M_EPSILON M_LARGE_EPSILON tolerance : Q) :
  (* the degenerate circumsphere, where it is computed *)
  (forall p0 p1 p2 p3,
     ~ M_EPSILON
       < Qabs_ (2 * DotProduct (v3_sub p1 p0)
                      (CrossProduct (v3_sub p2 p0) (v3_sub p3 p0))) ->
     circumsphere_of_points true sqrtQ M_EPSILON M_LARGE_EPSILON p0 p1 p2 p3
     = Fail (AssertionFailed DegenerateCircumsphere)) /\
  (forall mesh i cell i0 i1 i2 i3 p0 p1 p2 p3,
     get (tetrahedrons_ mesh) i = Some cell ->
     indices_ cell = quad i0 i1 i2 i3 ->
     get (vertices_ mesh) i0 = Some p0 -> get (vertices_ mesh) i1 = Some p1 ->
     get (vertices_ mesh) i2 = Some p2 -> get (vertices_ mesh) i3 = Some p3 ->
     ~ M_EPSILON
       < Qabs_ (2 * DotProduct (v3_sub p1 p0)
                      (CrossProduct (v3_sub p2 p0) (v3_sub p3 p0))) ->
     GetTetrahedronCircumsphere true sqrtQ M_EPSILON M_LARGE_EPSILON mesh i
     = Fail (AssertionFailed DegenerateCircumsphere)) /\
  (* ... in a cell of the mesh the build starts from *)
  (forall mesh positions i f,
     (i < size (tetrahedrons_ mesh))%N ->
     (forall j, (j < i)%N ->
        exists s, GetTetrahedronCircumsphere true sqrtQ M_EPSILON
                    M_LARGE_EPSILON mesh j = Done s) ->
     GetTetrahedronCircumsphere true sqrtQ M_EPSILON M_LARGE_EPSILON mesh i
       = Fail f ->
     init_build true sqrtQ M_EPSILON M_LARGE_EPSILON mesh = Fail f /\
     AddTetrahedralMeshVertices true sqrtQ M_EPSILON M_LARGE_EPSILON tolerance
       mesh positions = Fail f) /\
  (forall mesh0 positions padding i f,
     let bb := BoundingBox_of positions in
     let super :=
       InitializeSuperMesh mesh0
         (mkBox (v3_sub (min_ bb) (v3_scale padding v3_ONE))
                (v3_add (max_ bb) (v3_scale padding v3_ONE))) in
     (i < size (tetrahedrons_ super))%N ->
     (forall j, (j < i)%N ->
        exists s, GetTetrahedronCircumsphere true sqrtQ M_EPSILON
                    M_LARGE_EPSILON super j = Done s) ->
     GetTetrahedronCircumsphere true sqrtQ M_EPSILON M_LARGE_EPSILON super i
       = Fail f ->
     Define true sqrtQ M_EPSILON M_LARGE_EPSILON tolerance mesh0 positions
       padding = Fail f) /\
  (* ... in the new cell of hole face [i], and of face [k] after [k] cells
     were made *)
  (forall cells surface newIndex i b newCellIndex cells2 flags f,
     make_cell_links cells surface newIndex i b
       = Done (newCellIndex, cells2, flags) ->
     GetTetrahedronCircumsphere true sqrtQ M_EPSILON M_LARGE_EPSILON
       (set_tetrahedrons (b_mesh b) cells2) newCellIndex = Fail f ->
     make_cell true sqrtQ M_EPSILON M_LARGE_EPSILON cells surface newIndex i b
     = Fail f) /\
  (forall position b cellIndex flags s bg cells k bk f,
     find_first_bad (push_vertex b position) position
                    (length (tetrahedrons_ (b_mesh b))) 0 = Done (Some cellIndex) ->
     put Arr_badFlags (badFlags b) cellIndex true = Done flags ->
     breadth_search (S (length flags)) (push_vertex b position) position 0
       (mkSearch flags [cellIndex] [cellIndex] Surface_Clear) = Done (Some s) ->
     IsClosedSurface (holeSurface s) = true ->
     grow (N.to_nat (Surface_Size (holeSurface s) - size (badCells s)))
       (mkBuild (b_mesh (push_vertex b position)) (circumspheres b)
                (s_badFlags s))
       (badCells s) = (bg, cells) ->
     (N.of_nat k < Surface_Size (holeSurface s))%N ->
     for_loop k 0
       (make_cell true sqrtQ M_EPSILON M_LARGE_EPSILON cells (holeSurface s)
                  (size (vertices_ (b_mesh b)))) bg = Done bk ->
     make_cell true sqrtQ M_EPSILON M_LARGE_EPSILON cells (holeSurface s)
               (size (vertices_ (b_mesh b))) (N.of_nat k) bk = Fail f ->
     insert_point true sqrtQ M_EPSILON M_LARGE_EPSILON position b = Fail f) /\
  (* no containing cell *)
  (forall position b,
     find_first_bad (push_vertex b position) position
                    (length (tetrahedrons_ (b_mesh b))) 0 = Done None ->
     insert_point true sqrtQ M_EPSILON M_LARGE_EPSILON position b
     = Fail (AssertionFailed NoContainingCell)) /\
  (* a hole that is not closed *)
  (forall position b cellIndex flags s,
     find_first_bad (push_vertex b position) position
                    (length (tetrahedrons_ (b_mesh b))) 0 = Done (Some cellIndex) ->
     put Arr_badFlags (badFlags b) cellIndex true = Done flags ->
     breadth_search (S (length flags)) (push_vertex b position) position 0
       (mkSearch flags [cellIndex] [cellIndex] Surface_Clear) = Done (Some s) ->
     IsClosedSurface (holeSurface s) = false ->
     insert_point true sqrtQ M_EPSILON M_LARGE_EPSILON position b
     = Fail (AssertionFailed HoleNotClosed)) /\
  (* the failure of an insertion is the failure of the build *)
  (forall mesh done position rest b f,
     insert_all true sqrtQ M_EPSILON M_LARGE_EPSILON mesh done = Done (Next b) ->
     insert_point true sqrtQ M_EPSILON M_LARGE_EPSILON position b = Fail f ->
     AddTetrahedralMeshVertices true sqrtQ M_EPSILON M_LARGE_EPSILON tolerance
       mesh (done ++ position :: rest) = Fail f) /\
  (forall mesh0 done position rest padding b f,
     let bb := BoundingBox_of (done ++ position :: rest) in
     let super :=
       InitializeSuperMesh mesh0
         (mkBox (v3_sub (min_ bb) (v3_scale padding v3_ONE))
                (v3_add (max_ bb) (v3_scale padding v3_ONE))) in
     insert_all true sqrtQ M_EPSILON M_LARGE_EPSILON super done = Done (Next b) ->
     insert_point true sqrtQ M_EPSILON M_LARGE_EPSILON position b = Fail f ->
     Define true sqrtQ M_EPSILON M_LARGE_EPSILON tolerance mesh0
       (done ++ position :: rest) padding = Fail f) /\
  (* no early return: a mesh comes out of the post-pass only *)
  (forall mesh positions r,
     insert_all true sqrtQ M_EPSILON M_LARGE_EPSILON mesh positions = Done r ->
     exists b, r = Next b) /\
  (forall mesh positions m,
     AddTetrahedralMeshVertices true sqrtQ M_EPSILON M_LARGE_EPSILON tolerance
       mesh positions = Done m ->
     exists b, insert_all true sqrtQ M_EPSILON M_LARGE_EPSILON mesh positions
               = Done (Next b) /\
               post_pass true tolerance b = Done m) /\
  (* so, for [Define]: each violation, where it occurs, is its result *)
  (forall mesh0 positions padding i cell i0 i1 i2 i3 p0 p1 p2 p3,
     let bb := BoundingBox_of positions in
     let super :=
       InitializeSuperMesh mesh0
         (mkBox (v3_sub (min_ bb) (v3_scale padding v3_ONE))
                (v3_add (max_ bb) (v3_scale padding v3_ONE))) in
     (forall j, (j < i)%N ->
        exists s, GetTetrahedronCircumsphere true sqrtQ M_EPSILON
                    M_LARGE_EPSILON super j = Done s) ->
     get (tetrahedrons_ super) i = Some cell ->
     indices_ cell = quad i0 i1 i2 i3 ->
     get (vertices_ super) i0 = Some p0 -> get (vertices_ super) i1 = Some p1 ->
     get (vertices_ super) i2 = Some p2 -> get (vertices_ super) i3 = Some p3 ->
     ~ M_EPSILON
       < Qabs_ (2 * DotProduct (v3_sub p1 p0)
                      (CrossProduct (v3_sub p2 p0) (v3_sub p3 p0))) ->
     Define true sqrtQ M_EPSILON M_LARGE_EPSILON tolerance mesh0 positions
       padding = Fail (AssertionFailed DegenerateCircumsphere)) /\
  (forall mesh0 done position rest padding b cellIndex flags s bg cells k bk
          newCellIndex cells2 flags2 cell i0 i1 i2 i3 p0 p1 p2 p3,
     let bb := BoundingBox_of (done ++ position :: rest) in
     let super :=
       InitializeSuperMesh mesh0
         (mkBox (v3_sub (min_ bb) (v3_scale padding v3_ONE))
                (v3_add (max_ bb) (v3_scale padding v3_ONE))) in
     insert_all true sqrtQ M_EPSILON M_LARGE_EPSILON super done = Done (Next b) ->
     find_first_bad (push_vertex b position) position
                    (length (tetrahedrons_ (b_mesh b))) 0 = Done (Some cellIndex) ->
     put Arr_badFlags (badFlags b) cellIndex true = Done flags ->
     breadth_search (S (length flags)) (push_vertex b position) position 0
       (mkSearch flags [cellIndex] [cellIndex] Surface_Clear) = Done (Some s) ->
     IsClosedSurface (holeSurface s) = true ->
     grow (N.to_nat (Surface_Size (holeSurface s) - size (badCells s)))
       (mkBuild (b_mesh (push_vertex b position)) (circumspheres b)
                (s_badFlags s))
       (badCells s) = (bg, cells) ->
     (N.of_nat k < Surface_Size (holeSurface s))%N ->
     for_loop k 0
       (make_cell true sqrtQ M_EPSILON M_LARGE_EPSILON cells (holeSurface s)
                  (size (vertices_ (b_mesh b)))) bg = Done bk ->
     make_cell_links cells (holeSurface s) (size (vertices_ (b_mesh b)))
                     (N.of_nat k) bk = Done (newCellIndex, cells2, flags2) ->
     get cells2 newCellIndex = Some cell ->
     indices_ cell = quad i0 i1 i2 i3 ->
     get (vertices_ (b_mesh bk)) i0 = Some p0 ->
     get (vertices_ (b_mesh bk)) i1 = Some p1 ->
     get (vertices_ (b_mesh bk)) i2 = Some p2 ->
     get (vertices_ (b_mesh bk)) i3 = Some p3 ->
     ~ M_EPSILON
       < Qabs_ (2 * DotProduct (v3_sub p1 p0)
                      (CrossProduct (v3_sub p2 p0) (v3_sub p3 p0))) ->
     Define true sqrtQ M_EPSILON M_LARGE_EPSILON tolerance mesh0
       (done ++ position :: rest) padding
     = Fail (AssertionFailed DegenerateCircumsphere)) /\
  (forall mesh0 done position rest padding b,
     let bb := BoundingBox_of (done ++ position :: rest) in
     let super :=
       InitializeSuperMesh mesh0
         (mkBox (v3_sub (min_ bb) (v3_scale padding v3_ONE))
                (v3_add (max_ bb) (v3_scale padding v3_ONE))) in
     insert_all true sqrtQ M_EPSILON M_LARGE_EPSILON super done = Done (Next b) ->
     find_first_bad (push_vertex b position) position
                    (length (tetrahedrons_ (b_mesh b))) 0 = Done None ->
     Define true sqrtQ M_EPSILON M_LARGE_EPSILON tolerance mesh0
       (done ++ position :: rest) padding
     = Fail (AssertionFailed NoContainingCell)) /\
  (forall mesh0 done position rest padding b cellIndex flags s,
     let bb := BoundingBox_of (done ++ position :: rest) in
     let super :=
       InitializeSuperMesh mesh0
         (mkBox (v3_sub (min_ bb) (v3_scale padding v3_ONE))
                (v3_add (max_ bb) (v3_scale padding v3_ONE))) in
     insert_all true sqrtQ M_EPSILON M_LARGE_EPSILON super done = Done (Next b) ->
     find_first_bad (push_vertex b position) position
                    (length (tetrahedrons_ (b_mesh b))) 0 = Done (Some cellIndex) ->
     put Arr_badFlags (badFlags b) cellIndex true = Done flags ->
     breadth_search (S (length flags)) (push_vertex b position) position 0
       (mkSearch flags [cellIndex] [cellIndex] Surface_Clear) = Done (Some s) ->
     IsClosedSurface (holeSurface s) = false ->
     Define true sqrtQ M_EPSILON M_LARGE_EPSILON tolerance mesh0
       (done ++ position :: rest) padding
     = Fail (AssertionFailed HoleNotClosed)) /\
  (forall mesh0 positions padding m,
     Define true sqrtQ M_EPSILON M_LARGE_EPSILON tolerance mesh0 positions
       padding = Done m ->
     exists b,
       insert_all true sqrtQ M_EPSILON M_LARGE_EPSILON
         (InitializeSuperMesh mesh0
            (mkBox (v3_sub (min_ (BoundingBox_of positions))
                           (v3_scale padding v3_ONE))
                   (v3_add (max_ (BoundingBox_of positions))
                           (v3_scale padding v3_ONE))))
         positions = Done (Next b) /\
       post_pass true tolerance b = Done m).
Proof.
  split; [apply degenerate_circumsphere_aborts|].
  split; [apply degenerate_cell_aborts|].
  split.
  { intros mesh positions i f Hi Hb Hf.
    pose proof (init_build_fails sqrtQ M_EPSILON M_LARGE_EPSILON mesh i f
                  Hi Hb Hf) as H.
    split; [exact H|]. apply build_fails_at_init. exact H. }
  split.
  { intros mesh0 positions padding i f bb super Hi Hb Hf.
    unfold Define. apply build_fails_at_init.
    exact (init_build_fails sqrtQ M_EPSILON M_LARGE_EPSILON super i f Hi Hb Hf). }
  split; [apply make_cell_fails|].
  split; [apply insert_point_fails_at_cell|].
  split; [apply no_containing_cell_aborts|].
  split; [apply open_hole_aborts|].
  split; [intros mesh done position rest b f H Hp;
          eapply insert_all_fails; [exact H|exact Hp]|].
  split; [intros mesh0 done position rest padding b f bb super H Hp;
          eapply Define_fails_at_insertion; [exact H|exact Hp]|].
  split; [apply insert_all_no_return|].
  assert (Hpost : forall mesh positions m,
     AddTetrahedralMeshVertices true sqrtQ M_EPSILON M_LARGE_EPSILON tolerance
       mesh positions = Done m ->
     exists b, insert_all true sqrtQ M_EPSILON M_LARGE_EPSILON mesh positions
               = Done (Next b) /\
               post_pass true tolerance b = Done m).
  { intros mesh positions m H. unfold AddTetrahedralMeshVertices in H.
    inv_bind H. destruct (@insert_all_no_return _ _ _ _ _ _ Ha) as [b ->].
    exists b. split; [exact Ha|exact H]. }
  split; [exact Hpost|].
  split.
  { intros mesh0 positions padding i cell i0 i1 i2 i3 p0 p1 p2 p3 bb super
           Hb Hc Hi H0 H1 H2 H3 Hden.
    unfold Define. apply build_fails_at_init.
    apply (init_build_fails sqrtQ M_EPSILON M_LARGE_EPSILON super i).
    - exact (get_lt _ _ _ Hc).
    - exact Hb.
    - exact (degenerate_cell_aborts sqrtQ M_EPSILON M_LARGE_EPSILON super i
               cell i0 i1 i2 i3 p0 p1 p2 p3 Hc Hi H0 H1 H2 H3 Hden). }
  split.
  { intros mesh0 done position rest padding b cellIndex flags s bg cells k bk
           newCellIndex cells2 flags2 cell i0 i1 i2 i3 p0 p1 p2 p3 bb super
           Hall Hf Hp Hs Hcl Hg Hk Hloop Hl Hc Hi H0 H1 H2 H3 Hden.
    apply (Define_fails_at_insertion sqrtQ M_EPSILON M_LARGE_EPSILON tolerance
             mesh0 done position rest padding b _ Hall).
    apply (insert_point_fails_at_cell sqrtQ M_EPSILON M_LARGE_EPSILON
             position b cellIndex flags s bg cells k bk _
             Hf Hp Hs Hcl Hg Hk Hloop).
    apply (make_cell_fails sqrtQ M_EPSILON M_LARGE_EPSILON cells (holeSurface s)
             (size (vertices_ (b_mesh b))) (N.of_nat k) bk newCellIndex cells2
             flags2 _ Hl).
    exact (degenerate_cell_aborts sqrtQ M_EPSILON M_LARGE_EPSILON
             (set_tetrahedrons (b_mesh bk) cells2) newCellIndex
             cell i0 i1 i2 i3 p0 p1 p2 p3 Hc Hi H0 H1 H2 H3 Hden). }
  split.
  { intros mesh0 done position rest padding b bb super Hall Hf.
    apply (Define_fails_at_insertion sqrtQ M_EPSILON M_LARGE_EPSILON tolerance
             mesh0 done position rest padding b _ Hall).
    apply no_containing_cell_aborts. exact Hf. }
  split.
  { intros mesh0 done position rest padding b cellIndex flags s bb super
           Hall Hf Hp Hs Hcl.
    apply (Define_fails_at_insertion sqrtQ M_EPSILON M_LARGE_EPSILON tolerance
             mesh0 done position rest padding b _ Hall).
    exact (@open_hole_aborts sqrtQ M_EPSILON M_LARGE_EPSILON position b
             cellIndex flags s Hf Hp Hs Hcl). }
  intros mesh0 positions padding m H. rewrite Define_eq in H. inv_bind H.
  destruct (@insert_all_no_return _ _ _ _ _ _ Ha) as [b ->].
  exists b. split; [exact Ha|exact H].
Qed.

Lemma assertions_abort_the_build_witness :
  Define_example true [vec3 0 0 0] (1 # 400)
    = Fail (AssertionFailed DegenerateCircumsphere) /\
  Define_example true [vec3 0 0 0; vec3 1 1 1] 0
    = Fail (AssertionFailed DegenerateCircumsphere).
Proof.
  destruct (assertions_abort_the_build sqrt_approx EPSILON_example
              LARGE_EPSILON_example tolerance_example)
    as (_ & _ & _ & _ & _ & _ & _ & _ & _ & _ & _ & _ & Hinit & Hcell & _).
  split.
  - (* cell 0 of the super-mesh of a box of side 1/200 *)
    eapply (Hinit Mesh_empty [vec3 0 0 0] (1 # 400) 0%N); try reflexivity.
    + intros j Hj. exfalso. lia.
    + vm_compute. intro H. discriminate H.
  - (* the first point is a corner of the box: the new cell on hole face 0 *)
    eapply (Hcell Mesh_empty [] (vec3 0 0 0) [vec3 1 1 1] 0 _ _ _ _ _ _ 0%nat).
    + vm_compute. reflexivity.
    + vm_compute. reflexivity.
    + vm_compute. reflexivity.
    + vm_compute. reflexivity.
    + vm_compute. reflexivity.
    + vm_compute. reflexivity.
    + vm_compute. reflexivity.
    + reflexivity.
    + vm_compute. reflexivity.
    + vm_compute. reflexivity.
    + vm_compute. reflexivity.
    + vm_compute. reflexivity.
    + vm_compute. reflexivity.
    + vm_compute. reflexivity.
    + vm_compute. reflexivity.
    + vm_compute. intro H. discriminate H.
Defined.

(** C3, as the specification has it, fails on the code when assertions are
    compiled out. The single point [(0,0,0)] with padding [1/400] gives a
    super-mesh whose circumsphere denominator ([1/4000000]) is below the
    epsilon: with assertions the build aborts, without them the check is
    skipped, the build goes on and returns a mesh. *)
Lemma release_build_does_not_abort :
  Define_example true [vec3 0 0 0] (1 # 400)
    = Fail (AssertionFailed DegenerateCircumsphere) /\
  Define_example false [vec3 0 0 0] (1 # 400)
    = Done (mkMesh [vec3 0 0 0] [] []).
Proof.
  split; [vm_compute; reflexivity|].
  apply (single_point_build false sqrt_approx EPSILON_example
           LARGE_EPSILON_example tolerance_example Mesh_empty (vec3 0 0 0)
           (1 # 400)).
  - exact sqrt_approx_nonneg.
  - reflexivity.
  - reflexivity.
  - discriminate.
Qed.

(** ** The mesh of a single point *)




(** ** The adjacency check *)

Lemma count4_In (q : Quad N) (v : N) :
  Nat.eqb (count4 q v) 0 = false <-> In v (qlist q).
Proof.
  unfold count4. destruct q as [a0 a1 a2 a3]. cbn [qlist filter In].
  destruct (N.eqb_spec a0 v), (N.eqb_spec a1 v), (N.eqb_spec a2 v),
    (N.eqb_spec a3 v); cbn [length Nat.eqb]; split; intro H;
    try reflexivity; try discriminate; auto;
    destruct H as [H|[H|[H|[H|[]]]]]; congruence.
Qed.

Section AdjacencyCheck.
Variable cells : list Tetrahedron.
Variable cellIndex : N.

(** One turn of the inner loop, as [cell_adjacency_valid] folds it. *)
Lemma check_neighbors_false (l : list N) :
  fold_left
    (fun (acc : Outcome bool) (neighborIndex : N) =>
       ok <- acc ;;
       if negb ok then Done false
       else if (neighborIndex =? M_MAX_UNSIGNED)%N then Done true
       else
         neighborCell <- at_ Arr_tetrahedrons cells neighborIndex ;;
         Done (negb (Nat.eqb (count4 (neighbors_ neighborCell) cellIndex) 0)))
    l (Done false) = Done false.
Proof. induction l as [|n l IH]; [reflexivity | exact IH]. Qed.

Lemma check_neighbors_fail (l : list N) (f : Fault) :
  fold_left
    (fun (acc : Outcome bool) (neighborIndex : N) =>
       ok <- acc ;;
       if negb ok then Done false
       else if (neighborIndex =? M_MAX_UNSIGNED)%N then Done true
       else
         neighborCell <- at_ Arr_tetrahedrons cells neighborIndex ;;
         Done (negb (Nat.eqb (count4 (neighbors_ neighborCell) cellIndex) 0)))
    l (Fail f) = Fail f.
Proof. induction l as [|n l IH]; [reflexivity | exact IH]. Qed.

Lemma check_neighbors_true (l : list N) :
  fold_left
    (fun (acc : Outcome bool) (neighborIndex : N) =>
       ok <- acc ;;
       if negb ok then Done false
       else if (neighborIndex =? M_MAX_UNSIGNED)%N then Done true
       else
         neighborCell <- at_ Arr_tetrahedrons cells neighborIndex ;;
         Done (negb (Nat.eqb (count4 (neighbors_ neighborCell) cellIndex) 0)))
    l (Done true) = Done true
  <-> forall n, In n l ->
        n = M_MAX_UNSIGNED \/
        exists neighborCell,
          get cells n = Some neighborCell /\
          In cellIndex (qlist (neighbors_ neighborCell)).
Proof.
  induction l as [|n l IH]; cbn [fold_left bind negb].
  - split; [intros _ n [] | reflexivity].
  - destruct (N.eqb_spec n M_MAX_UNSIGNED) as [E|E].
    + rewrite IH. split.
      * intros H k [<-|Hk]; [left; exact E | apply H; exact Hk].
      * intros H k Hk. apply H. right. exact Hk.
    + unfold at_. destruct (get cells n) as [nc|] eqn:G; cbn [bind].
      * destruct (Nat.eqb (count4 (neighbors_ nc) cellIndex) 0) eqn:C;
          cbn [negb].
        -- rewrite check_neighbors_false. split; [discriminate|].
           intro H. destruct (H n (or_introl eq_refl)) as [Hn|[nc' [G' Hin]]];
             [contradiction|].
           rewrite G in G'. injection G' as <-.
           apply count4_In in Hin. congruence.
        -- rewrite IH. split.
           ++ intros H k [<-|Hk]; [|apply H; exact Hk].
              right. exists nc. split; [exact G | apply count4_In; exact C].
           ++ intros H k Hk. apply H. right. exact Hk.
      * rewrite check_neighbors_fail. split; [discriminate|].
        intro H. destruct (H n (or_introl eq_refl)) as [Hn|[nc' [G' _]]];
          [contradiction | congruence].
Qed.
End AdjacencyCheck.

Lemma cell_adjacency_valid_true (cells : list Tetrahedron) (i : N)
  (cell : Tetrahedron) :
  cell_adjacency_valid cells i cell = Done true <-> lists_back cells i cell.
Proof. unfold cell_adjacency_valid, lists_back. apply check_neighbors_true. Qed.

Lemma adjacency_valid_from_true (cells : list Tetrahedron) :
  forall rest k,
    adjacency_valid_from cells k rest = Done true <->
    forall j cell, get rest j = Some cell -> lists_back cells (k + j) cell.
Proof.
  induction rest as [|c rest IH]; intro k; cbn [adjacency_valid_from].
  - split; [intros _ j cell H; rewrite get_nil in H; discriminate | reflexivity].
  - destruct (cell_adjacency_valid cells k c) as [[|]|] eqn:E; cbn [bind].
    + rewrite IH. apply cell_adjacency_valid_true in E. split.
      * intros H j cell Hj. cbn [get] in Hj.
        destruct (N.eqb_spec j 0) as [->|Hne].
        -- injection Hj as <-. rewrite N.add_0_r. exact E.
        -- replace (k + j)%N with (k + 1 + N.pred j)%N by lia.
           apply H. exact Hj.
      * intros H j cell Hj.
        replace (k + 1 + j)%N with (k + (j + 1))%N by lia.
        apply H. cbn [get].
        destruct (N.eqb_spec (j + 1) 0) as [C|_]; [lia|].
        replace (N.pred (j + 1)) with j by lia. exact Hj.
    + split; [discriminate|]. intro H.
      assert (Hc : lists_back cells k c).
      { rewrite <- (N.add_0_r k). apply H. reflexivity. }
      apply cell_adjacency_valid_true in Hc. congruence.
    + split; [discriminate|]. intro H.
      assert (Hc : lists_back cells k c).
      { rewrite <- (N.add_0_r k). apply H. reflexivity. }
      apply cell_adjacency_valid_true in Hc. congruence.
Qed.

(** [IsTetrahedralMeshAdjacencyValid] returns [true] exactly when every
    neighbour reference of every cell is the null sentinel or the index of a
    cell that has the referring cell among its own four neighbours; it does
    not look at the faces the two references lie on. *)
Theorem adjacency_check_characterised (mesh : TetrahedralMesh) :
  IsTetrahedralMeshAdjacencyValid mesh = Done true <->
  forall i cell, get (tetrahedrons_ mesh) i = Some cell ->
    lists_back (tetrahedrons_ mesh) i cell.
Proof.
  unfold IsTetrahedralMeshAdjacencyValid. rewrite adjacency_valid_from_true.
  split; intros H j cell Hj; [apply (H j cell Hj)|].
  cbn [N.add]. apply H. exact Hj.
Qed.

(** The super-mesh passes the adjacency check, whatever the mesh it
    replaces and whatever its box. *)
Theorem super_mesh_adjacency_valid (mesh0 : TetrahedralMesh) (box : BoundingBox) :
  IsTetrahedralMeshAdjacencyValid (InitializeSuperMesh mesh0 box) = Done true /\
  size (vertices_ (InitializeSuperMesh mesh0 box)) = 8%N /\
  size (tetrahedrons_ (InitializeSuperMesh mesh0 box)) = 5%N /\
  forall i cell, get (tetrahedrons_ (InitializeSuperMesh mesh0 box)) i = Some cell ->
    forall v, In v (qlist (indices_ cell)) -> (v < 8)%N.
Proof.
  split; [reflexivity|]. split; [reflexivity|]. split; [reflexivity|].
  intros i cell Hi v Hv. apply get_In in Hi.
  cbn [InitializeSuperMesh tetrahedrons_ map combine super_indices
       super_neighbors fst snd In] in Hi.
  repeat (destruct Hi as [Hi|Hi];
          [subst cell; cbn [indices_ qlist In] in Hv;
           repeat (destruct Hv as [Hv|Hv]; [subst v; reflexivity|]);
           contradiction|]).
  contradiction.
Qed.

(** ** The parallel arrays of the builder *)

Lemma grow_shape n : forall b cells b' cells',
  grow n b cells = (b', cells') ->
  length (tetrahedrons_ (b_mesh b')) = (length (tetrahedrons_ (b_mesh b)) + n)%nat /\
  length (circumspheres b') = (length (circumspheres b) + n)%nat /\
  length (badFlags b') = (length (badFlags b) + n)%nat /\
  length cells' = (length cells + n)%nat /\
  hullNormals_ (b_mesh b') = hullNormals_ (b_mesh b).
Proof.
  induction n as [|n IH]; intros b cells b' cells' H; cbn [grow] in H.
  - injection H as <- <-. repeat split; lia.
  - apply IH in H. cbn [b_mesh circumspheres badFlags set_tetrahedrons
                        tetrahedrons_ hullNormals_] in H.
    rewrite !length_app in H. cbn [length] in H.
    destruct H as [H1 [H2 [H3 [H4 H5]]]]. repeat split; try lia. exact H5.
Qed.

Ltac bind_cases H :=
  repeat match type of H with
         | bind ?m _ = Done _ =>
             let E := fresh "E" in
             destruct m eqn:E; cbn [bind] in H; [|discriminate H]
         | (if ?c then _ else _) = Done _ =>
             let E := fresh "E" in destruct c eqn:E
         end.

Lemma visit_neighbor_flags b position current tetrahedron j s s' :
  visit_neighbor b position current tetrahedron j s = Done s' ->
  length (s_badFlags s') = length (s_badFlags s).
Proof.
  unfold visit_neighbor. intro H. bind_cases H; injection H as <-;
    try reflexivity.
  cbn [s_badFlags].
  match goal with
  | E : put _ _ _ _ = Done _ |- _ => apply put_done in E; apply set_length in E;
                                      exact E
  end.
Qed.

Lemma visit_batch_flags b position firstCell lastCell s s' :
  visit_batch b position firstCell lastCell s = Done s' ->
  length (s_badFlags s') = length (s_badFlags s).
Proof.
  unfold visit_batch.
  apply (@for_loop_inv Search
           (fun s1 => length (s_badFlags s1) = length (s_badFlags s))).
  - intros i s1 s2 Hs H. inv_bind H. inv_bind H. rewrite <- Hs.
    revert H.
    apply (@for_loop_inv Search
             (fun s3 => length (s_badFlags s3) = length (s_badFlags s1)));
      [|reflexivity].
    intros j s3 s4 Hs3 H. apply visit_neighbor_flags in H. congruence.
  - reflexivity.
Qed.

Lemma breadth_search_flags b position : forall fuel firstCell s s',
  breadth_search fuel b position firstCell s = Done (Some s') ->
  length (s_badFlags s') = length (s_badFlags s).
Proof.
  induction fuel as [|fuel IH]; intros firstCell s s' H; cbn [breadth_search] in H.
  - destruct (firstCell <? size (searchQueue s))%N; [discriminate|].
    injection H as <-. reflexivity.
  - destruct (firstCell <? size (searchQueue s))%N.
    + inv_bind H. apply IH in H. apply visit_batch_flags in Ha. congruence.
    + injection H as <-. reflexivity.
Qed.

Section BuilderShape.
Variable asserts : bool.
Variable sqrtQ : Q -> Q.
Variables M_EPSILON M_LARGE_EPSILON : Q.

Lemma make_cell_shape cells surface newIndex i b b1 :
  make_cell asserts sqrtQ M_EPSILON M_LARGE_EPSILON cells surface newIndex i b
    = Done b1 ->
  length (tetrahedrons_ (b_mesh b1)) = length (tetrahedrons_ (b_mesh b)) /\
  length (circumspheres b1) = length (circumspheres b) /\
  length (badFlags b1) = length (badFlags b) /\
  hullNormals_ (b_mesh b1) = hullNormals_ (b_mesh b).
Proof.
  intro H. apply make_cell_done in H.
  destruct H as (nci & old & face & f0 & f1 & f2 & g0 & g1 & g2 & n0 & n1 & n2
                 & cells1 & cells2 & flags1 & _ & _ & _ & _ & _ & _ & _ & _
                 & H9 & H10 & H11 & H12 & _ & H14 & H15 & H16 & _).
  apply set_length in H9. apply set_length in H11.
  assert (H2 : length cells2 = length cells1).
  { destruct H10 as [[_ ->]|[_ (outer & nb & _ & _ & Hs)]]; [reflexivity|].
    apply set_length in Hs. exact Hs. }
  repeat split; congruence.
Qed.

Lemma init_build_shape mesh b :
  init_build asserts sqrtQ M_EPSILON M_LARGE_EPSILON mesh = Done b ->
  parallel_arrays b /\ b_mesh b = mesh /\
  badFlags b = repeat false (length (tetrahedrons_ mesh)).
Proof.
  unfold init_build. intro H. inv_bind H. destruct a as [spheres flags].
  injection H as <-. unfold parallel_arrays.
  cbn [circumspheres badFlags b_mesh].
  pose (Inv := fun (k : N) (st : list Sphere * list bool) =>
    length (fst st) = N.to_nat k /\ snd st = repeat false (N.to_nat k)).
  assert (HI : Inv (0 + N.of_nat (length (tetrahedrons_ mesh)))%N (spheres, flags)).
  { revert Ha. apply for_loop_ind.
    - intros i [sp fl] [sp' fl'] Hi [Hl Hf] Hb. inv_bind Hb. injection Hb as <- <-.
      unfold Inv in *. cbn [fst snd] in *. rewrite length_app. cbn [length].
      split; [lia|]. rewrite Hf.
      replace (N.to_nat (i + 1)) with (N.to_nat i + 1)%nat by lia.
      rewrite repeat_app. reflexivity.
    - split; reflexivity. }
  destruct HI as [Hl Hf]. cbn [fst snd] in *.
  replace (N.to_nat (0 + N.of_nat (length (tetrahedrons_ mesh))))
    with (length (tetrahedrons_ mesh)) in * by lia.
  rewrite Hf, repeat_length. repeat split; assumption.
Qed.

Lemma insert_point_shape position b r :
  parallel_arrays b ->
  insert_point asserts sqrtQ M_EPSILON M_LARGE_EPSILON position b = Done r ->
  parallel_arrays (flow_state r) /\
  hullNormals_ (b_mesh (flow_state r)) = hullNormals_ (b_mesh b) /\
  (length (tetrahedrons_ (b_mesh b))
   <= length (tetrahedrons_ (b_mesh (flow_state r))))%nat.
Proof.
  intros [Hs Hf]. unfold insert_point. intro H. inv_bind H.
  destruct a as [cellIndex|].
  - inv_bind H. inv_bind H. destruct a0 as [s|]; [|discriminate].
    apply put_done in Ha0. apply set_length in Ha0.
    cbn [badFlags push_vertex] in Ha0.
    apply breadth_search_flags in Ha1. cbn [s_badFlags] in Ha1.
    destruct (negb (IsClosedSurface (holeSurface s))).
    + inv_bind H. injection H as <-. unfold parallel_arrays.
      cbn [flow_state b_mesh push_vertex circumspheres badFlags tetrahedrons_
           hullNormals_].
      repeat split; try congruence. lia.
    + destruct (grow _ _ _) as [b1 cells] eqn:Eg.
      inv_bind H. injection H as <-. cbn [flow_state].
      apply grow_shape in Eg.
      cbn [b_mesh push_vertex circumspheres badFlags tetrahedrons_ hullNormals_]
        in Eg.
      destruct Eg as [G1 [G2 [G3 [_ G5]]]].
      assert (Hloop : length (tetrahedrons_ (b_mesh a0)) = length (tetrahedrons_ (b_mesh b1)) /\
                      length (circumspheres a0) = length (circumspheres b1) /\
                      length (badFlags a0) = length (badFlags b1) /\
                      hullNormals_ (b_mesh a0) = hullNormals_ (b_mesh b1)).
      { revert Ha2.
        apply (@for_loop_inv Build (fun b2 =>
          length (tetrahedrons_ (b_mesh b2)) = length (tetrahedrons_ (b_mesh b1)) /\
          length (circumspheres b2) = length (circumspheres b1) /\
          length (badFlags b2) = length (badFlags b1) /\
          hullNormals_ (b_mesh b2) = hullNormals_ (b_mesh b1))).
        - intros i s0 s1 [I1 [I2 [I3 I4]]] Hm. apply make_cell_shape in Hm.
          destruct Hm as [M1 [M2 [M3 M4]]]. repeat split; congruence.
        - repeat split. }
      destruct Hloop as [L1 [L2 [L3 L4]]]. unfold parallel_arrays.
      repeat split; try congruence. lia.
  - inv_bind H. injection H as <-. unfold parallel_arrays.
    cbn [flow_state b_mesh push_vertex circumspheres badFlags tetrahedrons_
         hullNormals_].
    repeat split; try assumption. lia.
Qed.

Lemma for_each_insert_shape positions : forall b r,
  parallel_arrays b ->
  for_each positions (insert_point asserts sqrtQ M_EPSILON M_LARGE_EPSILON) b
    = Done r ->
  parallel_arrays (flow_state r) /\
  hullNormals_ (b_mesh (flow_state r)) = hullNormals_ (b_mesh b) /\
  (length (tetrahedrons_ (b_mesh b))
   <= length (tetrahedrons_ (b_mesh (flow_state r))))%nat.
Proof.
  induction positions as [|p l IH]; intros b r Hb H; cbn [for_each] in H.
  - injection H as <-. split; [exact Hb|]. split; [reflexivity | apply Nat.le_refl].
  - inv_bind H. apply insert_point_shape in Ha; [|exact Hb].
    destruct Ha as [Hs [Hn Hl]]. destruct a as [b1|b1]; cbn [flow_state] in *.
    + apply IH in H; [|exact Hs]. destruct H as [H1 [H2 H3]].
      split; [exact H1|]. split; [congruence | lia].
    + injection H as <-. split; [exact Hs|]. split; assumption.
Qed.

Lemma insert_all_shape mesh positions r :
  insert_all asserts sqrtQ M_EPSILON M_LARGE_EPSILON mesh positions = Done r ->
  parallel_arrays (flow_state r) /\
  hullNormals_ (b_mesh (flow_state r)) = hullNormals_ mesh /\
  (length (tetrahedrons_ mesh)
   <= length (tetrahedrons_ (b_mesh (flow_state r))))%nat.
Proof.
  unfold insert_all. intro H. inv_bind H.
  apply init_build_shape in Ha. destruct Ha as [Hs [Hm _]].
  apply for_each_insert_shape in H; [|exact Hs]. rewrite Hm in H. exact H.
Qed.
End BuilderShape.

(** The circumspheres and the bad flags stay parallel to the cells: after
    the loop over the positions, on either exit, both arrays have as many
    entries as the mesh has cells; the mesh has at least the cells it
    started with, and the hull normals are not touched. *)
Theorem builder_arrays_stay_parallel
  (asserts : bool) (sqrtQ : Q -> Q) (M_EPSILON M_LARGE_EPSILON : Q)
  (mesh : TetrahedralMesh) (positions : list Vector3) (r : Flow Build) :
  insert_all asserts sqrtQ M_EPSILON M_LARGE_EPSILON mesh positions = Done r ->
  length (circumspheres (flow_state r))
    = length (tetrahedrons_ (b_mesh (flow_state r))) /\
  length (badFlags (flow_state r))
    = length (tetrahedrons_ (b_mesh (flow_state r))) /\
  (length (tetrahedrons_ mesh)
   <= length (tetrahedrons_ (b_mesh (flow_state r))))%nat /\
  hullNormals_ (b_mesh (flow_state r)) = hullNormals_ mesh.
Proof.
  intro H. apply insert_all_shape in H. destruct H as [[H1 H2] [H3 H4]].
  repeat split; assumption.
Qed.

Lemma builder_arrays_stay_parallel_witness :
  length (circumspheres duplicate_build)
    = length (tetrahedrons_ (b_mesh duplicate_build)) /\
  length (badFlags duplicate_build)
    = length (tetrahedrons_ (b_mesh duplicate_build)) /\
  (length (tetrahedrons_ (super_of duplicate_points 1))
   <= length (tetrahedrons_ (b_mesh duplicate_build)))%nat /\
  hullNormals_ (b_mesh duplicate_build) = hullNormals_ (super_of duplicate_points 1).
Proof.
  assert (H : insert_all_example duplicate_points 1 = Done (Next duplicate_build))
    by (vm_compute; reflexivity).
  exact (builder_arrays_stay_parallel true sqrt_approx EPSILON_example
           LARGE_EPSILON_example (super_of duplicate_points 1) duplicate_points
           (Next duplicate_build) H).
Defined.

(** ** The vertices of the mesh that is returned *)

Lemma cull_and_renumber_vertices asserts b m :
  cull_and_renumber asserts b = Done m ->
  vertices_ m = skipn 8 (vertices_ (b_mesh b)) /\
  hullNormals_ m = hullNormals_ (b_mesh b).
Proof.
  unfold cull_and_renumber. intro H.
  inv_bind H. destruct a as [cells flags].
  inv_bind H. destruct a as [newIndices out].
  inv_bind H. inv_bind H. injection H as <-.
  destruct (size (vertices_ (b_mesh b)) <? 8)%N; [discriminate|].
  injection Ha2 as <-. split; reflexivity.
Qed.

Lemma set_matrix_normals asserts tolerance i mesh mesh' :
  set_matrix asserts tolerance i mesh = Done mesh' ->
  hullNormals_ mesh' = hullNormals_ mesh.
Proof.
  intro H. apply set_matrix_done in H.
  destruct H as (cell & p0 & p1 & p2 & p3 & m & cells' & _ & _ & _ & _ & ->).
  reflexivity.
Qed.

Lemma finish_vertices asserts tolerance mesh m :
  finish asserts tolerance mesh = Done m ->
  vertices_ m = vertices_ mesh /\ hullNormals_ m = hullNormals_ mesh /\
  length (tetrahedrons_ m) = length (tetrahedrons_ mesh).
Proof.
  unfold finish. intro H. inv_bind H.
  assert (Hm : m = a).
  { destruct asserts.
    - inv_bind H. inv_bind H. injection H as <-. reflexivity.
    - injection H as <-. reflexivity. }
  subst a.
  pose proof (set_matrix_loop _ _ _ _ Ha) as [Hv [Hl _]].
  split; [exact Hv|]. split; [|exact Hl].
  revert Ha.
  apply (@for_loop_inv TetrahedralMesh
           (fun m1 => hullNormals_ m1 = hullNormals_ mesh)); [|reflexivity].
  intros i s s' Hs Hb. apply set_matrix_normals in Hb. congruence.
Qed.

Lemma super_vertices_length mesh0 box :
  length (vertices_ (InitializeSuperMesh mesh0 box)) = 8%nat.
Proof. reflexivity. Qed.

(** ** An insertion makes a cell on every face of the hole *)

Section NewCells.
Variable asserts : bool.
Variable sqrtQ : Q -> Q.
Variables M_EPSILON M_LARGE_EPSILON : Q.



End NewCells.

(** ** The super-mesh, then the insertions *)

Section DefineVertices.
Variable asserts : bool.
Variable sqrtQ : Q -> Q.
Variables M_EPSILON M_LARGE_EPSILON tolerance : Q.



End DefineVertices.



(** ** Assertions only abort *)

Section Refinement.
Variable sqrtQ : Q -> Q.
Variables M_EPSILON M_LARGE_EPSILON tolerance : Q.

Lemma circumsphere_of_points_refines p0 p1 p2 p3 s :
  circumsphere_of_points true sqrtQ M_EPSILON M_LARGE_EPSILON p0 p1 p2 p3 = Done s ->
  circumsphere_of_points false sqrtQ M_EPSILON M_LARGE_EPSILON p0 p1 p2 p3 = Done s.
Proof.
  unfold circumsphere_of_points. intro H. inv_bind H.
  apply assert_refines in Ha. rewrite Ha. exact H.
Qed.

Lemma GetTetrahedronCircumsphere_refines mesh i s :
  GetTetrahedronCircumsphere true sqrtQ M_EPSILON M_LARGE_EPSILON mesh i = Done s ->
  GetTetrahedronCircumsphere false sqrtQ M_EPSILON M_LARGE_EPSILON mesh i = Done s.
Proof.
  unfold GetTetrahedronCircumsphere. intro H. inv_bind H. rewrite Ha. cbn [bind].
  destruct (indices_ a) as [i0 i1 i2 i3].
  inv_bind H. rewrite Ha0. cbn [bind]. inv_bind H. rewrite Ha1. cbn [bind].
  inv_bind H. rewrite Ha2. cbn [bind]. inv_bind H. rewrite Ha3. cbn [bind].
  apply circumsphere_of_points_refines. exact H.
Qed.

Lemma init_build_refines mesh b :
  init_build true sqrtQ M_EPSILON M_LARGE_EPSILON mesh = Done b ->
  init_build false sqrtQ M_EPSILON M_LARGE_EPSILON mesh = Done b.
Proof.
  unfold init_build. intro H. inv_bind H.
  erewrite for_loop_refines; [exact H | | exact Ha].
  intros i [spheres flags] s' Hb. inv_bind Hb.
  apply GetTetrahedronCircumsphere_refines in Ha0. rewrite Ha0. exact Hb.
Qed.

Lemma make_cell_refines cells surface newIndex i b b1 :
  make_cell true sqrtQ M_EPSILON M_LARGE_EPSILON cells surface newIndex i b
    = Done b1 ->
  make_cell false sqrtQ M_EPSILON M_LARGE_EPSILON cells surface newIndex i b
    = Done b1.
Proof.
  unfold make_cell. intro H.
  inv_bind H. rewrite Ha. cbn [bind].
  inv_bind H. rewrite Ha0. cbn [bind].
  inv_bind H. rewrite Ha1. cbn [bind].
  destruct (tri_indices_ a1) as [f0 f1 f2].
  destruct (tri_neighbors_ a1) as [g0 g1 g2].
  inv_bind H. rewrite Ha2. cbn [bind].
  inv_bind H. rewrite Ha3. cbn [bind].
  inv_bind H. rewrite Ha4. cbn [bind].
  inv_bind H. rewrite Ha5. cbn [bind].
  inv_bind H. rewrite Ha6. cbn [bind].
  inv_bind H. rewrite Ha7. cbn [bind].
  inv_bind H. apply GetTetrahedronCircumsphere_refines in Ha8. rewrite Ha8.
  exact H.
Qed.

Lemma insert_point_refines position b r :
  insert_point true sqrtQ M_EPSILON M_LARGE_EPSILON position b = Done r ->
  insert_point false sqrtQ M_EPSILON M_LARGE_EPSILON position b = Done r.
Proof.
  intro H. pose proof H as Hr. apply insert_point_no_return in Hr.
  destruct Hr as [b1 ->].
  apply insert_point_done in H. apply insert_point_done.
  destruct H as (cellIndex & flags & s & bg & cells & H1 & H2 & H3 & H4 & H5 & H6).
  exists cellIndex, flags, s, bg, cells.
  repeat (split; [assumption|]).
  revert H6. apply for_loop_refines. intros i s0 s1. apply make_cell_refines.
Qed.

Lemma for_each_refines positions : forall b r,
  for_each positions (insert_point true sqrtQ M_EPSILON M_LARGE_EPSILON) b
    = Done r ->
  for_each positions (insert_point false sqrtQ M_EPSILON M_LARGE_EPSILON) b
    = Done r.
Proof.
  induction positions as [|p l IH]; intros b r H; cbn [for_each] in *; [exact H|].
  inv_bind H. apply insert_point_refines in Ha. rewrite Ha. cbn [bind].
  destruct a as [b1|b1]; [apply IH; exact H | exact H].
Qed.

Lemma set_matrix_refines i mesh mesh' :
  set_matrix true tolerance i mesh = Done mesh' ->
  set_matrix false tolerance i mesh = Done mesh'.
Proof.
  intro H. apply set_matrix_done in H.
  destruct H as (cell & p0 & p1 & p2 & p3 & m & cells' & Hc & Hp & Hi & Hs & ->).
  unfold set_matrix, at_. rewrite Hc. cbn [bind].
  unfold cell_points in Hp. destruct (indices_ cell) as [i0 i1 i2 i3].
  destruct (get (vertices_ mesh) i0) as [q0|]; [|discriminate Hp].
  destruct (get (vertices_ mesh) i1) as [q1|]; [|discriminate Hp].
  destruct (get (vertices_ mesh) i2) as [q2|]; [|discriminate Hp].
  destruct (get (vertices_ mesh) i3) as [q3|]; [|discriminate Hp].
  injection Hp as -> -> -> ->. cbn [bind].
  unfold basis_matrix in Hi. cbv zeta in Hi. rewrite Hi. cbn [bind].
  unfold put. rewrite Hs. reflexivity.
Qed.

Lemma finish_refines mesh m :
  finish true tolerance mesh = Done m -> finish false tolerance mesh = Done m.
Proof.
  unfold finish. intro H. inv_bind H.
  erewrite for_loop_refines; [| |exact Ha].
  - cbn [bind]. inv_bind H. inv_bind H. exact H.
  - intros i s s'. apply set_matrix_refines.
Qed.
End Refinement.

(** With assertions, a mesh that [Define] returns comes out of the
    post-pass, after the loop over the positions came to its end. *)
Lemma Define_after_the_loop
  (sqrtQ : Q -> Q) (M_EPSILON M_LARGE_EPSILON tolerance : Q)
  (mesh0 : TetrahedralMesh) (positions : list Vector3) (padding : Q)
  (m : TetrahedralMesh) :
  Define true sqrtQ M_EPSILON M_LARGE_EPSILON tolerance mesh0 positions padding
    = Done m ->
  exists b,
    insert_all true sqrtQ M_EPSILON M_LARGE_EPSILON
      (InitializeSuperMesh mesh0
         (mkBox (v3_sub (min_ (BoundingBox_of positions))
                        (v3_scale padding v3_ONE))
                (v3_add (max_ (BoundingBox_of positions))
                        (v3_scale padding v3_ONE))))
      positions = Done (Next b) /\
    post_pass true tolerance b = Done m.
Proof.
  intro H. rewrite Define_eq in H. inv_bind H.
  destruct (@insert_all_no_return _ _ _ _ _ _ Ha) as [b ->].
  exists b. split; [exact Ha|exact H].
Qed.

Lemma insert_all_refines
  (sqrtQ : Q -> Q) (M_EPSILON M_LARGE_EPSILON : Q)
  (mesh : TetrahedralMesh) (positions : list Vector3) (b : Build) :
  insert_all true sqrtQ M_EPSILON M_LARGE_EPSILON mesh positions
    = Done (Next b) ->
  insert_all false sqrtQ M_EPSILON M_LARGE_EPSILON mesh positions
    = Done (Next b).
Proof.
  intro Ha. unfold insert_all in Ha. inv_bind Ha.
  apply init_build_refines in Ha0. apply for_each_refines in Ha.
  unfold insert_all. rewrite Ha0. cbn [bind]. exact Ha.
Qed.

Lemma post_pass_refines (tolerance : Q) (b : Build) (m : TetrahedralMesh) :
  post_pass true tolerance b = Done m -> post_pass false tolerance b = Done m.
Proof.
  intro H. unfold post_pass in H. inv_bind H.
  apply cull_and_renumber_refines in Ha. apply finish_refines in H.
  unfold post_pass. rewrite Ha. cbn [bind]. exact H.
Qed.

(** A build that passes every assertion returns the same mesh when the
    assertions are compiled out: they only abort, they never change a
    result. *)
Theorem assertions_do_not_change_the_mesh
  (sqrtQ : Q -> Q) (M_EPSILON M_LARGE_EPSILON tolerance : Q)
  (mesh0 : TetrahedralMesh) (positions : list Vector3) (padding : Q)
  (m : TetrahedralMesh) :
  Define true sqrtQ M_EPSILON M_LARGE_EPSILON tolerance mesh0 positions padding
    = Done m ->
  Define false sqrtQ M_EPSILON M_LARGE_EPSILON tolerance mesh0 positions padding
    = Done m.
Proof.
  intro H. apply Define_after_the_loop in H. destruct H as [b [Ha H]].
  apply insert_all_refines in Ha. apply post_pass_refines in H.
  rewrite Define_eq, Ha. cbn [bind]. exact H.
Qed.

Lemma assertions_do_not_change_the_mesh_witness :
  Define_example false duplicate_points 1 = Done duplicate_mesh.
Proof.
  assert (H : Define_example true duplicate_points 1 = Done duplicate_mesh)
    by (vm_compute; reflexivity).
  exact (assertions_do_not_change_the_mesh sqrt_approx EPSILON_example
           LARGE_EPSILON_example tolerance_example Mesh_empty duplicate_points 1
           duplicate_mesh H).
Defined.

(** ** Adjacency symmetry of the mesh that is returned *)




(** ** The scan for the first bad cell *)

Lemma find_first_bad_spec (b : Build) (position : Vector3) :
  forall n from found,
    find_first_bad b position n from = Done found ->
    match found with
    | Some c =>
        (from <= c < from + N.of_nat n)%N /\ bad_candidate b position c /\
        forall i, (from <= i < c)%N -> passed_over b position i
    | None =>
        forall i, (from <= i < from + N.of_nat n)%N -> passed_over b position i
    end.
Proof.
  induction n as [|n IH]; intros from found H; cbn [find_first_bad] in H.
  - injection H as <-. intros i Hi. lia.
  - inv_bind H. apply at_done in Ha. destruct a.
    + apply IH in H. destruct found as [c|].
      * destruct H as [Hc [Hb Hp]]. split; [lia|]. split; [exact Hb|].
        intros i Hi. destruct (N.eq_dec i from) as [->|Hne].
        -- left. exact Ha.
        -- apply Hp. lia.
      * intros i Hi. destruct (N.eq_dec i from) as [->|Hne].
        -- left. exact Ha.
        -- apply H. lia.
    + inv_bind H. apply at_done in Ha0.
      destruct (contains a position) eqn:Ec.
      * injection H as <-. split; [lia|]. split.
        -- split; [exact Ha|]. exists a. split; assumption.
        -- intros i Hi. lia.
      * apply IH in H.
        assert (Hfrom : passed_over b position from).
        { right. split; [exact Ha|]. exists a. split; assumption. }
        destruct found as [c|].
        -- destruct H as [Hc [Hb Hp]]. split; [lia|]. split; [exact Hb|].
           intros i Hi. destruct (N.eq_dec i from) as [->|Hne];
             [exact Hfrom | apply Hp; lia].
        -- intros i Hi. destruct (N.eq_dec i from) as [->|Hne];
             [exact Hfrom | apply H; lia].
Qed.

(** The scan that starts an insertion returns the unflagged cell of lowest
    index whose circumsphere contains the position: every cell before it is
    flagged or does not contain the position; and it returns none only when
    that holds of every cell. *)
Theorem first_bad_cell_is_the_lowest
  (b : Build) (position : Vector3) (found : option N) :
  find_first_bad b position (length (tetrahedrons_ (b_mesh b))) 0 = Done found ->
  match found with
  | Some c =>
      (c < size (tetrahedrons_ (b_mesh b)))%N /\ bad_candidate b position c /\
      forall i, (i < c)%N -> passed_over b position i
  | None =>
      forall i, (i < size (tetrahedrons_ (b_mesh b)))%N -> passed_over b position i
  end.
Proof.
  intro H. apply find_first_bad_spec in H. destruct found as [c|].
  - destruct H as [Hc [Hb Hp]]. split; [unfold size; lia|]. split; [exact Hb|].
    intros i Hi. apply Hp. lia.
  - intros i Hi. apply H. unfold size in Hi. lia.
Qed.

Lemma first_bad_cell_is_the_lowest_witness :
  (7 < size (tetrahedrons_ (b_mesh one_probe_build)))%N /\
  bad_candidate one_probe_build (vec3 (9 # 10) 0 0) 7 /\
  passed_over one_probe_build (vec3 (9 # 10) 0 0) 6.
Proof.
  assert (H : find_first_bad one_probe_build (vec3 (9 # 10) 0 0)
                (length (tetrahedrons_ (b_mesh one_probe_build))) 0
              = Done (Some 7%N))
    by (vm_compute; reflexivity).
  destruct (first_bad_cell_is_the_lowest one_probe_build (vec3 (9 # 10) 0 0)
              (Some 7%N) H) as [H1 [H2 H3]].
  split; [exact H1|]. split; [exact H2|]. apply H3. reflexivity.
Defined.

(** ** The sampler: what a returned result means *)

Lemma coords_sum (mesh : TetrahedralMesh) (i : N) (position : Vector3) (w : Vector4) :
  GetInnerBarycentricCoords mesh i position = Done w ->
  wx w + wy w + wz w + ww w == 1 /\ (i < size (tetrahedrons_ mesh))%N.
Proof.
  unfold GetInnerBarycentricCoords. intro H. inv_bind H.
  apply at_done in Ha. apply get_lt in Ha. split; [|exact Ha].
  destruct (indices_ a) as [i0 i1 i2 i3]. inv_bind H.
  injection H as <-. cbn [wx wy wz ww]. ring.
Qed.

Lemma walk_located (mesh : TetrahedralMesh) (position : Vector3) :
  forall n w0 hint w h,
    walk mesh position n w0 hint = Done (Located, w, h) ->
    GetInnerBarycentricCoords mesh h position = Done w.
Proof.
  induction n as [|n IH]; intros w0 hint w h H; [discriminate|].
  simpl in H.
  destruct (GetInnerBarycentricCoords mesh hint position) as [w1|] eqn:Ew;
    simpl in H; [|discriminate].
  destruct (all_nonnegative w1) eqn:Enn.
  - injection H as <- <-. exact Ew.
  - destruct (at_ Arr_tetrahedrons (tetrahedrons_ mesh) hint) as [cell|];
      simpl in H; [|discriminate].
    destruct (qat Arr_neighbors (neighbors_ cell) (step_face w1)) as [nb|];
      simpl in H; [|discriminate].
    destruct (nb =? M_MAX_UNSIGNED)%N; [discriminate|].
    eapply IH; exact H.
Qed.

(** Every weight vector the walk returns after at least one iteration is the
    vector of barycentric coordinates of some cell. *)
Lemma walk_weights (mesh : TetrahedralMesh) (position : Vector3) :
  forall n w0 hint e w h,
    walk mesh position (S n) w0 hint = Done (e, w, h) ->
    exists c, GetInnerBarycentricCoords mesh c position = Done w.
Proof.
  induction n as [|n IH]; intros w0 hint e w h H.
  - simpl in H.
    destruct (GetInnerBarycentricCoords mesh hint position) as [w1|] eqn:Ew;
      simpl in H; [|discriminate].
    destruct (all_nonnegative w1).
    + injection H as _ <- _. eauto.
    + destruct (at_ Arr_tetrahedrons (tetrahedrons_ mesh) hint) as [cell|];
        simpl in H; [|discriminate].
      destruct (qat Arr_neighbors (neighbors_ cell) (step_face w1)) as [nb|];
        simpl in H; [|discriminate].
      destruct (nb =? M_MAX_UNSIGNED)%N; injection H as _ <- _; eauto.
  - change (walk mesh position (S (S n)) w0 hint) with
      (weights <- GetInnerBarycentricCoords mesh hint position ;;
       if all_nonnegative weights then Done (Located, weights, hint)
       else
         cell <- at_ Arr_tetrahedrons (tetrahedrons_ mesh) hint ;;
         hint' <- qat Arr_neighbors (neighbors_ cell) (step_face weights) ;;
         if (hint' =? M_MAX_UNSIGNED)%N then Done (OffHull, weights, hint')
         else walk mesh position (S n) weights hint') in H.
    destruct (GetInnerBarycentricCoords mesh hint position) as [w1|] eqn:Ew;
      cbn [bind] in H; [|discriminate].
    destruct (all_nonnegative w1).
    + injection H as _ <- _. eauto.
    + destruct (at_ Arr_tetrahedrons (tetrahedrons_ mesh) hint) as [cell|];
        cbn [bind] in H; [|discriminate].
      destruct (qat Arr_neighbors (neighbors_ cell) (step_face w1)) as [nb|];
        cbn [bind] in H; [|discriminate].
      destruct (nb =? M_MAX_UNSIGNED)%N.
      * injection H as _ <- _. eauto.
      * eapply IH; exact H.
Qed.

Lemma locate_exit {T : Type} {P : Payload T} (gi : GlobalIllumination T)
  (weights0 : Vector4) (position : Vector3) (hint : N) (e : WalkExit)
  (w : Vector4) (h : N) :
  (0 < probeCount gi)%N ->
  locate gi weights0 position hint = Done (e, w, h) ->
  all_nonnegative w = true -> e = Located.
Proof.
  intros Hp H Hnn. unfold locate in H.
  pose proof (walk_exit _ _ _ _ _ _ _ _ H) as Hx.
  destruct e; [reflexivity | |].
  - destruct Hx as [_ Hx]. congruence.
  - destruct Hx as [Hx _]; [lia | congruence].
Qed.

(** When there is a probe and the sampler returns weights that are all
    non-negative, the walk has found a cell: the hint it leaves is the index
    of a cell of the mesh, the weights are the barycentric coordinates of
    the position in that cell, and they sum to one. *)
Theorem nonnegative_weights_locate
  (T : Type) (P : Payload T) (gi : GlobalIllumination T)
  (weights0 : Vector4) (position : Vector3) (hint : N) (w : Vector4) (h : N) :
  (0 < probeCount gi)%N ->
  SampleLightProbeMesh gi weights0 position hint = Done (w, h) ->
  all_nonnegative w = true ->
  GetInnerBarycentricCoords (lightProbesMesh_ gi) h position = Done w /\
  (h < size (tetrahedrons_ (lightProbesMesh_ gi)))%N /\
  wx w + wy w + wz w + ww w == 1.
Proof.
  intros Hp H Hnn. unfold SampleLightProbeMesh in H.
  destruct (locate gi weights0 position hint) as [[[e w'] h']|] eqn:El;
    cbn [bind] in H; [|discriminate].
  injection H as -> ->.
  pose proof (locate_exit gi weights0 position hint e w h Hp El Hnn) as ->.
  unfold locate in El. apply walk_located in El.
  destruct (coords_sum _ _ _ _ El) as [Hs Hh].
  split; [exact El|]. split; [exact Hh | exact Hs].
Qed.

Lemma nonnegative_weights_locate_witness :
  GetInnerBarycentricCoords eight_probes_mesh (snd located_example)
    (vec3 (5 # 2) 1 2) = Done (fst located_example) /\
  (snd located_example < size (tetrahedrons_ eight_probes_mesh))%N /\
  wx (fst located_example) + wy (fst located_example)
  + wz (fst located_example) + ww (fst located_example) == 1.
Proof.
  apply (nonnegative_weights_locate Q Payload_Q eight_probes_gi
           (vec4 0 0 0 0) (vec3 (5 # 2) 1 2) 0%N
           (fst located_example) (snd located_example)).
  - vm_compute. reflexivity.
  - vm_compute. reflexivity.
  - vm_compute. reflexivity.
Defined.

(** Without a probe the loop of the sampler does not run: the hint is reset
    to 0 and the weights are the ones the vector was constructed with; after
    [ResetLightProbes] the ambient sampler returns the zero payload. *)
Theorem sampling_without_probes
  (T : Type) (P : Payload T) (gi : GlobalIllumination T)
  (weights0 : Vector4) (position : Vector3) (hint : N) :
  (probeCount gi = 0%N ->
   SampleLightProbeMesh gi weights0 position hint = Done (weights0, 0%N)) /\
  SampleLightProbeMesh (ResetLightProbes gi) weights0 position hint
    = Done (weights0, 0%N) /\
  SampleAmbientSH (ResetLightProbes gi) weights0 position hint
    = Done (pl_zero, 0%N).
Proof.
  assert (Hgen : forall g : GlobalIllumination T, probeCount g = 0%N ->
            SampleLightProbeMesh g weights0 position hint = Done (weights0, 0%N)).
  { intros g Hg. unfold SampleLightProbeMesh, locate, reset_hint. rewrite Hg.
    cbn [N.to_nat walk bind]. destruct (0 <=? hint)%N eqn:E; [reflexivity|].
    apply N.leb_gt in E. lia. }
  split; [apply Hgen|].
  split; [apply Hgen; reflexivity|].
  unfold SampleAmbientSH. rewrite Hgen by reflexivity. reflexivity.
Qed.

Lemma sampling_without_probes_witness :
  SampleLightProbeMesh (mkGI (mkCollection (@nil Q)) eight_probes_mesh)
    (vec4 0 0 0 0) (vec3 1 1 1) 5 = Done (vec4 0 0 0 0, 0%N).
Proof.
  apply (proj1 (sampling_without_probes Q Payload_Q
                  (mkGI (mkCollection (@nil Q)) eight_probes_mesh)
                  (vec4 0 0 0 0) (vec3 1 1 1) 5%N)).
  reflexivity.
Defined.

(** When the walk steps through a face without a neighbour, the sampler
    returns the weights of the last cell, which carry a negative entry, and
    the null sentinel as the hint; the ambient sampler then returns the
    zero payload, and the next call starts again from cell 0. *)
Theorem off_hull_sample_is_zero
  (T : Type) (P : Payload T) (gi : GlobalIllumination T)
  (weights0 : Vector4) (position : Vector3) (hint : N) (w : Vector4) (h : N) :
  (size (tetrahedrons_ (lightProbesMesh_ gi)) <= M_MAX_UNSIGNED)%N ->
  (probeCount gi <= M_MAX_UNSIGNED)%N ->
  locate gi weights0 position hint = Done (OffHull, w, h) ->
  SampleLightProbeMesh gi weights0 position hint = Done (w, M_MAX_UNSIGNED) /\
  all_nonnegative w = false /\
  SampleAmbientSH gi weights0 position hint = Done (pl_zero, M_MAX_UNSIGNED) /\
  reset_hint gi M_MAX_UNSIGNED = 0%N.
Proof.
  intros Hsize Hprobes Hloc.
  pose proof Hloc as Hx. unfold locate in Hx. apply walk_exit in Hx.
  destruct Hx as [-> Hneg].
  assert (Hs : SampleLightProbeMesh gi weights0 position hint
               = Done (w, M_MAX_UNSIGNED)).
  { unfold SampleLightProbeMesh. rewrite Hloc. reflexivity. }
  split; [exact Hs|]. split; [exact Hneg|]. split.
  - unfold SampleAmbientSH. rewrite Hs. cbn [bind].
    apply N.leb_le in Hsize. rewrite Hsize. reflexivity.
  - unfold reset_hint. apply N.leb_le in Hprobes. rewrite Hprobes. reflexivity.
Qed.

Lemma off_hull_sample_is_zero_witness :
  SampleAmbientSH eight_probes_gi (vec4 0 0 0 0) (vec3 100 0 0) 0
  = Done (0, M_MAX_UNSIGNED).
Proof.
  refine (proj1 (proj2 (proj2
    (off_hull_sample_is_zero Q Payload_Q eight_probes_gi (vec4 0 0 0 0)
       (vec3 100 0 0) 0%N
       (vec4 (-779118750000 # 38443359375) (-130050 # 3375) (131175 # 3375)
             (70650 # 3375))
       M_MAX_UNSIGNED _ _ _)))).
  - vm_compute. discriminate.
  - vm_compute. discriminate.
  - vm_compute. reflexivity.
Defined.

(** ** Sampling at a probe *)








(** ** Hull normals *)

Lemma resize_length {A} (l : list A) (n : nat) (d : A) :
  length (resize l n d) = n.
Proof.
  unfold resize. rewrite length_app, length_firstn, repeat_length. lia.
Qed.

(** The normal of a hull face is perpendicular to the face and does not
    point to the side of the vertex opposite the face: its dot product with
    the vector from that vertex to each vertex of the face is the same
    non-negative number. *)
Theorem hull_normal_points_outward (p0 p1 p2 p3 : Vector3) :
  let normal := hull_normal p0 p1 p2 p3 in
  DotProduct normal (v3_sub p2 p1) == 0 /\
  DotProduct normal (v3_sub p3 p1) == 0 /\
  0 <= DotProduct normal (v3_sub p1 p0) /\
  DotProduct normal (v3_sub p2 p0) == DotProduct normal (v3_sub p1 p0) /\
  DotProduct normal (v3_sub p3 p0) == DotProduct normal (v3_sub p1 p0).
Proof.
  unfold hull_normal.
  destruct (Qle_bool 0 (DotProduct (CrossProduct (v3_sub p2 p1) (v3_sub p3 p1))
                                   (v3_sub p1 p0))) eqn:E.
  - apply Qle_bool_iff in E.
    destruct p0 as [x0 y0 z0], p1 as [x1 y1 z1], p2 as [x2 y2 z2],
      p3 as [x3 y3 z3].
    unfold DotProduct, CrossProduct, v3_sub in *. cbn [x_ y_ z_] in *.
    repeat split; try ring. exact E.
  - assert (E' : DotProduct (CrossProduct (v3_sub p2 p1) (v3_sub p3 p1))
                            (v3_sub p1 p0) < 0).
    { apply Qnot_le_lt. intro C. apply Qle_bool_iff in C. congruence. }
    destruct p0 as [x0 y0 z0], p1 as [x1 y1 z1], p2 as [x2 y2 z2],
      p3 as [x3 y3 z3].
    unfold DotProduct, CrossProduct, v3_sub, v3_neg in *. cbn [x_ y_ z_] in *.
    repeat split; try ring. lra.
Qed.

Lemma add_normal_done normal v normals normals' :
  add_normal normal v normals = Done normals' ->
  length normals' = length normals /\
  forall u, u <> v -> get normals' u = get normals u.
Proof.
  unfold add_normal. intro H. inv_bind H. apply put_done in H.
  split; [eapply set_length; exact H|].
  intros u Hu. eapply get_set_other; [exact H | exact Hu].
Qed.

Lemma add_normal_total normal v normals :
  (v < size normals)%N -> exists normals', add_normal normal v normals = Done normals'.
Proof.
  intro Hv. unfold add_normal, at_, put.
  destruct (get_some normals v Hv) as [old Ho]. rewrite Ho. cbn [bind].
  destruct (@set_some _ normals v (v3_add old normal) Hv) as [l Hl].
  rewrite Hl. eauto.
Qed.

Lemma tnth_In {A} (t : Triple A) (j : N) : In (tnth t j) (tlist t).
Proof.
  destruct t as [a0 a1 a2]. cbn [tnth tlist In].
  destruct j as [|[p|p|]]; auto.
Qed.

Lemma hull_face_indices cell i base tri :
  hull_face cell i = Done (base, tri) ->
  In base (qlist (indices_ cell)) /\
  forall v, In v (tlist tri) -> In v (qlist (indices_ cell)).
Proof.
  unfold hull_face. destruct (indices_ cell) as [i0 i1 i2 i3].
  destruct i as [|[[p|p|]|[p|p|]|]]; intro H; try discriminate H;
    injection H as <- <-; cbn [qlist tlist In]; split; auto;
    intros v [<-|[<-|[<-|[]]]]; auto.
Qed.

Lemma hull_face_total cell i :
  (i < 4)%N -> exists base tri, hull_face cell i = Done (base, tri).
Proof.
  intro Hi. unfold hull_face. destruct (indices_ cell) as [i0 i1 i2 i3].
  assert (Hc : i = 0%N \/ i = 1%N \/ i = 2%N \/ i = 3%N) by lia.
  destruct Hc as [-> | [-> | [-> | ->]]]; eauto.
Qed.

(** What one face of a cell does to the normals. *)
Lemma add_hull_face_done vertices cell i normals normals' :
  add_hull_face vertices cell i normals = Done normals' ->
  length normals' = length normals /\
  forall u,
    (forall base tri, qget (neighbors_ cell) i = Some M_MAX_UNSIGNED ->
                      hull_face cell i = Done (base, tri) -> ~ In u (tlist tri)) ->
    get normals' u = get normals u.
Proof.
  unfold add_hull_face. intro H. inv_bind H.
  unfold qat in Ha. destruct (qget (neighbors_ cell) i) as [n|] eqn:En;
    [|discriminate Ha]. injection Ha as <-.
  destruct (N.eqb_spec n M_MAX_UNSIGNED) as [->|Hn]; cbn [negb] in H.
  - inv_bind H. destruct a as [base tri].
    inv_bind H. inv_bind H. inv_bind H. inv_bind H.
    assert (HI : length normals' = length normals /\
                 forall u, ~ In u (tlist tri) -> get normals' u = get normals u).
    { revert H.
      apply (@for_loop_inv (list Vector3) (fun l =>
        length l = length normals /\
        forall u, ~ In u (tlist tri) -> get l u = get normals u)).
      - intros j l l' [Hl Hg] Hb. apply add_normal_done in Hb.
        destruct Hb as [Hl' Hg']. split; [congruence|].
        intros u Hu. rewrite Hg'; [apply Hg; exact Hu|].
        intro C. subst u. apply Hu. apply tnth_In.
      - split; [reflexivity | intros; reflexivity]. }
    destruct HI as [Hl Hg]. split; [exact Hl|].
    intros u Hu. apply Hg. apply (Hu base tri eq_refl Ha).
  - injection H as <-. split; [reflexivity | intros; reflexivity].
Qed.

Lemma add_hull_face_total vertices cell i normals :
  (i < 4)%N ->
  length normals = length vertices ->
  (forall v, In v (qlist (indices_ cell)) -> (v < size vertices)%N) ->
  exists normals', add_hull_face vertices cell i normals = Done normals'.
Proof.
  intros Hi Hl Hv. unfold add_hull_face, qat.
  destruct (qget_some (neighbors_ cell) i Hi) as [n Hn]. rewrite Hn. cbn [bind].
  destruct (negb (n =? M_MAX_UNSIGNED)%N); [eauto|].
  destruct (hull_face_total cell i Hi) as [base [tri Hf]]. rewrite Hf. cbn [bind].
  destruct (hull_face_indices _ _ _ _ Hf) as [Hb Ht].
  unfold at_.
  destruct (get_some vertices base (Hv _ Hb)) as [p0 G0]. rewrite G0. cbn [bind].
  destruct (get_some vertices (tnth tri 0) (Hv _ (Ht _ (tnth_In tri 0))))
    as [p1 G1]. rewrite G1. cbn [bind].
  destruct (get_some vertices (tnth tri 1) (Hv _ (Ht _ (tnth_In tri 1))))
    as [p2 G2]. rewrite G2. cbn [bind].
  destruct (get_some vertices (tnth tri 2) (Hv _ (Ht _ (tnth_In tri 2))))
    as [p3 G3]. rewrite G3. cbn [bind].
  destruct (@for_loop_total (list Vector3)
              (fun _ l => length l = length vertices)
              (fun j l => add_normal (hull_normal p0 p1 p2 p3) (tnth tri j) l)
              3 0%N normals) as [l [Hl' _]].
  - intros j l Hj Hlen.
    destruct (add_normal_total (hull_normal p0 p1 p2 p3) (tnth tri j) l)
      as [l' Hl'].
    { unfold size. rewrite Hlen. apply (Hv _ (Ht _ (tnth_In tri j))). }
    exists l'. split; [exact Hl'|].
    apply add_normal_done in Hl'. destruct Hl' as [E _]. congruence.
  - exact Hl.
  - eauto.
Qed.

Lemma add_hull_cell_done vertices cell normals normals' :
  for_loop 4 0 (add_hull_face vertices cell) normals = Done normals' ->
  length normals' = length normals /\
  forall u, ~ on_hull_face cell u -> get normals' u = get normals u.
Proof.
  apply (@for_loop_inv (list Vector3) (fun l =>
    length l = length normals /\
    forall u, ~ on_hull_face cell u -> get l u = get normals u)).
  - intros i l l' [Hl Hg] Hb. apply add_hull_face_done in Hb.
    destruct Hb as [Hl' Hg']. split; [congruence|].
    intros u Hu. rewrite Hg'; [apply Hg; exact Hu|].
    intros base tri En Hf C. apply Hu. exists i, base, tri. auto.
  - split; [reflexivity | intros; reflexivity].
Qed.

Lemma add_hull_faces_done vertices cells : forall normals normals',
  add_hull_faces vertices cells normals = Done normals' ->
  length normals' = length normals /\
  forall u, (forall cell, In cell cells -> ~ on_hull_face cell u) ->
            get normals' u = get normals u.
Proof.
  induction cells as [|cell rest IH]; intros normals normals' H;
    cbn [add_hull_faces] in H.
  - injection H as <-. split; [reflexivity | intros; reflexivity].
  - inv_bind H. apply add_hull_cell_done in Ha. destruct Ha as [Hl Hg].
    apply IH in H. destruct H as [Hl' Hg']. split; [congruence|].
    intros u Hu. rewrite Hg'; [apply Hg; apply Hu; left; reflexivity|].
    intros c Hc. apply Hu. right. exact Hc.
Qed.

Lemma add_hull_faces_total vertices cells : forall normals,
  length normals = length vertices ->
  (forall cell v, In cell cells -> In v (qlist (indices_ cell)) ->
                  (v < size vertices)%N) ->
  exists normals', add_hull_faces vertices cells normals = Done normals'.
Proof.
  induction cells as [|cell rest IH]; intros normals Hl Hv;
    cbn [add_hull_faces]; [eauto|].
  destruct (@for_loop_total (list Vector3)
              (fun _ l => length l = length vertices)
              (add_hull_face vertices cell) 4 0%N normals) as [l [Hloop Hlen]].
  - intros i l Hi Hlen.
    destruct (add_hull_face_total vertices cell i l) as [l' Hl']; [lia | exact Hlen | |].
    + intros v Hin. apply (Hv cell v); [left; reflexivity | exact Hin].
    + exists l'. split; [exact Hl'|].
      apply add_hull_face_done in Hl'. destruct Hl' as [E _]. congruence.
  - exact Hl.
  - rewrite Hloop. cbn [bind]. apply IH; [exact Hlen|].
    intros c v Hc. apply Hv. right. exact Hc.
Qed.

Lemma get_repeat {A} (d : A) (n : nat) (i : N) :
  (i < N.of_nat n)%N -> get (repeat d n) i = Some d.
Proof.
  revert i. induction n as [|n IH]; intros i Hi; [lia|].
  cbn [repeat get]. destruct (N.eqb_spec i 0) as [_|Hne]; [reflexivity|].
  apply IH. lia.
Qed.

(** [GenerateHullNormals] returns when every vertex index of every cell is
    in range. It leaves the vertices and the cells as they are and gives one
    normal per vertex; in a mesh that had no normals, a vertex that lies on
    no face without a neighbour gets the zero normal. *)
Theorem hull_normals_generated
  (Normalize : Vector3 -> Vector3) (mesh : TetrahedralMesh) :
  indices_in_range mesh ->
  exists normals,
    GenerateHullNormals Normalize mesh
      = Done (mkMesh (vertices_ mesh) (tetrahedrons_ mesh) normals) /\
    length normals = length (vertices_ mesh) /\
    (hullNormals_ mesh = [] ->
     forall v, (v < size (vertices_ mesh))%N ->
       (forall cell, In cell (tetrahedrons_ mesh) -> ~ on_hull_face cell v) ->
       get normals v = Some v3_ZERO).
Proof.
  intro Hr. unfold GenerateHullNormals.
  destruct (add_hull_faces_total (vertices_ mesh) (tetrahedrons_ mesh)
              (resize (hullNormals_ mesh) (length (vertices_ mesh)) v3_ZERO))
    as [normals Hn].
  { apply resize_length. }
  { exact Hr. }
  rewrite Hn. cbn [bind]. eexists. split; [reflexivity|].
  apply add_hull_faces_done in Hn. destruct Hn as [Hl Hg].
  rewrite resize_length in Hl.
  split; [rewrite length_map; exact Hl|].
  intros Hnil v Hv Hint. rewrite get_map, (Hg v Hint), Hnil.
  unfold resize. cbn [firstn length app]. rewrite firstn_nil. cbn [app].
  rewrite get_repeat by (unfold size in Hv; lia).
  reflexivity.
Qed.

(** ** Compiling the light probes *)

Lemma basis_round_trip_indices (mesh : TetrahedralMesh) (i : N) (cell : Tetrahedron) :
  basis_round_trip mesh i -> get (tetrahedrons_ mesh) i = Some cell ->
  forall v, In v (qlist (indices_ cell)) -> (v < size (vertices_ mesh))%N.
Proof.
  intros (cell' & p0 & p1 & p2 & p3 & w0 & w1 & w2 & w3 & Hc & Hp & _) Hcell.
  rewrite Hcell in Hc. injection Hc as <-.
  unfold cell_points in Hp. destruct (indices_ cell) as [i0 i1 i2 i3].
  destruct (get (vertices_ mesh) i0) as [q0|] eqn:V0; [|discriminate Hp].
  destruct (get (vertices_ mesh) i1) as [q1|] eqn:V1; [|discriminate Hp].
  destruct (get (vertices_ mesh) i2) as [q2|] eqn:V2; [|discriminate Hp].
  destruct (get (vertices_ mesh) i3) as [q3|] eqn:V3; [|discriminate Hp].
  apply get_lt in V0, V1, V2, V3.
  intros v [<-|[<-|[<-|[<-|[]]]]]; assumption.
Qed.

Lemma In_get {A} (l : list A) (x : A) :
  In x l -> exists i, get l i = Some x.
Proof.
  induction l as [|a l IH]; [intros []|]. intros [->|H].
  - exists 0%N. reflexivity.
  - destruct (IH H) as [i Hi]. exists (i + 1)%N. cbn [get].
    destruct (N.eqb_spec (i + 1) 0) as [C|_]; [lia|].
    replace (N.pred (i + 1)) with i by lia. exact Hi.
Qed.

(** The post-pass returns a mesh whose cells only name vertices of the
    mesh: the loop over the inverse bases has read all of them. *)
Lemma post_pass_indices_in_range asserts tolerance b m :
  post_pass asserts tolerance b = Done m -> indices_in_range m.
Proof.
  intro H. unfold post_pass in H. inv_bind H.
  pose proof (finish_round_trip _ _ _ _ H) as Hrt.
  intros cell v Hc Hv. destruct (In_get _ _ Hc) as [i Hi].
  apply (basis_round_trip_indices m i cell); [|exact Hi | exact Hv].
  apply Hrt. eapply get_lt. exact Hi.
Qed.

Lemma post_pass_vertices asserts tolerance b m :
  post_pass asserts tolerance b = Done m ->
  vertices_ m = skipn 8 (vertices_ (b_mesh b)) /\
  hullNormals_ m = hullNormals_ (b_mesh b).
Proof.
  intro H. unfold post_pass in H. inv_bind H.
  apply cull_and_renumber_vertices in Ha. destruct Ha as [Hv1 Hn1].
  apply finish_vertices in H. destruct H as [Hv2 [Hn2 _]].
  split; congruence.
Qed.

Lemma insert_all_next_vertices asserts sqrtQ M_EPSILON M_LARGE_EPSILON
  mesh positions b :
  insert_all asserts sqrtQ M_EPSILON M_LARGE_EPSILON mesh positions
    = Done (Next b) ->
  vertices_ (b_mesh b) = vertices_ mesh ++ positions.
Proof.
  intro H. unfold insert_all in H. inv_bind H.
  pose proof (init_build_mesh _ _ _ _ _ _ Ha) as Hm.
  apply for_each_insert_vertices in H. rewrite Hm in H. exact H.
Qed.

Lemma GenerateHullNormals_total (Normalize : Vector3 -> Vector3)
  (mesh : TetrahedralMesh) :
  indices_in_range mesh ->
  exists normals,
    GenerateHullNormals Normalize mesh
      = Done (mkMesh (vertices_ mesh) (tetrahedrons_ mesh) normals) /\
    length normals = length (vertices_ mesh).
Proof.
  intro Hr. unfold GenerateHullNormals.
  destruct (add_hull_faces_total (vertices_ mesh) (tetrahedrons_ mesh)
              (resize (hullNormals_ mesh) (length (vertices_ mesh)) v3_ZERO))
    as [normals Hn].
  { apply resize_length. }
  { exact Hr. }
  rewrite Hn. cbn [bind]. eexists. split; [reflexivity|].
  apply add_hull_faces_done in Hn. destruct Hn as [Hl _].
  rewrite resize_length in Hl. rewrite length_map. exact Hl.
Qed.

Section CompileFacts.
Variable sqrtQ : Q -> Q.
Variables M_EPSILON M_LARGE_EPSILON tolerance padding : Q.
Variable Normalize : Vector3 -> Vector3.

(** With assertions, once [Define] has returned for the positions of the
    probes, [CompileLightProbes] returns too: the hull normals can be
    generated. The vertices of its mesh are the positions of the probes, in
    their order, so that there are as many probes as vertices, with one hull
    normal each. *)
Theorem compiled_probes_match_the_vertices
  (T : Type) (collected : list (Vector3 * T)) (gi : GlobalIllumination T)
  (m : TetrahedralMesh) :
  collected <> [] ->
  Define true sqrtQ M_EPSILON M_LARGE_EPSILON tolerance Mesh_empty
         (map fst collected) padding = Done m ->
  exists normals,
    CompileLightProbes true sqrtQ M_EPSILON M_LARGE_EPSILON tolerance padding
      Normalize collected gi
    = Done (mkGI (mkCollection (map snd collected))
                 (mkMesh (vertices_ m) (tetrahedrons_ m) normals)) /\
    vertices_ m = map fst collected /\
    length normals = length collected.
Proof.
  intros Hne Hdef. unfold CompileLightProbes.
  destruct collected as [|c rest]; [contradiction|].
  cbn [ResetLightProbes lightProbesMesh_]. rewrite Hdef. cbn [bind].
  pose proof Hdef as H. rewrite Define_eq in H. inv_bind H.
  destruct (@insert_all_no_return _ _ _ _ _ _ Ha) as [b ->].
  pose proof (post_pass_indices_in_range _ _ _ _ H) as Hr.
  destruct (GenerateHullNormals_total Normalize m Hr) as [normals [Hg Hl]].
  rewrite Hg. cbn [bind]. exists normals. split; [reflexivity|].
  apply insert_all_next_vertices in Ha.
  apply post_pass_vertices in H. destruct H as [Hv _].
  assert (Hvm : vertices_ m = map fst (c :: rest)).
  { rewrite Hv, Ha. reflexivity. }
  split; [exact Hvm|].
  rewrite Hl, Hvm, length_map. reflexivity.
Qed.
End CompileFacts.

Lemma compiled_probes_match_the_vertices_witness :
  exists normals,
    CompileLightProbes true sqrt_approx EPSILON_example LARGE_EPSILON_example
      tolerance_example 2 (fun v => v)
      (combine eight_probes [1; 2; 3; 4; 5; 6; 7; 8])
      (mkGI (mkCollection []) Mesh_empty)
    = Done (mkGI (mkCollection [1; 2; 3; 4; 5; 6; 7; 8])
                 (mkMesh (vertices_ eight_probes_mesh)
                         (tetrahedrons_ eight_probes_mesh) normals)) /\
    vertices_ eight_probes_mesh = eight_probes /\
    length normals = 8%nat.
Proof.
  assert (Hne : combine eight_probes [1; 2; 3; 4; 5; 6; 7; 8] <> [])
    by discriminate.
  assert (Hdef : Define_example true eight_probes 2 = Done eight_probes_mesh)
    by (vm_compute; reflexivity).
  exact (compiled_probes_match_the_vertices sqrt_approx EPSILON_example
           LARGE_EPSILON_example tolerance_example 2 (fun v => v) Q
           (combine eight_probes [1; 2; 3; 4; 5; 6; 7; 8])
           (mkGI (mkCollection []) Mesh_empty) eight_probes_mesh Hne Hdef).
Defined.

Lemma built_mesh_indices_in_range asserts sqrtQ M_EPSILON M_LARGE_EPSILON
  tolerance mesh0 positions padding b m :
  insert_all asserts sqrtQ M_EPSILON M_LARGE_EPSILON
    (InitializeSuperMesh mesh0
       (mkBox (v3_sub (min_ (BoundingBox_of positions))
                      (v3_scale padding v3_ONE))
              (v3_add (max_ (BoundingBox_of positions))
                      (v3_scale padding v3_ONE))))
    positions = Done (Next b) ->
  Define asserts sqrtQ M_EPSILON M_LARGE_EPSILON tolerance mesh0 positions padding
    = Done m ->
  indices_in_range m.
Proof.
  intros Hb H. rewrite Define_eq, Hb in H. cbn [bind] in H.
  eapply post_pass_indices_in_range. exact H.
Qed.

Lemma hull_normals_generated_witness :
  indices_in_range duplicate_mesh /\
  exists normals,
    GenerateHullNormals (fun v => v) duplicate_mesh
      = Done (mkMesh (vertices_ duplicate_mesh) (tetrahedrons_ duplicate_mesh)
                     normals) /\
    length normals = 5%nat.
Proof.
  assert (Hr : indices_in_range duplicate_mesh).
  { apply (built_mesh_indices_in_range true sqrt_approx EPSILON_example
             LARGE_EPSILON_example tolerance_example Mesh_empty
             duplicate_points 1 duplicate_build);
      vm_compute; reflexivity. }
  split; [exact Hr|].
  destruct (hull_normals_generated (fun v => v) duplicate_mesh Hr)
    as [normals [Hg [Hl _]]].
  exists normals. split; [exact Hg | exact Hl].
Defined.

(** ** The links of a new cell *)

Lemma qget_qset_same {A} (q q' : Quad A) (i : N) (v : A) :
  qset q i v = Some q' -> qget q' i = Some v.
Proof.
  destruct q as [a0 a1 a2 a3]. unfold qset.
  destruct i as [|[[p|p|]|[p|p|]|]]; intro H; try discriminate H;
    injection H as <-; reflexivity.
Qed.

(** The cell made on hole face [i] has the three vertices of the face and
    the inserted point as its vertices. Its neighbours are the cells made
    on the three faces that the face is linked to and, across the face
    itself, the cell outside the hole; that cell gets the new cell as its
    neighbour on the side where it had the bad cell: the two reference each
    other. The new cell is no longer flagged. *)
Theorem new_cell_is_linked
  (asserts : bool) (sqrtQ : Q -> Q) (M_EPSILON M_LARGE_EPSILON : Q)
  (cells : list N) (surface : TetrahedralMeshSurface) (newIndex i : N)
  (b b1 : Build) (newCellIndex : N) (face : TetrahedralMeshSurfaceTriangle) :
  make_cell asserts sqrtQ M_EPSILON M_LARGE_EPSILON cells surface newIndex i b
    = Done b1 ->
  get cells i = Some newCellIndex ->
  get (faces_ surface) i = Some face ->
  tetIndex_ face <> newCellIndex ->
  exists cell,
    get (tetrahedrons_ (b_mesh b1)) newCellIndex = Some cell /\
    indices_ cell
      = quad (tnth (tri_indices_ face) 0) (tnth (tri_indices_ face) 1)
             (tnth (tri_indices_ face) 2) newIndex /\
    get cells (tnth (tri_neighbors_ face) 0) = qget (neighbors_ cell) 0 /\
    get cells (tnth (tri_neighbors_ face) 1) = qget (neighbors_ cell) 1 /\
    get cells (tnth (tri_neighbors_ face) 2) = qget (neighbors_ cell) 2 /\
    qget (neighbors_ cell) 3 = Some (tetIndex_ face) /\
    get (badFlags b1) newCellIndex = Some false /\
    (tetIndex_ face <> M_MAX_UNSIGNED ->
     exists outer,
       get (tetrahedrons_ (b_mesh b1)) (tetIndex_ face) = Some outer /\
       qget (neighbors_ outer) (tetFace_ face) = Some newCellIndex).
Proof.
  intros H Hn Hf Hne. apply make_cell_done in H.
  destruct H as (nci' & old & face' & f0 & f1 & f2 & g0 & g1 & g2 & n0 & n1 & n2
                 & cells1 & cells2 & flags1 & H1 & H2 & H3 & H4 & H5 & H6 & H7
                 & H8 & H9 & H10 & H11 & H12 & _ & _ & H13 & _).
  rewrite Hn in H1. injection H1 as <-. rewrite Hf in H3. injection H3 as <-.
  rewrite H12, H13, H4, H5. cbn [tnth].
  pose proof (get_set_same _ _ _ H9) as Hnew.
  pose proof (get_set_same _ _ _ H11) as Hflag.
  assert (Hcell : get cells2 newCellIndex
                  = Some (mkTet (quad f0 f1 f2 newIndex)
                                (quad n0 n1 n2 (tetIndex_ face)) (matrix_ old))).
  { destruct H10 as [[_ ->]|[_ (outer & nb & Ho & Hq & Hs)]]; [exact Hnew|].
    assert (Hne' : newCellIndex <> tetIndex_ face)
      by (intro C; apply Hne; symmetry; exact C).
    rewrite (@get_set_other _ _ _ _ _ _ Hs Hne'). exact Hnew. }
  eexists. split; [exact Hcell|]. cbn [indices_ neighbors_ qget].
  split; [reflexivity|]. split; [exact H6|]. split; [exact H7|].
  split; [exact H8|]. split; [reflexivity|]. split; [exact Hflag|].
  intro Hout.
  destruct H10 as [[C _]|[_ (outer & nb & Ho & Hq & Hs)]]; [contradiction|].
  eexists. split; [exact (get_set_same _ _ _ Hs)|].
  cbn [neighbors_]. exact (qget_qset_same _ _ _ _ Hq).
Qed.

Lemma new_cell_is_linked_witness :
  make_cell true sqrt_approx EPSILON_example LARGE_EPSILON_example
    (snd two_points_grown) (holeSurface two_points_hole) 9 6
    two_points_six_cells = Done two_points_seven_cells /\
  exists cell outer,
    get (tetrahedrons_ (b_mesh two_points_seven_cells)) 8 = Some cell /\
    qget (neighbors_ cell) 3 = Some 7%N /\
    get (tetrahedrons_ (b_mesh two_points_seven_cells)) 7 = Some outer /\
    qget (neighbors_ outer) 2 = Some 8%N.
Proof.
  assert (H : make_cell true sqrt_approx EPSILON_example LARGE_EPSILON_example
                (snd two_points_grown) (holeSurface two_points_hole) 9 6
                two_points_six_cells = Done two_points_seven_cells)
    by (vm_compute; reflexivity).
  split; [exact H|].
  destruct (new_cell_is_linked true sqrt_approx EPSILON_example
              LARGE_EPSILON_example (snd two_points_grown)
              (holeSurface two_points_hole) 9%N 6%N two_points_six_cells
              two_points_seven_cells 8%N
              (mkTri (triple 5 1 8) (triple 8 10 7) 7 2)%N
              H eq_refl eq_refl)
    as [cell [Hc [_ [_ [_ [_ [H3 [_ Hout]]]]]]]].
  - discriminate.
  - destruct Hout as [outer [Ho Hq]]; [discriminate|].
    exists cell, outer.
    split; [exact Hc|]. split; [exact H3|]. split; [exact Ho | exact Hq].
Defined.

(** ** The bound on the breadth-first loop is never reached *)

Lemma bad_count_le (flags : list bool) : (bad_count flags <= length flags)%nat.
Proof. unfold bad_count. apply filter_length_le. Qed.

Lemma bad_count_get (flags : list bool) : forall i,
  get flags i = Some true -> (1 <= bad_count flags)%nat.
Proof.
  unfold bad_count.
  induction flags as [|flag flags IH]; intros i H; cbn [get] in H.
  - discriminate H.
  - destruct (N.eqb_spec i 0) as [_|_].
    + injection H as ->. cbn [filter length]. lia.
    + apply IH in H. cbn [filter]. destruct flag; cbn [length]; lia.
Qed.

Lemma bad_count_set (flags : list bool) : forall i flags',
  get flags i = Some false -> set flags i true = Some flags' ->
  bad_count flags' = S (bad_count flags).
Proof.
  unfold bad_count.
  induction flags as [|flag flags IH]; intros i flags' Hg Hs;
    cbn [get set] in Hg, Hs.
  - discriminate Hg.
  - destruct (N.eqb_spec i 0) as [_|_].
    + injection Hg as ->. injection Hs as <-. reflexivity.
    + destruct (set flags (N.pred i) true) as [rest|] eqn:E; [|discriminate Hs].
      injection Hs as <-. cbn [filter].
      pose proof (IH _ _ Hg E) as IH'.
      destruct flag; cbn [length]; rewrite IH'; reflexivity.
Qed.

(** Every cell in the queue was flagged when it was queued. *)
Lemma visit_neighbor_queue b position current tetrahedron j s s' :
  visit_neighbor b position current tetrahedron j s = Done s' ->
  (length (searchQueue s) <= bad_count (s_badFlags s))%nat ->
  (length (searchQueue s') <= bad_count (s_badFlags s'))%nat.
Proof.
  unfold visit_neighbor. intros H Hq. bind_cases H; injection H as <-;
    cbn [searchQueue s_badFlags]; try exact Hq.
  rewrite length_app. cbn [length].
  match goal with
  | E : put _ _ _ _ = Done _, F : at_ Arr_badFlags _ _ = Done false |- _ =>
      apply put_done in E; apply at_done in F;
      rewrite (bad_count_set _ _ _ F E)
  end.
  lia.
Qed.

Lemma visit_batch_queue b position firstCell lastCell s s' :
  visit_batch b position firstCell lastCell s = Done s' ->
  (length (searchQueue s) <= bad_count (s_badFlags s))%nat ->
  (length (searchQueue s') <= bad_count (s_badFlags s'))%nat.
Proof.
  unfold visit_batch. intros H Hq. revert H.
  apply (@for_loop_inv Search
           (fun s1 => (length (searchQueue s1) <= bad_count (s_badFlags s1))%nat));
    [|exact Hq].
  intros i s1 s2 Hs H. inv_bind H. inv_bind H. revert H.
  apply (@for_loop_inv Search
           (fun s3 => (length (searchQueue s3) <= bad_count (s_badFlags s3))%nat));
    [|exact Hs].
  intros j s3 s4 Hs3 H. eapply visit_neighbor_queue; [exact H|exact Hs3].
Qed.

Lemma breadth_search_within_bound b position : forall fuel firstCell s,
  (length (searchQueue s) <= bad_count (s_badFlags s))%nat ->
  (length (s_badFlags s) < fuel + N.to_nat firstCell)%nat ->
  breadth_search fuel b position firstCell s <> Done None.
Proof.
  induction fuel as [|fuel IH]; intros firstCell s Hq Hf;
    cbn [breadth_search];
    destruct (N.ltb_spec firstCell (size (searchQueue s))) as [Hlt|Hge];
    try discriminate.
  - pose proof (bad_count_le (s_badFlags s)). unfold size in Hlt. lia.
  - destruct (visit_batch b position firstCell (size (searchQueue s)) s)
      as [s'|] eqn:E; cbn [bind]; [|discriminate].
    apply IH.
    + eapply visit_batch_queue; [exact E|exact Hq].
    + rewrite (visit_batch_flags _ _ _ _ _ _ E). unfold size in *. lia.
Qed.

(** *** No function of the build fails by the bound *)

Lemma within_fuel_bind {A B} (m : Outcome A) (k : A -> Outcome B) :
  within_fuel m -> (forall a, m = Done a -> within_fuel (k a)) ->
  within_fuel (bind m k).
Proof.
  unfold within_fuel. intros Hm Hk. destruct m as [a|f]; cbn [bind].
  - apply Hk. reflexivity.
  - intro C. apply Hm. injection C as ->. reflexivity.
Qed.

Lemma within_fuel_done {A} (a : A) : within_fuel (Done a).
Proof. discriminate. Qed.

Lemma within_fuel_at {A} a (l : list A) i : within_fuel (at_ a l i).
Proof. unfold within_fuel, at_. destruct (get l i); discriminate. Qed.

Lemma within_fuel_put {A} a (l : list A) i v : within_fuel (put a l i v).
Proof. unfold within_fuel, put. destruct (set l i v); discriminate. Qed.

Lemma within_fuel_qat {A} a (q : Quad A) i : within_fuel (qat a q i).
Proof. unfold within_fuel, qat. destruct (qget q i); discriminate. Qed.

Lemma within_fuel_qput {A} a (q : Quad A) i v : within_fuel (qput a q i v).
Proof. unfold within_fuel, qput. destruct (qset q i v); discriminate. Qed.

Lemma within_fuel_assert asserts d c : within_fuel (assert asserts d c).
Proof. unfold within_fuel, assert. destruct asserts, c; discriminate. Qed.

Lemma within_fuel_for_loop {St} (body : N -> St -> Outcome St) :
  (forall i s, within_fuel (body i s)) ->
  forall n i s, within_fuel (for_loop n i body s).
Proof.
  intro Hb. induction n as [|n IH]; intros i s; cbn [for_loop].
  - apply within_fuel_done.
  - apply within_fuel_bind; [apply Hb | intros s' _; apply IH].
Qed.

(** Takes a goal [within_fuel] of a sequence of steps apart. *)
Ltac fuel_steps :=
  repeat first
    [ apply within_fuel_done
    | apply within_fuel_at
    | apply within_fuel_put
    | apply within_fuel_qat
    | apply within_fuel_qput
    | apply within_fuel_assert
    | match goal with
      | |- within_fuel (bind _ _) => apply within_fuel_bind; [|intros ? ?]
      | |- within_fuel (if ?c then _ else _) => destruct c
      | |- within_fuel (match ?x with triple _ _ _ => _ end) => destruct x
      | |- within_fuel (match ?x with quad _ _ _ _ => _ end) => destruct x
      | |- within_fuel (match ?x with pair _ _ => _ end) => destruct x
      end ].

Lemma within_fuel_circumsphere asserts sqrtQ M_EPSILON M_LARGE_EPSILON mesh i :
  within_fuel (GetTetrahedronCircumsphere asserts sqrtQ M_EPSILON
                 M_LARGE_EPSILON mesh i).
Proof.
  unfold GetTetrahedronCircumsphere, circumsphere_of_points. fuel_steps.
  discriminate.
Qed.

Lemma within_fuel_find_first_bad b position : forall n i,
  within_fuel (find_first_bad b position n i).
Proof.
  induction n as [|n IH]; intro i; cbn [find_first_bad]; fuel_steps; apply IH.
Qed.

Lemma within_fuel_GetTriangleFace tetrahedron j a c :
  within_fuel (GetTriangleFace tetrahedron j a c).
Proof.
  unfold within_fuel, GetTriangleFace.
  destruct (indices_ tetrahedron) as [i0 i1 i2 i3].
  destruct j as [|[[p|p|]|[p|p|]|]]; discriminate.
Qed.

Lemma within_fuel_visit_neighbor b position current tetrahedron j s :
  within_fuel (visit_neighbor b position current tetrahedron j s).
Proof.
  unfold visit_neighbor. fuel_steps; apply within_fuel_GetTriangleFace.
Qed.

Lemma within_fuel_visit_batch b position firstCell lastCell s :
  within_fuel (visit_batch b position firstCell lastCell s).
Proof.
  unfold visit_batch. apply within_fuel_for_loop. intros i s1. fuel_steps.
  apply within_fuel_for_loop. intros j s2. apply within_fuel_visit_neighbor.
Qed.

Lemma within_fuel_breadth_search b position : forall fuel firstCell s,
  within_fuel (breadth_search fuel b position firstCell s).
Proof.
  induction fuel as [|fuel IH]; intros firstCell s; cbn [breadth_search];
    destruct (firstCell <? size (searchQueue s))%N; try discriminate.
  apply within_fuel_bind; [apply within_fuel_visit_batch|].
  intros s' _. apply IH.
Qed.

Lemma within_fuel_make_cell asserts sqrtQ M_EPSILON M_LARGE_EPSILON
  cells surface newIndex i b :
  within_fuel (make_cell asserts sqrtQ M_EPSILON M_LARGE_EPSILON cells surface
                 newIndex i b).
Proof.
  unfold make_cell. fuel_steps. apply within_fuel_circumsphere.
Qed.

Lemma within_fuel_init_build asserts sqrtQ M_EPSILON M_LARGE_EPSILON mesh :
  within_fuel (init_build asserts sqrtQ M_EPSILON M_LARGE_EPSILON mesh).
Proof.
  unfold init_build. apply within_fuel_bind.
  - apply within_fuel_for_loop. intros i [spheres flags]. fuel_steps.
    apply within_fuel_circumsphere.
  - intros [spheres flags] _. apply within_fuel_done.
Qed.

Section WithinFuel.
Variable asserts : bool.
Variable sqrtQ : Q -> Q.
Variables M_EPSILON M_LARGE_EPSILON tolerance : Q.

(** The search of an insertion starts with one cell in the queue, which is
    flagged, and with one turn of the loop more than there are flags. *)
Lemma insert_search_within_bound (bp : Build) (position : Vector3)
  (flags0 flags : list bool) (cellIndex : N) :
  put Arr_badFlags flags0 cellIndex true = Done flags ->
  breadth_search (S (length flags)) bp position 0
    (mkSearch flags [cellIndex] [cellIndex] Surface_Clear) <> Done None.
Proof.
  intro H. apply put_done in H. apply get_set_same in H.
  apply breadth_search_within_bound; cbn [searchQueue s_badFlags length].
  - exact (bad_count_get _ _ H).
  - lia.
Qed.

Lemma within_fuel_insert_point position b :
  within_fuel (insert_point asserts sqrtQ M_EPSILON M_LARGE_EPSILON position b).
Proof.
  unfold insert_point.
  apply within_fuel_bind; [apply within_fuel_find_first_bad|].
  intros [cellIndex|] _; [|fuel_steps].
  apply within_fuel_bind; [apply within_fuel_put|]. intros flags Hput.
  apply within_fuel_bind; [apply within_fuel_breadth_search|].
  intros [s|] Hs.
  - destruct (negb (IsClosedSurface (holeSurface s))); [fuel_steps|].
    destruct (grow _ _ _) as [bg cells].
    apply within_fuel_bind; [|intros; apply within_fuel_done].
    apply within_fuel_for_loop. intros i s1. apply within_fuel_make_cell.
  - exfalso. revert Hs. eapply insert_search_within_bound. exact Hput.
Qed.

Lemma within_fuel_for_each positions : forall b,
  within_fuel (for_each positions
                 (insert_point asserts sqrtQ M_EPSILON M_LARGE_EPSILON) b).
Proof.
  induction positions as [|p l IH]; intro b; cbn [for_each].
  - apply within_fuel_done.
  - apply within_fuel_bind; [apply within_fuel_insert_point|].
    intros [b'|b'] _; [apply IH | apply within_fuel_done].
Qed.

Lemma within_fuel_insert_all mesh positions :
  within_fuel (insert_all asserts sqrtQ M_EPSILON M_LARGE_EPSILON mesh positions).
Proof.
  unfold insert_all.
  apply within_fuel_bind; [apply within_fuel_init_build|].
  intros b _. apply within_fuel_for_each.
Qed.

Lemma within_fuel_unlink_neighbor i j cells :
  within_fuel (unlink_neighbor i j cells).
Proof. unfold unlink_neighbor. fuel_steps. Qed.

Lemma within_fuel_cull_cell i st : within_fuel (cull_cell i st).
Proof.
  unfold cull_cell. destruct st as [cells flags]. fuel_steps.
  apply within_fuel_for_loop. intros j c. apply within_fuel_unlink_neighbor.
Qed.

Lemma within_fuel_renumber_cell cells flags i st :
  within_fuel (renumber_cell cells flags i st).
Proof. unfold renumber_cell. destruct st as [newIndices out]. fuel_steps. Qed.

Lemma within_fuel_remap_neighbor newIndices i cell :
  within_fuel (remap_neighbor asserts newIndices i cell).
Proof. unfold remap_neighbor. fuel_steps. Qed.

Lemma within_fuel_map_outcome {A B} (f : A -> Outcome B) :
  (forall a, within_fuel (f a)) -> forall l, within_fuel (map_outcome f l).
Proof.
  intro Hf. induction l as [|a l IH]; cbn [map_outcome].
  - apply within_fuel_done.
  - apply within_fuel_bind; [apply Hf|]. intros b _.
    apply within_fuel_bind; [apply IH|]. intros l' _. apply within_fuel_done.
Qed.

Lemma within_fuel_cull_and_renumber b :
  within_fuel (cull_and_renumber asserts b).
Proof.
  unfold cull_and_renumber.
  apply within_fuel_bind.
  { apply within_fuel_for_loop. intros i st. apply within_fuel_cull_cell. }
  intros [cells flags] _.
  apply within_fuel_bind.
  { apply within_fuel_for_loop. intros i st. apply within_fuel_renumber_cell. }
  intros [newIndices out] _.
  apply within_fuel_bind.
  { apply within_fuel_map_outcome. intro cell.
    apply within_fuel_for_loop. intros i c. apply within_fuel_remap_neighbor. }
  intros out' _.
  apply within_fuel_bind; [|intros; apply within_fuel_done].
  destruct (size (vertices_ (b_mesh b)) <? 8)%N; discriminate.
Qed.

Lemma within_fuel_coords mesh i position :
  within_fuel (GetInnerBarycentricCoords mesh i position).
Proof. unfold GetInnerBarycentricCoords. fuel_steps. Qed.

Lemma within_fuel_set_matrix i mesh :
  within_fuel (set_matrix asserts tolerance i mesh).
Proof.
  unfold set_matrix. fuel_steps;
    try apply within_fuel_coords;
    try (unfold within_fuel, Inverse;
         match goal with |- context [Qeq_bool ?a ?b] => destruct (Qeq_bool a b) end;
         discriminate).
Qed.

Lemma within_fuel_adjacency_cell cells i cell :
  within_fuel (cell_adjacency_valid cells i cell).
Proof.
  unfold cell_adjacency_valid.
  assert (H : forall l acc, within_fuel acc ->
    within_fuel
      (fold_left
         (fun (acc : Outcome bool) (neighborIndex : N) =>
            ok <- acc ;;
            if negb ok then Done false
            else if (neighborIndex =? M_MAX_UNSIGNED)%N then Done true
            else
              neighborCell <- at_ Arr_tetrahedrons cells neighborIndex ;;
              Done (negb (Nat.eqb (count4 (neighbors_ neighborCell) i) 0)))
         l acc)).
  { induction l as [|n l IH]; intros acc Hacc; cbn [fold_left]; [exact Hacc|].
    apply IH. apply within_fuel_bind; [exact Hacc|]. intros ok _. fuel_steps. }
  apply H. apply within_fuel_done.
Qed.

Lemma within_fuel_adjacency cells : forall rest k,
  within_fuel (adjacency_valid_from cells k rest).
Proof.
  induction rest as [|c rest IH]; intro k; cbn [adjacency_valid_from].
  - apply within_fuel_done.
  - apply within_fuel_bind; [apply within_fuel_adjacency_cell|].
    intros [|] _; [apply IH | apply within_fuel_done].
Qed.

Lemma within_fuel_finish mesh : within_fuel (finish asserts tolerance mesh).
Proof.
  unfold finish. apply within_fuel_bind.
  { apply within_fuel_for_loop. intros i m. apply within_fuel_set_matrix. }
  intros m _. destruct asserts; [|apply within_fuel_done].
  apply within_fuel_bind; [apply within_fuel_adjacency|]. intros valid _.
  fuel_steps.
Qed.

Lemma within_fuel_post_pass b : within_fuel (post_pass asserts tolerance b).
Proof.
  unfold post_pass.
  apply within_fuel_bind; [apply within_fuel_cull_and_renumber|].
  intros m _. apply within_fuel_finish.
Qed.

Lemma within_fuel_build mesh positions :
  within_fuel (AddTetrahedralMeshVertices asserts sqrtQ M_EPSILON
                 M_LARGE_EPSILON tolerance mesh positions).
Proof.
  unfold AddTetrahedralMeshVertices.
  apply within_fuel_bind; [apply within_fuel_insert_all|].
  intros [b|b] _; [apply within_fuel_post_pass | apply within_fuel_done].
Qed.
End WithinFuel.

(** The bound that the embedding puts on the breadth-first [while] loop of
    an insertion, one turn more than there are cells, is never reached:
    every turn of the loop takes cells that were flagged when they were
    queued, and a cell is flagged once. So no insertion and no build fails
    for lack of turns: the outcomes of [insert_point],
    [AddTetrahedralMeshVertices] and [Define] are those of the loop of the
    source. *)
Theorem breadth_search_fuel
  (asserts : bool) (sqrtQ : Q -> Q) (M_EPSILON M_LARGE_EPSILON tolerance : Q) :
  (forall (b bp : Build) position cellIndex flags,
     put Arr_badFlags (badFlags b) cellIndex true = Done flags ->
     breadth_search (S (length flags)) bp position 0
       (mkSearch flags [cellIndex] [cellIndex] Surface_Clear) <> Done None) /\
  (forall position b,
     insert_point asserts sqrtQ M_EPSILON M_LARGE_EPSILON position b
     <> Fail FuelExhausted) /\
  (forall mesh positions,
     AddTetrahedralMeshVertices asserts sqrtQ M_EPSILON M_LARGE_EPSILON
       tolerance mesh positions <> Fail FuelExhausted) /\
  (forall mesh0 positions padding,
     Define asserts sqrtQ M_EPSILON M_LARGE_EPSILON tolerance mesh0 positions
       padding <> Fail FuelExhausted).
Proof.
  split.
  { intros b bp position cellIndex flags H.
    eapply insert_search_within_bound. exact H. }
  split; [apply within_fuel_insert_point|].
  split; [apply within_fuel_build|].
  intros mesh0 positions padding. unfold Define. apply within_fuel_build.
Qed.

(** ** The average ambient *)


